(** * PhyloFisher [forest.py]: the classification engine, embedded and verified

    The definitions below follow [src/phylofisher/forest.py] function by
    function.  Python strings are [string]s whose characters are the code
    points below 256 (ASCII and Latin-1), Python [dict]s are [gmap]s,
    Python [set]s are [gset]s, Python exceptions are the [Raise] results
    of a small error monad.  The module-level global [metadata] of the
    script is an explicit argument, and so is the order in which Python
    iterates over a set, wherever the script does.

    Trees are the [ete3] trees the script works on, taken after loading
    (and, where the script roots them, after midpoint rooting): rooting is
    done by the [ete3] library, not by this repository.  The calls taken
    together with the outcome of their rooting, which may be an
    exception, are [suspicious_clades_call] and
    [collect_contaminations_call]. *)

From Stdlib Require Import Ascii String QArith Qfield.
From stdpp Require Import gmap strings list sorting.

Set Warnings "-register-all,-clear-no-such-hyp".
Local Open Scope string_scope.
Local Open Scope list_scope.
Local Open Scope nat_scope.

(** ** Python string primitives *)

Module PyStr.

(** [s.count(c)] for a one-character [c]. *)
Fixpoint count (c : ascii) (s : string) : nat :=
  match s with
  | EmptyString => 0
  | String a s' => (if Ascii.eqb a c then 1 else 0) + count c s'
  end.

(** [s.split(c)] for a one-character separator [c]: never empty. *)
Fixpoint split (c : ascii) (s : string) : list string :=
  match s with
  | EmptyString => [""]
  | String a s' =>
      if Ascii.eqb a c then "" :: split c s'
      else match split c s' with
           | f :: fs => String a f :: fs
           | [] => [String a ""]
           end
  end.

(** [p] is a prefix of [s]: [s.startswith(p)]. *)
Fixpoint startswith (p s : string) : bool :=
  match p, s with
  | EmptyString, _ => true
  | String a p', String b s' => Ascii.eqb a b && startswith p' s'
  | String _ _, EmptyString => false
  end.

(** [sub in s]: substring test. *)
Fixpoint contains (sub s : string) : bool :=
  startswith sub s ||
  match s with
  | EmptyString => false
  | String _ s' => contains sub s'
  end.

(** [s.split(sep)[0]] for a non-empty separator [sep]: the text before
    the first occurrence of [sep], or all of [s] when there is none. *)
Fixpoint split_head (sep s : string) : string :=
  if startswith sep s then ""
  else match s with
       | EmptyString => ""
       | String a s' => String a (split_head sep s')
       end.

(** [xs[0]] on the result of a [split], which is never empty. *)
Definition item0 (xs : list string) : string := hd "" xs.

(** [c.isspace()], the characters [str.strip()] removes: the code points
    9 to 13, 28 to 32, 133 (U+0085) and 160 (U+00A0). *)
Definition isspace (a : ascii) : bool :=
  let n := nat_of_ascii a in
  ((9 <=? n) && (n <=? 13)) || ((28 <=? n) && (n <=? 32)) ||
  (n =? 133) || (n =? 160).

Fixpoint lstrip (s : string) : string :=
  match s with
  | EmptyString => ""
  | String a s' => if isspace a then lstrip s' else s
  end.

Fixpoint rstrip (s : string) : string :=
  match s with
  | EmptyString => ""
  | String a s' =>
      match rstrip s' with
      | EmptyString => if isspace a then "" else String a ""
      | r => String a r
      end
  end.

(** [s.strip()]. *)
Definition strip (s : string) : string := rstrip (lstrip s).

Fixpoint drop_last (s : string) : string :=
  match s with
  | EmptyString => ""
  | String a EmptyString => ""
  | String a s' => String a (drop_last s')
  end.

(** The slice [s[1:-1]]. *)
Definition slice_1_m1 (s : string) : string :=
  match s with
  | EmptyString => ""
  | String _ s' => drop_last s'
  end.

Definition digit_val (a : ascii) : option Z :=
  let n := nat_of_ascii a in
  if (48 <=? n) && (n <=? 57) then Some (Z.of_nat (n - 48)) else None.

(** The characters [int()] skips around a number.  CPython first turns
    the white space above ASCII (U+0085 and U+00A0) into blanks and then
    skips the white space of C, the code points 9 to 13 and 32: the
    separators 28 to 31, which [str.strip()] removes, are not skipped. *)
Definition int_space (a : ascii) : bool :=
  let n := nat_of_ascii a in
  ((9 <=? n) && (n <=? 13)) || (n =? 32) || (n =? 133) || (n =? 160).

Fixpoint int_lstrip (s : string) : string :=
  match s with
  | EmptyString => ""
  | String a s' => if int_space a then int_lstrip s' else s
  end.

Fixpoint all_space (s : string) : bool :=
  match s with
  | EmptyString => true
  | String a s' => int_space a && all_space s'
  end.

(** The digits of a decimal literal, with single underscores allowed
    between two digits, up to the white space that ends it: [acc] is the
    value and [n] the number of the digits read so far, [after_digit]
    says that the character just read was a digit. *)
Fixpoint digits (acc : Z) (n : nat) (after_digit : bool) (s : string)
    : option (Z * nat) :=
  match s with
  | EmptyString => if after_digit then Some (acc, n) else None
  | String a s' =>
      match digit_val a with
      | Some d => digits (10 * acc + d)%Z (S n) true s'
      | None =>
          if Ascii.eqb a "_" then
            if after_digit then digits acc n false s' else None
          else if after_digit && all_space s then Some (acc, n) else None
      end
  end.

(** [sys.get_int_max_str_digits()], as CPython sets it by default. *)
Definition int_max_str_digits : nat := 4300.

(** [int(s)] in base 10: white space around the number is skipped, one
    sign is allowed, at least one decimal digit is required, and a
    literal of more than [int_max_str_digits] digits is refused.  [None]
    stands for the [ValueError] Python raises. *)
Definition int (s : string) : option Z :=
  let body := int_lstrip s in
  let signed :=
    match body with
    | String "-" d => ((-1)%Z, d)
    | String "+" d => (1%Z, d)
    | d => (1%Z, d)
    end in
  match digits 0 0 false signed.2 with
  | Some (v, n) =>
      if n <=? int_max_str_digits then Some (signed.1 * v)%Z else None
  | None => None
  end.

End PyStr.

(** ** Exceptions and the error monad *)

Inductive dict_name := Dmetadata | Dcont_dict | Dgroup_perc.

Inductive exn :=
| KeyError (d : dict_name) (k : string)   (* [d[k]] with [k] absent *)
| AttributeError                          (* attribute of [None] *)
| AssertionError
| ValueError
| IndexError.

Inductive result (A : Type) :=
| Ok (a : A)
| Raise (e : exn).
Arguments Ok {A} a.
Arguments Raise {A} e.

(** Sequencing: the first exception is propagated. *)
Definition bind {A B : Type} (m : result A) (k : A → result B) : result B :=
  match m with
  | Ok a => k a
  | Raise e => Raise e
  end.

Notation "x <~ m ;; k" := (bind m (fun x => k))
  (at level 100, m at next level, right associativity,
   format "'[v' x  <~  m ;; '/' k ']'").

(** [d[k]]: a dictionary lookup that raises [KeyError]. *)
Definition getitem {V} (d : dict_name) (m : gmap string V) (k : string) : result V :=
  match m !! k with
  | Some v => Ok v
  | None => Raise (KeyError d k)
  end.

(** ** Data model *)

(** One entry of the Taxon Directory, as [parse_metadata] builds it. *)
Record TaxonRecord := {
  group : string;
  col : string;
  full : string;
  subtax : string
}.

(** An [ete3] tree node: name, support and children.  The support is the
    number read from the tree file; the script only compares it with 70,
    so it is kept as an exact rational. *)
Inductive TreeNode := Node {
  name : string;
  support : Q;
  children : list TreeNode
}.

(** A reference to a node is the node followed by its ancestors, nearest
    first: [n.up] is the tail, and the empty list is Python's [None] (the
    root's [up]). *)
Definition noderef := list TreeNode.

Definition up (n : noderef) : noderef := tl n.

(** [node.is_leaf()]: no children. *)
Definition is_leaf (n : TreeNode) : bool :=
  match children n with [] => true | _ => false end.

(** [node.is_root()]: [up] is [None]. *)
Definition is_root (n : noderef) : bool :=
  match up n with [] => true | _ => false end.

(** [node.get_leaf_names()]: the names of the leaves below the node, in
    pre-order; a leaf is its own only leaf. *)
Fixpoint get_leaf_names (n : TreeNode) : list string :=
  match n with
  | Node nm _ [] => [nm]
  | Node _ _ ch => flat_map get_leaf_names ch
  end.

(** [len(node)]: the number of leaves below the node. *)
Definition len_node (n : TreeNode) : Z := Z.of_nat (length (get_leaf_names n)).

(** [t.traverse('preorder')]: every node before its children, each with
    its chain of ancestors. *)
Fixpoint traverse_from (ups : list TreeNode) (n : TreeNode) : list noderef :=
  match n with
  | Node _ _ ch => (n :: ups) :: flat_map (traverse_from (n :: ups)) ch
  end.

Definition traverse (t : TreeNode) : list noderef := traverse_from [] t.

(** Induction on trees: the property holds of a node when it holds of
    all its children. *)
Fixpoint TreeNode_induction (P : TreeNode → Prop)
    (step : ∀ nm s ch, Forall P ch → P (Node nm s ch)) (n : TreeNode) : P n :=
  match n with
  | Node nm s ch =>
      step nm s ch
        ((fix all (l : list TreeNode) : Forall P l :=
            match l with
            | [] => @List.Forall_nil _ P
            | c :: l' => @List.Forall_cons _ P c l' (TreeNode_induction P step c) (all l')
            end) ch)
  end.

(** The organism code of a leaf name, as the script strips it (lines 58-61,
    105-108, 305-308): the text before [..] for a paralog, the text before
    the first underscore otherwise. *)
Definition org_code (leaf : string) : string :=
  if PyStr.contains ".." leaf then PyStr.split_head ".." leaf
  else PyStr.item0 (PyStr.split "_" leaf).

(** A Ranked-Candidate name: [name.count('_') == 4]. *)
Definition is_candidate (leaf : string) : bool :=
  PyStr.count "_" leaf =? 4.

(** A loop whose body may raise: the first exception ends it. *)
Fixpoint foldM {A S : Type} (body : S → A → result S) (s : S) (l : list A) : result S :=
  match l with
  | [] => Ok s
  | a :: l' => s' <~ body s a;; foldM body s' l'
  end.

(** [xs[i]] and [xs[-k]] with Python's [IndexError]. *)
Definition item (xs : list string) (i : nat) : result string :=
  match xs !! i with
  | Some x => Ok x
  | None => Raise IndexError
  end.

Definition item_neg (xs : list string) (k : nat) : result string :=
  if (1 <=? k) && (k <=? length xs) then item xs (length xs - k)
  else Raise IndexError.

Section Forest.

(** The global [metadata]: organism code to Taxon Record. *)
Variable metadata : gmap string TaxonRecord.

(** *** [suspicious_clades] (lines 42-65) *)

(** Lines 48-53: one step of the loop that fills [supported_clades]. *)
Definition supported_step (t : TreeNode) (supported_clades : list (list string))
    (node : noderef) : list (list string) :=
  match node with
  | [] => supported_clades
  | n :: _ =>
      if negb (is_root node) && negb (is_leaf n) then
        if Qle_bool 70 (support n) && (len_node n <? len_node t - len_node n)%Z then
          let clade := get_leaf_names n in
          if 1 <? length clade then supported_clades ++ [clade]
          else supported_clades
        else supported_clades
      else supported_clades
  end.

(** Lines 56-62: the set of groups of a clade. *)
Definition groups_step (groups : gset string) (org : string) : result (gset string) :=
  rec <~ getitem Dmetadata metadata (org_code org);;
  Ok (groups ∪ {[group rec]}).

(** Lines 55-64: one step of the loop that fills [suspicious]. *)
Definition suspicious_step (suspicious : list (list string)) (clade : list string)
    : result (list (list string)) :=
  groups <~ foldM groups_step (∅ : gset string) clade;;
  if 1 <? size groups then Ok (suspicious ++ [clade]) else Ok suspicious.

(** Lines 47-65, on the tree [t] that lines 43-45 have rooted: the
    second component of the pair the function returns; the first is the
    file name it was given. *)
Definition suspicious_clades (t : TreeNode) : result (list (list string)) :=
  let supported_clades := fold_left (supported_step t) (traverse t) [] in
  foldM suspicious_step [] supported_clades.

(** *** [expected_neighborhood] (lines 98-123) *)

(** Lines 103-114: one step of the loop that fills [keywords]. *)
Definition keywords_step (rank : string) (keywords : gset string) (org : string)
    : result (gset string) :=
  if negb (PyStr.count "_" org =? 4) then
    let org := org_code org in
    if String.eqb rank "group" then
      rec <~ getitem Dmetadata metadata org;; Ok (keywords ∪ {[group rec]})
    else if String.eqb rank "subtax" then
      rec <~ getitem Dmetadata metadata org;; Ok (keywords ∪ {[subtax rec]})
    else if String.eqb rank "org" then
      Ok (keywords ∪ {[org]})
    else Ok keywords
  else Ok keywords.

(** The [assert] of line 102. *)
Definition valid_rank (rank : string) : bool :=
  bool_decide (rank ∈ ["group"; "subtax"; "org"]).

(** Lines 99 and 103-114: the set [keywords] gathered below a node. *)
Definition keywords_of (rank : string) (p : TreeNode) : result (gset string) :=
  foldM (keywords_step rank) (∅ : gset string) (get_leaf_names p).

(** The recursion follows [parent.up]; on [None] (the empty reference)
    [parent.get_leaf_names()] raises [AttributeError]. *)
Fixpoint expected_neighborhood (parent : noderef) (cont_key_rank : string * string)
    : result bool :=
  let key := cont_key_rank.1 in
  let rank := cont_key_rank.2 in
  if negb (valid_rank rank) then Raise AssertionError
  else
    match parent with
    | [] => Raise AttributeError
    | p :: parent_up =>
        keywords <~ keywords_of rank p;;
        match elements keywords with
        | [] => expected_neighborhood parent_up cont_key_rank
        | [k] => Ok (PyStr.contains key k)
        | _ => Ok false
        end
    end.

(** *** [check_contamination] (lines 126-130) *)
Definition check_contamination (node : noderef)
    (cont_dict : gmap string (string * string)) : result bool :=
  match node with
  | [] => Raise AttributeError
  | n :: _ =>
      let org := PyStr.item0 (PyStr.split "_" (name n)) in
      ckr <~ getitem Dcont_dict cont_dict org;;
      b <~ expected_neighborhood (up node) ckr;;
      if b then Ok true else Ok false
  end.

(** *** [collect_contaminations] (lines 133-153) *)

(** Lines 142-151: the body of the loop; the state is the pair
    [(contaminations, cont_table_name)]. *)
Definition contamination_step (cont_dict : gmap string (string * string))
    (st : gset string * gset string) (node : noderef)
    : result (gset string * gset string) :=
  match node with
  | [] => Raise AttributeError
  | n :: _ =>
      if is_leaf n then
        if PyStr.count "_" (name n) =? 4 then
          let name_ := name n in
          let org := PyStr.item0 (PyStr.split "_" name_) in
          q3 <~ item_neg (PyStr.split "_" (name n)) 3;;
          q2 <~ item_neg (PyStr.split "_" (name n)) 2;;
          q1 <~ item_neg (PyStr.split "_" (name n)) 1;;
          let quality := q3 +:+ "_" +:+ q2 +:+ "_" +:+ q1 in
          rec <~ getitem Dmetadata metadata org;;
          let table_name := full rec +:+ "_" +:+ quality +:+ "@" +:+ org in
          if bool_decide (is_Some (cont_dict !! org)) then
            b <~ check_contamination node cont_dict;;
            if b then Ok (st.1 ∪ {[name_]}, st.2 ∪ {[table_name]})
            else Ok st
          else Ok st
        else Ok st
      else Ok st
  end.

(** Lines 137-153, on the tree [t] that lines 134-136 have rooted. *)
Definition collect_contaminations (t : TreeNode)
    (cont_dict : gmap string (string * string))
    : result (gset string * gset string) :=
  foldM (contamination_step cont_dict) (∅, ∅) (traverse t).

End Forest.

(** *** [get_best_candidates] (lines 68-86) *)

(** Lines 72-82: the body of the loop; an entry of [top_rank] is the pair
    of its ['rank'] and its ['candidate']. *)
Definition best_step (top_rank : gmap string (Z * string)) (node : noderef)
    : result (gmap string (Z * string)) :=
  match node with
  | [] => Raise AttributeError
  | n :: _ =>
      if is_leaf n then
        if PyStr.count "_" (name n) =? 4 then
          match PyStr.split "_" (name n) with
          | [org; _; _; rank; _] =>
              match PyStr.int (PyStr.slice_1_m1 rank) with
              | None => Raise ValueError
              | Some rank =>
                  match top_rank !! org with
                  | None => Ok (<[org := (rank, name n)]> top_rank)
                  | Some (best, _) =>
                      if (rank <? best)%Z
                      then Ok (<[org := (rank, name n)]> top_rank)
                      else Ok top_rank
                  end
              end
          | _ => Raise ValueError
          end
        else Ok top_rank
      else Ok top_rank
  end.

Definition get_best_candidates (t : TreeNode) : result (gset string) :=
  top_rank <~ foldM best_step (∅ : gmap string (Z * string)) (traverse t);;
  Ok (map_img (snd <$> top_rank)).

(** *** [nonredundant] (lines 283-297) *)

(** What the function asks of a clade: [len(clade)] and [set(clade)].  The
    lists of leaf names that [suspicious_clades] returns qualify, and so do
    the sets the function itself returns. *)
Class Clade (C : Type) := {
  py_len : C → nat;
  py_set : C → gset string
}.

#[global] Instance list_clade : Clade (list string) :=
  {| py_len := length; py_set := list_to_set |}.

#[global] Instance set_clade : Clade (gset string) :=
  {| py_len := size; py_set := id |}.

(** [sorted(l, key=key)]: Python's sort is stable, as is this insertion
    sort (an element goes before the later elements of equal key). *)
Fixpoint insert_by {A} (key : A → nat) (x : A) (l : list A) : list A :=
  match l with
  | [] => [x]
  | y :: l' => if key x <=? key y then x :: y :: l' else y :: insert_by key x l'
  end.

Definition sorted {A} (key : A → nat) (l : list A) : list A :=
  foldr (insert_by key) [] l.

(** [enumerate(l, start)] and [enumerate(l)]. *)
Fixpoint enumerate_from {A} (start : nat) (l : list A) : list (nat * A) :=
  match l with
  | [] => []
  | x :: l' => (start, x) :: enumerate_from (S start) l'
  end.

Definition enumerate {A} (l : list A) : list (nat * A) := enumerate_from 0 l.

Section Nonredundant.
Context {C : Type} `{Clade C}.

(** Lines 290-294: the flag [redundant] after the inner loop. *)
Definition redundant_flag (sorted_sets : list (gset string)) (i : nat)
    (set_ : gset string) : bool :=
  if i <? length sorted_sets then
    fold_left (fun redundant other =>
                 if bool_decide (set_ ⊆ other) then true else redundant)
              (drop (i + 1) sorted_sets) false
  else false.

(** Lines 286-296: the body of the outer loop, for the clades of one
    tree; [nonredundant_] is the list being filled. *)
Definition nonredundant_step (nonredundant_ : list (gset string)) (clades : list C)
    : list (gset string) :=
  match clades with
  | [] => nonredundant_
  | _ =>
      let sorted_clades := sorted py_len clades in
      let sorted_sets := py_set <$> sorted_clades in
      fold_left (fun acc ix =>
                   if redundant_flag sorted_sets ix.1 ix.2 then acc
                   else acc ++ [ix.2])
                (enumerate sorted_sets) nonredundant_
  end.

Definition nonredundant (result_clades : list (list C)) : list (gset string) :=
  fold_left nonredundant_step result_clades [].

End Nonredundant.

(** *** [problematic] (lines 300-323) *)

(** [taxons.count(tax)]. *)
Definition list_count (x : string) (l : list string) : nat :=
  length (filter (λ y, y = x) l).

(** [(taxons.count(tax) / len(taxons)) * 100], computed exactly: for lists
    shorter than 2^40 the floating-point value compares with 50 and with
    the other shares as the exact one does. *)
Definition share (taxons : list string) (tax : string) : Q :=
  (inject_Z (Z.of_nat (list_count tax taxons))
     / inject_Z (Z.of_nat (length taxons))) * 100.

(** [max(d, key=d.get)] over the entries of a dictionary in insertion
    order: the first entry that no later entry exceeds. *)
Fixpoint max_from (best : string * Q) (l : list (string * Q)) : string :=
  match l with
  | [] => best.1
  | x :: l' =>
      if negb (Qle_bool x.2 best.2) then max_from x l' else max_from best l'
  end.

Definition max_key (d : list (string * Q)) : result string :=
  match d with
  | [] => Raise ValueError
  | x :: l => Ok (max_from x l)
  end.

(** [d[k]] on a dictionary kept in insertion order. *)
Fixpoint assoc_get (d : list (string * Q)) (k : string) : result Q :=
  match d with
  | [] => Raise (KeyError Dgroup_perc k)
  | (k', v) :: d' => if String.eqb k' k then Ok v else assoc_get d' k
  end.

Section Problematic.

(** The order in which Python iterates over a set is not specified; it
    is some enumeration of the elements. *)
Variable iter : gset string → list string.

Variable metadata : gmap string TaxonRecord.

(** Lines 304-309. *)
Definition taxons_step (taxons : list string) (org : string) : result (list string) :=
  rec <~ getitem Dmetadata metadata (org_code org);;
  Ok (taxons ++ [group rec]).

(** Lines 310-312: [group_perc], in insertion order. *)
Definition group_perc_of (taxons : list string) : list (string * Q) :=
  (λ tax, (tax, share taxons tax)) <$> iter (list_to_set taxons).

(** Lines 314-322: the body of the loop over the members; the state is
    the table [problematic_orgs_], a [defaultdict(list)]. *)
Definition member_step (group_perc : list (string * Q)) (max_perc : string)
    (problematic_orgs_ : gmap string (list string)) (seq : string)
    : result (gmap string (list string)) :=
  let org := org_code seq in
  rec <~ getitem Dmetadata metadata org;;
  p <~ assoc_get group_perc (group rec);;
  let entry := default [] (problematic_orgs_ !! org) in
  if Qeq_bool p 50 then Ok (<[org := entry ++ ["unspecified"]]> problematic_orgs_)
  else Ok (<[org := entry ++ [max_perc]]> problematic_orgs_).

(** Lines 303-322: the body of the loop over the clades. *)
Definition clade_step (problematic_orgs_ : gmap string (list string))
    (clade : gset string) : result (gmap string (list string)) :=
  taxons <~ foldM taxons_step [] (iter clade);;
  let group_perc := group_perc_of taxons in
  max_perc <~ max_key group_perc;;
  foldM (member_step group_perc max_perc) problematic_orgs_ (iter clade).

Definition problematic (nonredundant_clades_ : list (gset string))
    : result (gmap string (list string)) :=
  foldM clade_step ∅ nonredundant_clades_.

End Problematic.

(** *** [backpropagate_contamination] (lines 354-372) *)

Definition TAB : ascii := "009"%char.
Definition NL : ascii := "010"%char.
Definition tab : string := String TAB "".
Definition nl : string := String NL "".

(** Lines 365-372: the line written for one line read. *)
Definition backpropagate_line (cont_names : gset string) (line : string) : result string :=
  let sline := PyStr.split TAB line in
  name_ <~ item sline 0;;
  tax <~ item sline 1;;
  field2 <~ item sline 2;;
  let status := PyStr.strip field2 in
  let status := if bool_decide (name_ ∈ cont_names) then "d" else status in
  Ok (name_ +:+ tab +:+ tax +:+ tab +:+ status +:+ nl).

(** The loop of lines 364-372 over the lines read from the table; [file]
    is what has been written so far, and stays as it is when a line
    raises. *)
Fixpoint write_rows (cont_names : gset string) (original_table : list string)
    (file : list string) : list string * result unit :=
  match original_table with
  | [] => (file, Ok ())
  | line :: rest =>
      match backpropagate_line cont_names line with
      | Ok out => write_rows cont_names rest (file ++ [out])
      | Raise e => (file, Raise e)
      end
  end.

(** The table file after the call (it is opened for writing, so it starts
    empty), and how the call ends. *)
Definition backpropagate_contamination (original_table : list string)
    (cont_names : gset string) : list string * result unit :=
  write_rows cont_names original_table [].


(** * Statements about the contamination pass *)

(** The node [node] is a leaf named [nm], a Ranked Candidate whose
    organism code is a key of [cont_dict], and the neighbourhood test
    started from its parent answers [verdict]. *)
Definition candidate_with_verdict (metadata : gmap string TaxonRecord)
    (cont_dict : gmap string (string * string)) (verdict : bool)
    (node : noderef) (nm : string) : Prop :=
  ∃ n ckr,
    head node = Some n ∧ is_leaf n = true ∧ name n = nm ∧
    PyStr.count "_" nm = 4 ∧
    cont_dict !! PyStr.item0 (PyStr.split "_" nm) = Some ckr ∧
    expected_neighborhood metadata (up node) ckr = Ok verdict.

(** A leaf name is in the contamination set the pass returns exactly when
    a leaf of that name is a candidate of a listed organism whose test
    answers [verdict]. *)
Definition contaminant_iff_verdict (metadata : gmap string TaxonRecord)
    (t : TreeNode) (cont_dict : gmap string (string * string))
    (verdict : bool) : Prop :=
  ∀ contaminations cont_table_name,
    collect_contaminations metadata t cont_dict
      = Ok (contaminations, cont_table_name) →
    ∀ nm, nm ∈ contaminations ↔
      ∃ node, node ∈ traverse t ∧
              candidate_with_verdict metadata cont_dict verdict node nm.


(** The keyword line 109-114 derives from an organism code at a rank. *)
Definition keyword (metadata : gmap string TaxonRecord) (rank org : string)
    : option string :=
  if String.eqb rank "group" then group <$> metadata !! org
  else if String.eqb rank "subtax" then subtax <$> metadata !! org
  else if String.eqb rank "org" then Some org
  else None.

(** * Statements about the suspicious clades *)

(** The clade of a node: the names of the leaves below it. *)
Definition clade_of (node : noderef) : list string :=
  match node with
  | [] => []
  | n :: _ => get_leaf_names n
  end.

(** The groups of the members of a clade: each member is stripped to its
    organism code and looked up in the Taxon Directory; [None] when a
    member is not in the directory. *)
Fixpoint clade_groups (metadata : gmap string TaxonRecord) (clade : list string)
    : option (gset string) :=
  match clade with
  | [] => Some ∅
  | leaf :: rest =>
      match metadata !! org_code leaf, clade_groups metadata rest with
      | Some rec, Some gs => Some ({[group rec]} ∪ gs)
      | _, _ => None
      end
  end.

(** The four conditions, for a node of the tree [t]: it is an inner node
    other than the root, and its support is at least 70, its clade is
    smaller than the rest of the tree and has more than one member ... *)
Definition is_supported (t : TreeNode) (node : noderef) : bool :=
  match node with
  | [] => false
  | n :: _ =>
      negb (is_root node) && negb (is_leaf n) &&
      Qle_bool 70 (support n) &&
      (len_node n <? len_node t - len_node n)%Z &&
      (1 <? length (get_leaf_names n))
  end.

(** ... and its members belong to more than one group. *)
Definition is_mixed (metadata : gmap string TaxonRecord) (clade : list string) : bool :=
  match clade_groups metadata clade with
  | Some gs => 1 <? size gs
  | None => false
  end.

Definition is_suspicious (metadata : gmap string TaxonRecord) (t : TreeNode)
    (node : noderef) : bool :=
  is_supported t node && is_mixed metadata (clade_of node).

(** * Statements about the candidate selector *)

(** The Ranked-Candidate leaf names met by a traversal, in its order. *)
Definition node_candidates (nodes : list noderef) : list string :=
  flat_map (λ node, match node with
                    | n :: _ =>
                        if is_leaf n && (PyStr.count "_" (name n) =? 4)
                        then [name n] else []
                    | [] => []
                    end) nodes.

Definition candidates (t : TreeNode) : list string :=
  node_candidates (traverse t).

(** The organism code and the rank a Ranked-Candidate name embeds: field
    0, and the integer in field 3 without its first and last character. *)
Definition candidate_org (nm : string) : string :=
  PyStr.item0 (PyStr.split "_" nm).

Definition candidate_rank (nm : string) : option Z :=
  match PyStr.split "_" nm with
  | [_; _; _; rank; _] => PyStr.int (PyStr.slice_1_m1 rank)
  | _ => None
  end.

(** [nm], of organism [org] and rank [r], is the best of the candidates
    [cands]: every candidate of the organism met before it has a larger
    rank, and none met after it has a smaller one. *)
Definition best_in (cands : list string) (org : string) (r : Z) (nm : string) : Prop :=
  ∃ before after,
    cands = before ++ nm :: after ∧
    candidate_org nm = org ∧ candidate_rank nm = Some r ∧
    (∀ m, m ∈ before → candidate_org m = org →
          ∃ r', candidate_rank m = Some r' ∧ (r < r')%Z) ∧
    (∀ m, m ∈ after → candidate_org m = org →
          ∃ r', candidate_rank m = Some r' ∧ (r ≤ r')%Z).

(** Lines 76-82: what a candidate of rank [r] does to [top_rank]. *)
Definition update_best (top_rank : gmap string (Z * string)) (nm : string) (r : Z)
    : gmap string (Z * string) :=
  match top_rank !! candidate_org nm with
  | None => <[candidate_org nm := (r, nm)]> top_rank
  | Some (best, _) =>
      if (r <? best)%Z then <[candidate_org nm := (r, nm)]> top_rank
      else top_rank
  end.

(** The invariant of the loop of lines 71-82, after the candidates
    [cands]: an organism without entry has no candidate, and an entry
    holds the best candidate of its organism. *)
Definition best_inv (cands : list string) (top_rank : gmap string (Z * string)) : Prop :=
  (∀ org, top_rank !! org = None → ∀ m, m ∈ cands → candidate_org m ≠ org) ∧
  (∀ org r nm, top_rank !! org = Some (r, nm) → best_in cands org r nm).

(** * Statements about the redundancy reduction *)

(** The reduction of the clades of one tree in the words of the
    specification, on the clades sorted by size: a clade is dropped when
    it is a subset of a clade further on.  With [strict], only a clade of
    greater size further on makes it redundant. *)
Fixpoint drop_nested {C} `{Clade C} (strict : bool) (sorted_clades : list C)
    : list (gset string) :=
  match sorted_clades with
  | [] => []
  | c :: rest =>
      if existsb (λ o, bool_decide (py_set c ⊆ py_set o) &&
                       (negb strict || (py_len c <? py_len o))) rest
      then drop_nested strict rest
      else py_set c :: drop_nested strict rest
  end.

(** Each tree is reduced on its own, and the results are put end to end. *)
Definition nonredundant_spec {C} `{Clade C} (strict : bool)
    (result_clades : list (list C)) : list (gset string) :=
  flat_map (λ clades, drop_nested strict (sorted py_len clades)) result_clades.

(** Two ways to run the reduction on its own output: on the whole output
    as the clade list of one tree, or tree by tree. *)
Definition reduce_again_whole (result_clades : list (list (list string)))
    : list (gset string) :=
  nonredundant [nonredundant result_clades].

Definition reduce_again_per_tree (result_clades : list (list (list string)))
    : list (gset string) :=
  nonredundant ((λ clades, nonredundant [clades]) <$> result_clades).

(** * Statements about the problematic organisms *)

(** The label lines 319-322 append for a member of group [g], in a clade
    whose members have the groups [taxons] and whose dominant group is
    [dominant]. *)
Definition member_label (taxons : list string) (dominant g : string) : string :=
  if Qeq_bool (share taxons g) 50 then "unspecified" else dominant.

(** The labels a clade appends to the entry of the organism [org], one
    for each member of that organism. *)
Definition appended (metadata : gmap string TaxonRecord) (taxons : list string)
    (dominant org : string) (members : list string) : list string :=
  flat_map (λ seq,
              if bool_decide (org_code seq = org) then
                match metadata !! org_code seq with
                | Some rec => [member_label taxons dominant (group rec)]
                | None => []
                end
              else []) members.

(** * Statements about backpropagation *)

(** A row of a classification table: display name, group and status. *)
Record Row := {
  row_name : string;
  row_group : string;
  row_status : string
}.

(** The line [tree_to_pdf] writes for a row (lines 228, 235, 240, 253 and
    264): [f'{name}\t{group}\t{status}\n']. *)
Definition write_row (r : Row) : string :=
  row_name r +:+ tab +:+ row_group r +:+ tab +:+ row_status r +:+ nl.

Definition CR : ascii := "013"%char.

(** The rows [tree_to_pdf] writes: the name and the group hold no tab and
    no line break, so that the row is read back as one line of three
    fields, and the status is one of [o], [p] and [d]. *)
Definition written_row (r : Row) : Prop :=
  (PyStr.count TAB (row_name r) = 0 ∧ PyStr.count NL (row_name r) = 0 ∧
   PyStr.count CR (row_name r) = 0) ∧
  (PyStr.count TAB (row_group r) = 0 ∧ PyStr.count NL (row_group r) = 0 ∧
   PyStr.count CR (row_group r) = 0) ∧
  row_status r ∈ ["o"; "p"; "d"].

(** The row after backpropagation: status [d] when the name is one of the
    contaminant names, the row as it was otherwise. *)
Definition revise (cont_names : gset string) (r : Row) : Row :=
  if bool_decide (row_name r ∈ cont_names)
  then {| row_name := row_name r; row_group := row_group r; row_status := "d" |}
  else r.

(** * Sample inputs *)

Module Sample.

Definition leaf (nm : string) : TreeNode := Node nm 1 [].

Definition taxon (g : string) (f : string) : TaxonRecord :=
  {| group := g; col := "white"; full := f; subtax := g +:+ "-sub" |}.

(** Organisms [A] and [X] in group Alpha, [B] and [C] in group Beta. *)
Definition metadata : gmap string TaxonRecord :=
  list_to_map [("A", taxon "Alpha" "A a"); ("B", taxon "Beta" "B b");
               ("C", taxon "Beta" "C c"); ("X", taxon "Alpha" "X x")].

(** [X] is listed with keyword Alpha at rank [group]. *)
Definition cont_alpha : gmap string (string * string) :=
  {[ "X" := ("Alpha", "group") ]}.

(** [X] is listed with keyword Beta at rank [group]. *)
Definition cont_beta : gmap string (string * string) :=
  {[ "X" := ("Beta", "group") ]}.

(** The candidate [X_hit_0_0_0] sits in a clade whose other leaves are
    all of group Beta: [((X_hit_0_0_0,B_1,C_1)100,A_1,A_2,B_2,C_3);]. *)
Definition beta_clade : TreeNode :=
  Node "" 100 [leaf "X_hit_0_0_0"; leaf "B_1"; leaf "C_1"].

Definition tree_beta : TreeNode :=
  Node "" 1 [beta_clade; leaf "A_1"; leaf "A_2"; leaf "B_2"; leaf "C_3"].

(** A tree all of whose leaves are Ranked Candidates:
    [(X_q1_h1_r1x_b,A_q1_h1_r2x_b);]. *)
Definition tree_bare : TreeNode :=
  Node "" 1 [leaf "X_q1_h1_r1x_b"; leaf "A_q1_h1_r2x_b"].

(** Three candidates of [A], of ranks 2, 1 and 1, a Simple leaf of [B]
    and one candidate of [X]. *)
Definition tree_ranked : TreeNode :=
  Node "" 1 [Node "" 90 [leaf "A_q1_h1_r2x_b"; leaf "A_q1_h2_r1x_b"];
             leaf "A_q2_h1_r1x_c"; leaf "B_1"; leaf "X_q1_h1_r5x_b"].

End Sample.

(** * Further statements *)

(** The number of members of a clade whose organism code is [org]. *)
Definition memberships (org : string) (clade : gset string) : nat :=
  length (List.filter (λ seq, bool_decide (org_code seq = org)) (elements clade)).

(** A clade [s] that no clade of [clades] properly includes. *)
Definition maximal_in (clades : list (list string)) (s : gset string) : Prop :=
  s ∈ (list_to_set <$> clades : list (gset string)) ∧
  ∀ c, c ∈ clades → s ⊆ list_to_set c → s = list_to_set c.

(** * The loaders *)

(** *** [parse_contaminations] (lines 89-95) *)

(** Lines 93-94: the body of the loop over the lines of the file; the
    unpacking of line 93 raises [ValueError] unless the line has exactly
    three tab-separated fields. *)
Definition contamination_line (cont_dict : gmap string (string * string))
    (line : string) : result (gmap string (string * string)) :=
  match PyStr.split TAB line with
  | [org; tax; rank] => Ok (<[org := (tax, PyStr.strip rank)]> cont_dict)
  | _ => Raise ValueError
  end.

(** The argument is the list of the lines of the file, each with its line
    terminator, as iterating over the open file yields them. *)
Definition parse_contaminations (file : list string)
    : result (gmap string (string * string)) :=
  foldM contamination_line ∅ file.

(** The line of the contamination file for an organism, a keyword and a
    rank. *)
Definition contamination_row (e : string * (string * string)) : string :=
  e.1 +:+ tab +:+ e.2.1 +:+ tab +:+ e.2.2 +:+ nl.

(** *** [parse_metadata] (lines 14-39) *)

(** [c.lower()] on a character below 256, and [s.lower()]: the capital
    letters are the code points 65 to 90 and 192 to 222 without 215. *)
Definition lower_ascii (a : ascii) : ascii :=
  let n := nat_of_ascii a in
  if ((65 <=? n) && (n <=? 90)) ||
     ((192 <=? n) && (n <=? 222) && negb (n =? 215))
  then ascii_of_nat (n + 32) else a.

Fixpoint lower (s : string) : string :=
  match s with
  | EmptyString => EmptyString
  | String a s' => String (lower_ascii a) (lower s')
  end.

(** Lines 26-27: the placeholder colours become white. *)
Definition normal_colour (col : string) : string :=
  if bool_decide (lower col ∈ ["x"; "xx"]) then "white" else col.

(** Lines 18-29: the body of the loop over the lines of the metadata
    file; the state is the pair [(metadata_comb, tax_col)].  The colour
    of the record is [tax_col[group]] read after lines 25-28: the colour
    the group had, or the one just stored for it. *)
Definition metadata_line
    (st : gmap string TaxonRecord * gmap string string) (line_ : string)
    : result (gmap string TaxonRecord * gmap string string) :=
  if negb (PyStr.contains "Full Name" line_) then
    let sline := PyStr.split TAB line_ in
    f0 <~ item sline 0;;
    let tax := PyStr.strip f0 in
    f2 <~ item sline 2;;
    let group_ := PyStr.strip f2 in
    f4 <~ item sline 4;;
    let col_ := PyStr.strip f4 in
    sub_tax <~ item sline 3;;
    f1 <~ item sline 1;;
    let full_ := PyStr.strip f1 in
    let '(tax_col, colour) :=
      match st.2 !! group_ with
      | Some c => (st.2, c)
      | None => (<[group_ := normal_colour col_]> st.2, normal_colour col_)
      end in
    Ok (<[tax := {| group := group_; col := colour; full := full_;
                    subtax := sub_tax |}]> st.1, tax_col)
  else Ok st.

(** Lines 32-38: the body of the loop over the lines of the optional
    input metadata file. *)
Definition input_metadata_line (metadata_comb : gmap string TaxonRecord)
    (line : string) : result (gmap string TaxonRecord) :=
  if negb (PyStr.contains "FILE_NAME" line) then
    let metadata_input := PyStr.split TAB line in
    f2 <~ item metadata_input 2;;
    let tax := PyStr.item0 (PyStr.split "_" (PyStr.strip f2)) in
    f3 <~ item metadata_input 3;;
    let group_ := PyStr.strip f3 in
    f6 <~ item metadata_input 6;;
    let full_ := PyStr.strip f6 in
    sub_tax <~ item metadata_input 4;;
    Ok (<[tax := {| group := group_; col := "white"; full := full_;
                    subtax := sub_tax |}]> metadata_comb)
  else Ok metadata_comb.

(** The arguments are the lines of the metadata file and, when an input
    metadata file is given, its lines. *)
Definition parse_metadata (metadata_file : list string)
    (input_metadata : option (list string))
    : result (gmap string TaxonRecord * gmap string string) :=
  st <~ foldM metadata_line (∅, ∅) metadata_file;;
  match input_metadata with
  | Some file =>
      metadata_comb <~ foldM input_metadata_line st.1 file;;
      Ok (metadata_comb, st.2)
  | None => Ok st
  end.

(** A row of the contamination file as the loader expects it: organism
    and keyword without tab, and one of the three ranks. *)
Definition contamination_entry_ok (e : string * (string * string)) : Prop :=
  PyStr.count TAB e.1 = 0 ∧ PyStr.count TAB e.2.1 = 0 ∧
  e.2.2 ∈ ["group"; "subtax"; "org"].

(** The invariant [parse_metadata] keeps on [(metadata_comb, tax_col)]
    while it reads the metadata file: no stored colour is a placeholder,
    and every record has the colour of its group. *)
Definition colours_consistent
    (st : gmap string TaxonRecord * gmap string string) : Prop :=
  (∀ g c, st.2 !! g = Some c → lower c ∉ ["x"; "xx"]) ∧
  (∀ tax rec, st.1 !! tax = Some rec → st.2 !! group rec = Some (col rec)).

(** * The calls with their rooting (lines 43-45 and 134-136)

    [Tree(tree)], [get_midpoint_outgroup] and [set_outgroup] belong to
    [ete3].  They may raise, on a tree of one leaf for one, and what they
    do depends on the branch lengths, which the trees here do not carry.
    The outcome of these three lines is therefore given to the call: the
    exception they raise, or the rooted tree the loop then runs over. *)
Definition suspicious_clades_call (metadata : gmap string TaxonRecord)
    (rooted : result TreeNode) : result (list (list string)) :=
  t <~ rooted;;
  suspicious_clades metadata t.


(** * The classification table of [tree_to_pdf] (lines 156-274) *)

(** A row of the table: [f'{name}\t{group}\t{status}\n']. *)
Definition table_row (display group_ status : string) : string :=
  display +:+ tab +:+ group_ +:+ tab +:+ status +:+ nl.

Section TreeToPdf.

Variable metadata : gmap string TaxonRecord.

(** Lines 188-198: the groups of the leaves below a supported inner node;
    they are looked up only when the node has more than one leaf. *)
Definition node_taxons (n : TreeNode) : result (gset string) :=
  let orgs := get_leaf_names n in
  if 1 <? length orgs then foldM (groups_step metadata) (∅ : gset string) orgs
  else Ok ∅.

(** [table.write(row)], done only [if not backpropagion]. *)
Definition table_write (backpropagion : bool) (st : list string * nat)
    (row : string) : list string * nat :=
  if backpropagion then st else (st.1 ++ [row], st.2).

(** Lines 176-267: the body of the loop over the nodes, as far as the
    table and the exceptions go (the faces and styles of the picture are
    left out); the state is the pair of the rows written so far and of
    the counter [sus_clades]. *)
Definition pdf_step (t : TreeNode) (contaminations top_ranked : gset string)
    (backpropagion : bool) (st : list string * nat) (node : noderef)
    : result (list string * nat) :=
  match node with
  | [] => Raise AttributeError
  | n :: _ =>
      if negb (is_root node) then
        if negb (is_leaf n) then
          if Qle_bool 70 (support n) then
            taxons <~ node_taxons n;;
            if (1 <? size taxons) && (len_node n <? len_node t - len_node n)%Z
            then Ok (st.1, S st.2)
            else Ok st
          else Ok st
        else
          let original_name := name n in
          if PyStr.count "_" original_name =? 4 then
            q3 <~ item_neg (PyStr.split "_" original_name) 3;;
            q2 <~ item_neg (PyStr.split "_" original_name) 2;;
            q1 <~ item_neg (PyStr.split "_" original_name) 1;;
            let quality := q3 +:+ "_" +:+ q2 +:+ "_" +:+ q1 in
            let org := PyStr.item0 (PyStr.split "_" original_name) in
            rec <~ getitem Dmetadata metadata org;;
            let display := full rec +:+ "_" +:+ quality +:+ "@" +:+ org in
            if bool_decide (original_name ∈ contaminations) then
              Ok (table_write backpropagion st (table_row display (group rec) "d"))
            else if bool_decide (original_name ∈ top_ranked) then
              Ok (table_write backpropagion st (table_row display (group rec) "o"))
            else
              Ok (table_write backpropagion st (table_row display (group rec) "p"))
          else if PyStr.contains ".." original_name then
            match PyStr.split "_" original_name with
            | [para; length_] =>
                let org := PyStr.split_head ".." para in
                rec <~ getitem Dmetadata metadata org;;
                let display := full rec +:+ "_" +:+ length_ +:+ "@" +:+ para in
                Ok (table_write backpropagion st (table_row display (group rec) "p"))
            | _ => Raise ValueError
            end
          else
            match PyStr.split "_" original_name with
            | [org; length_] =>
                rec <~ getitem Dmetadata metadata org;;
                let display := full rec +:+ "_" +:+ length_ +:+ "@" +:+ org in
                Ok (table_write backpropagion st (table_row display (group rec) "o"))
            | _ => Raise ValueError
            end
      else Ok st
  end.

(** Lines 169-270: the best candidates are taken from the tree as it is
    loaded ([t0]), the loop runs over the tree after rooting ([t]), and
    the title needs the base name of the file to be two fields around one
    underscore.  The result is the pair of the rows written to the table,
    which is a new file unless [backpropagion], and of the counter
    [sus_clades] shown in the title; the picture itself is left out. *)
Definition tree_to_pdf (tree_base : string) (t0 t : TreeNode)
    (contaminations : gset string) (backpropagion : bool)
    : result (list string * nat) :=
  top_ranked <~ get_best_candidates t0;;
  st <~ foldM (pdf_step t contaminations top_ranked backpropagion) ([], 0)
              (traverse t);;
  match PyStr.split "_" tree_base with
  | [name_; trim_len] => Ok st
  | _ => Raise ValueError
  end.

(** Status [d] for a contaminant, [o] for a best candidate and for a
    Simple leaf, [p] for the other candidates and for the paralogs. *)
Definition leaf_status (contaminations top_ranked : gset string) (nm : string)
    : string :=
  if PyStr.count "_" nm =? 4 then
    if bool_decide (nm ∈ contaminations) then "d"
    else if bool_decide (nm ∈ top_ranked) then "o" else "p"
  else if PyStr.contains ".." nm then "p" else "o".

(** The row of a leaf in the table: what lines 214-265 make of the leaf
    name, when they do not raise. *)
Definition leaf_row (contaminations top_ranked : gset string) (nm : string)
    : option Row :=
  if PyStr.count "_" nm =? 4 then
    match PyStr.split "_" nm with
    | [org; _; q3; q2; q1] =>
        rec ← metadata !! org;
        Some {| row_name := full rec +:+ "_" +:+ (q3 +:+ "_" +:+ q2 +:+ "_" +:+ q1)
                              +:+ "@" +:+ org;
                row_group := group rec;
                row_status := leaf_status contaminations top_ranked nm |}
    | _ => None
    end
  else
    match PyStr.split "_" nm with
    | [org; length_] =>
        rec ← metadata !! (if PyStr.contains ".." nm
                           then PyStr.split_head ".." org else org);
        Some {| row_name := full rec +:+ "_" +:+ length_ +:+ "@" +:+ org;
                row_group := group rec;
                row_status := leaf_status contaminations top_ranked nm |}
    | _ => None
    end.

(** The display name of a leaf in the table. *)
Definition display_name (nm : string) : option string :=
  row_name <$> leaf_row ∅ ∅ nm.

End TreeToPdf.

(** The names of the leaves other than the root among the nodes met. *)
Definition inner_leaves (nodes : list noderef) : list string :=
  flat_map (λ node, match node with
                    | n :: _ :: _ => if is_leaf n then [name n] else []
                    | _ => []
                    end) nodes.

(** A string without tab and line break. *)
Definition plain (s : string) : Prop :=
  PyStr.count TAB s = 0 ∧ PyStr.count NL s = 0 ∧ PyStr.count CR s = 0.

(** The names in [cont_table_name] are the display names of the leaves
    in [contaminations]: what the contamination pass keeps true of its
    two sets. *)
Definition names_of (metadata : gmap string TaxonRecord)
    (st : gset string * gset string) : Prop :=
  ∀ d, d ∈ st.2 ↔ ∃ nm, nm ∈ st.1 ∧ display_name metadata nm = Some d.

(** * The bar charts of [plot_problematic] (lines 326-351) *)

(** [Counter(groups)]: one more occurrence of [g]; a label met for the
    first time goes to the end, as in a Python dictionary. *)
Fixpoint count_up (counted : list (string * nat)) (g : string)
    : list (string * nat) :=
  match counted with
  | [] => [(g, 1)]
  | (k, v) :: rest =>
      if String.eqb k g then (k, S v) :: rest else (k, v) :: count_up rest g
  end.

Definition Counter (groups : list string) : list (string * nat) :=
  fold_left count_up groups [].

(** Lines 330-332: the sum of the counts. *)
Definition group_total_of (counted_groups : list (string * nat)) : nat :=
  fold_left (λ group_total kv, group_total + kv.2) counted_groups 0.

(** Lines 328-334: one step of the loop that finds [max_]. *)
Definition max_step (max_ : nat) (item_ : string * list string) : nat :=
  let group_total := group_total_of (Counter item_.2) in
  if max_ <? group_total then group_total else max_.

(** Lines 339-343: the colour of a bar. *)
Definition bar_colour (tax_col : gmap string string) (group_ : string) : string :=
  if String.eqb group_ "unspecified" then "black"
  else default "white" (tax_col !! group_).

(** A page of [problematic_orgs.pdf]: the bars with their heights, their
    colours, the upper limit of the axis and the title. *)
Record Page := {
  page_bars : list (string * nat);
  page_colors : list string;
  page_ylim : nat;
  page_title : string
}.

(** Lines 336-351: the page of one organism.  [plt.bar] refuses with a
    [ValueError] a colour that [matplotlib] does not know; which texts
    are colours is [matplotlib]'s affair, given here as [is_color].  The
    bars are drawn before the title is looked up.  The other calls draw
    the page; what they may raise is not followed. *)
Definition page_step (is_color : string → bool)
    (metadata : gmap string TaxonRecord)
    (tax_col : gmap string string) (max_ : nat) (pdf : list Page)
    (item_ : string * list string) : result (list Page) :=
  let counted_groups := Counter item_.2 in
  let colors := bar_colour tax_col <$> counted_groups.*1 in
  if forallb is_color colors then
    rec <~ getitem Dmetadata metadata item_.1;;
    Ok (pdf ++ [{| page_bars := counted_groups; page_colors := colors;
                   page_ylim := max_;
                   page_title := item_.1 +:+ "(" +:+ group rec +:+ ")" |}])
  else Raise ValueError.

(** The pages drawn when the call returns; [items] is
    [sorted(problematic_orgs.items())]. *)
Definition plot_problematic (is_color : string → bool)
    (metadata : gmap string TaxonRecord)
    (tax_col : gmap string string) (items : list (string * list string))
    : result (list Page) :=
  let max_ := fold_left max_step items 0 in
  foldM (page_step is_color metadata tax_col max_) [] items.

(** Every organism of the table of [problematic] is an organism of the
    Taxon Directory. *)
Definition keys_known (metadata : gmap string TaxonRecord)
    (table : gmap string (list string)) : Prop :=
  ∀ org, is_Some (table !! org) → is_Some (metadata !! org).

(** ** Sample files *)

Module Files.

(** A line of a tab-separated file. *)
Fixpoint tsv (fields : list string) : string :=
  match fields with
  | [] => nl
  | [f] => f +:+ nl
  | f :: fs => f +:+ tab +:+ tsv fs
  end.

(** A metadata file: a header, then [A] in Alpha with the placeholder
    colour, [B] in Beta in blue and [X] in Alpha in red. *)
Definition metadata_file : list string :=
  [tsv ["Unique ID"; "Full Name"; "Higher Taxonomy"; "Lower Taxonomy"; "Color"];
   tsv ["A"; "A a"; "Alpha"; "sa"; "X"];
   tsv ["B"; "B b"; "Beta"; "sb"; "blue"];
   tsv ["X"; "X x"; "Alpha"; "sx"; "red"]].

Definition taxon (g c f s : string) : TaxonRecord :=
  {| group := g; col := c; full := f; subtax := s |}.

(** What the loader makes of it. *)
Definition metadata_comb : gmap string TaxonRecord :=
  list_to_map [("A", taxon "Alpha" "white" "A a" "sa");
               ("B", taxon "Beta" "blue" "B b" "sb");
               ("X", taxon "Alpha" "white" "X x" "sx")].

Definition tax_col : gmap string string :=
  list_to_map [("Alpha", "white"); ("Beta", "blue")].

(** A tree with one mixed clade, whose candidate [X_q1_h1_r1x_b] sits
    among leaves of group Beta:
    [((X_q1_h1_r1x_b,B_1,C_1)100,A_1,A_2,B_2,C_3);]. *)
Definition tree_mixed : TreeNode :=
  Node "" 1 [Node "" 100 [Sample.leaf "X_q1_h1_r1x_b"; Sample.leaf "B_1";
                          Sample.leaf "C_1"];
             Sample.leaf "A_1"; Sample.leaf "A_2"; Sample.leaf "B_2";
             Sample.leaf "C_3"].

(** Its rows, with the status of the candidate left open. *)
Definition rows_mixed (status : string) : list Row :=
  [ {| row_name := "X x_h1_r1x_b@X"; row_group := "Alpha"; row_status := status |};
    {| row_name := "B b_1@B"; row_group := "Beta"; row_status := "o" |};
    {| row_name := "C c_1@C"; row_group := "Beta"; row_status := "o" |};
    {| row_name := "A a_1@A"; row_group := "Alpha"; row_status := "o" |};
    {| row_name := "A a_2@A"; row_group := "Alpha"; row_status := "o" |};
    {| row_name := "B b_2@B"; row_group := "Beta"; row_status := "o" |};
    {| row_name := "C c_3@C"; row_group := "Beta"; row_status := "o" |} ].

(** The entries of a table of [problematic], sorted. *)
Definition items_two_clades : list (string * list string) :=
  [("A", ["unspecified"; "Beta"]); ("B", ["unspecified"; "Beta"]); ("C", ["Beta"])].

(** The colour names of the sample files, all known to [matplotlib]. *)
Definition is_color (c : string) : bool :=
  bool_decide (c ∈ ["black"; "white"; "blue"; "red"]).

End Files.
(** * Facts about the string primitives *)

Module PyStrFacts.
Import PyStr.

Lemma startswith_spec p s :
  startswith p s = true ↔ ∃ post, s = p +:+ post.
Proof.
  revert s. induction p as [|a p IH]; intros s; simpl.
  - split; [intros _; by exists s | done].
  - destruct s as [|b s]; simpl.
    + split; [done | intros [post Hp]; discriminate].
    + rewrite andb_true_iff, Ascii.eqb_eq, IH. split.
      * intros [-> [post ->]]. by exists post.
      * intros [post Hp]. injection Hp as -> ->. eauto.
Qed.

(** [sub in s] holds exactly when [s] is [pre + sub + post]. *)
Lemma contains_spec sub s :
  contains sub s = true ↔ ∃ pre post, s = pre +:+ sub +:+ post.
Proof.
  induction s as [|b s IH].
  - simpl. rewrite orb_false_r, startswith_spec. split.
    + intros [post Hp]. by exists "", post.
    + intros [pre [post Hp]]. destruct pre; [by exists post | discriminate].
  - cbn [contains]. rewrite orb_true_iff, startswith_spec, IH. split.
    + intros [[post Hp] | [pre [post Hp]]].
      * by exists "", post.
      * exists (String b pre), post. simpl. by rewrite Hp.
    + intros [pre [post Hp]]. destruct pre as [|c pre]; simpl in Hp.
      * left. by exists post.
      * right. injection Hp as -> ->. eauto.
Qed.

Lemma split_nonempty c s : split c s ≠ [].
Proof.
  destruct s as [|a s]; simpl; [done |].
  destruct (Ascii.eqb a c); [done |]. by destruct (split c s).
Qed.

(** [len(s.split(c)) == s.count(c) + 1]. *)
Lemma length_split c s : length (split c s) = S (count c s).
Proof.
  induction s as [|a s IH]; simpl; [done |].
  destruct (Ascii.eqb a c); simpl; [by rewrite IH |].
  pose proof (split_nonempty c s).
  destruct (split c s); [done |]. simpl in *. lia.
Qed.

End PyStrFacts.

(** * The error monad *)

Lemma bind_Ok {A B} (m : result A) (k : A → result B) b :
  bind m k = Ok b ↔ ∃ a, m = Ok a ∧ k a = Ok b.
Proof.
  destruct m as [a|e]; simpl; split; try done.
  - eauto.
  - by intros [a' [[= ->] Hk]].
  - by intros [a' [? _]].
Qed.

Lemma bind_Raise {A B} (m : result A) (k : A → result B) e :
  bind m k = Raise e ↔ m = Raise e ∨ ∃ a, m = Ok a ∧ k a = Raise e.
Proof.
  destruct m as [a|e']; simpl; split; try naive_solver.
Qed.

Lemma getitem_Ok {V} d (m : gmap string V) k v :
  getitem d m k = Ok v ↔ m !! k = Some v.
Proof. unfold getitem. destruct (m !! k); naive_solver. Qed.

Lemma getitem_Raise {V} d (m : gmap string V) k e :
  getitem d m k = Raise e ↔ m !! k = None ∧ e = KeyError d k.
Proof. unfold getitem. destruct (m !! k); naive_solver. Qed.

Lemma item_neg_Raise xs k e : item_neg xs k = Raise e → e = IndexError.
Proof.
  unfold item_neg, item. destruct (_ && _); [| congruence].
  destruct (xs !! _); congruence.
Qed.

Lemma foldM_cons {A S} (body : S → A → result S) s a l :
  foldM body s (a :: l) = (s' <~ body s a;; foldM body s' l).
Proof. done. Qed.

Lemma foldM_app {A S} (body : S → A → result S) s l1 l2 :
  foldM body s (l1 ++ l2) = (s' <~ foldM body s l1;; foldM body s' l2).
Proof.
  revert s. induction l1 as [|a l1 IH]; intros s; [done |].
  simpl. destruct (body s a); simpl; [apply IH | done].
Qed.

(** A loop invariant for [foldM]: it holds at the end of a loop that
    finishes when every step that finishes preserves it. *)
Lemma foldM_invariant {A S} (body : S → A → result S) (I : list A → S → Prop) l :
  (∀ done_ a s s', I done_ s → body s a = Ok s' → I (done_ ++ [a]) s') →
  ∀ done_ s s', I done_ s → foldM body s l = Ok s' → I (done_ ++ l) s'.
Proof.
  intros Hstep. induction l as [|a l IH]; intros done_ s s' HI Hf.
  - simpl in Hf. injection Hf as <-. by rewrite app_nil_r.
  - rewrite foldM_cons in Hf. apply bind_Ok in Hf as [s1 [H1 H2]].
    replace (done_ ++ a :: l) with ((done_ ++ [a]) ++ l) by by rewrite <- app_assoc.
    eapply IH; [| exact H2]. eauto.
Qed.

(** Destructs the binds of a hypothesis that says a computation returned. *)
Ltac inv_Ok H :=
  repeat match type of H with
         | bind _ _ = Ok _ =>
             let a := fresh "a" in
             let Ha := fresh "Ha" in
             apply bind_Ok in H as [a [Ha H]]
         end.

(** * The neighbourhood test *)

Section Neighborhood.
Variable metadata : gmap string TaxonRecord.

Lemma keywords_step_Ok rank kws leaf kws' :
  valid_rank rank = true →
  keywords_step metadata rank kws leaf = Ok kws' →
  ∀ k, k ∈ kws' ↔
       k ∈ kws ∨ (PyStr.count "_" leaf ≠ 4 ∧
                  keyword metadata rank (org_code leaf) = Some k).
Proof.
  intros Hrank Hstep k. unfold keywords_step, keyword in *.
  destruct (PyStr.count "_" leaf =? 4) eqn:Hc; simpl in Hstep.
  { apply Nat.eqb_eq in Hc. injection Hstep as <-. naive_solver. }
  apply Nat.eqb_neq in Hc.
  destruct (String.eqb rank "group").
  { inv_Ok Hstep. apply getitem_Ok in Ha. injection Hstep as <-.
    rewrite Ha. set_solver. }
  destruct (String.eqb rank "subtax").
  { inv_Ok Hstep. apply getitem_Ok in Ha. injection Hstep as <-.
    rewrite Ha. set_solver. }
  destruct (String.eqb rank "org").
  { injection Hstep as <-. set_solver. }
  injection Hstep as <-. naive_solver.
Qed.

(** The keyword set holds the keywords of the leaves below the node
    whose names are not Ranked-Candidate names. *)
Lemma keywords_of_spec rank p kws :
  valid_rank rank = true →
  keywords_of metadata rank p = Ok kws →
  ∀ k, k ∈ kws ↔
       ∃ leaf, leaf ∈ get_leaf_names p ∧ PyStr.count "_" leaf ≠ 4 ∧
               keyword metadata rank (org_code leaf) = Some k.
Proof.
  intros Hrank Hk. unfold keywords_of in Hk.
  pose (I := λ (seen : list string) (s : gset string),
          ∀ k, k ∈ s ↔ ∃ leaf, leaf ∈ seen ∧ PyStr.count "_" leaf ≠ 4 ∧
                                keyword metadata rank (org_code leaf) = Some k).
  apply (foldM_invariant _ I _) with (done_ := []) in Hk; [exact Hk | |].
  - intros seen a s s' HI Hs k.
    rewrite (keywords_step_Ok _ _ _ _ Hrank Hs k), (HI k).
    setoid_rewrite elem_of_app. setoid_rewrite list_elem_of_singleton.
    naive_solver.
  - intros k. split; [set_solver |]. intros [leaf [Hin _]]. by apply elem_of_nil in Hin.
Qed.

Lemma expected_neighborhood_unfold p parent_up key rank :
  valid_rank rank = true →
  expected_neighborhood metadata (p :: parent_up) (key, rank) =
    (keywords <~ keywords_of metadata rank p;;
     match elements keywords with
     | [] => expected_neighborhood metadata parent_up (key, rank)
     | [k] => Ok (PyStr.contains key k)
     | _ => Ok false
     end).
Proof. intros Hrank. simpl. by rewrite Hrank. Qed.


(** No exception of the test is a failed lookup in the Contamination
    Directory. *)
Lemma expected_neighborhood_no_cont_KeyError parent ckr k :
  expected_neighborhood metadata parent ckr ≠ Raise (KeyError Dcont_dict k).
Proof.
  induction parent as [|p parent_up IH]; simpl.
  - by destruct (valid_rank ckr.2).
  - destruct (valid_rank ckr.2); simpl; [| done].
    destruct (keywords_of metadata ckr.2 p) as [kws|e] eqn:Hk; simpl.
    + destruct (elements kws) as [|? [|? ?]]; done.
    + intros [= ->]. revert Hk. unfold keywords_of.
      generalize (∅ : gset string).
      induction (get_leaf_names p) as [|leaf l IHl]; intros s; [done |].
      rewrite foldM_cons. intros [Hs | [s1 [_ Hs]]]%bind_Raise; [| by eapply IHl].
      unfold keywords_step in Hs.
      destruct (PyStr.count "_" leaf =? 4); simpl in Hs; [done |].
      repeat (destruct (String.eqb ckr.2 _); [
        try done;
        apply bind_Raise in Hs as [[_ [=]]%getitem_Raise | [? [_ [=]]]] |]).
      done.
Qed.

End Neighborhood.


(** C8: at an ancestor whose keyword set (the keywords of the leaves below
    it that are not Ranked Candidates) has exactly one element, the test
    answers true exactly when the expected keyword is a substring of that
    element; when the set has more than one element the test answers
    false. *)
Theorem expected_neighborhood_consensus
    (metadata : gmap string TaxonRecord) (p : TreeNode) (parent_up : noderef)
    (key rank : string) (keywords : gset string) :
  valid_rank rank = true →
  keywords_of metadata rank p = Ok keywords →
  (∀ k, k ∈ keywords ↔
        ∃ leaf, leaf ∈ get_leaf_names p ∧ PyStr.count "_" leaf ≠ 4 ∧
                keyword metadata rank (org_code leaf) = Some k) ∧
  (size keywords = 1 →
   ∃ k b, keywords = {[k]} ∧
          expected_neighborhood metadata (p :: parent_up) (key, rank) = Ok b ∧
          (b = true ↔ ∃ pre post, k = pre +:+ key +:+ post)) ∧
  (1 < size keywords →
   expected_neighborhood metadata (p :: parent_up) (key, rank) = Ok false).
Proof.
  intros Hrank Hk. split; [by apply keywords_of_spec |].
  rewrite expected_neighborhood_unfold, Hk by done. simpl. split.
  - intros [k Hk1]%size_1_elem_of. apply leibniz_equiv in Hk1 as ->.
    exists k, (PyStr.contains key k). rewrite elements_singleton.
    split; [done |]. split; [done |]. apply PyStrFacts.contains_spec.
  - unfold size, set_size. simpl.
    destruct (elements keywords) as [|? [|? ?]]; simpl; [lia | lia | done].
Qed.

Lemma expected_neighborhood_consensus_witness :
  ∃ b, expected_neighborhood Sample.metadata
         (Sample.beta_clade :: [Sample.tree_beta]) ("Bet", "group") = Ok b ∧
       (b = true ↔ ∃ pre post, "Beta" = pre +:+ "Bet" +:+ post).
Proof.
  destruct (expected_neighborhood_consensus Sample.metadata Sample.beta_clade
              [Sample.tree_beta] "Bet" "group" {["Beta"]})
    as (_ & H1 & _); [reflexivity | reflexivity |].
  destruct (H1 eq_refl) as (k & b & Hk & Hb & Hsub).
  apply singleton_inj in Hk as <-. exists b. split; [exact Hb | exact Hsub].
Defined.

(** C2 (the code departs from it): on the tree [(X_q1_h1_r1x_b,A_q1_h1_r2x_b);]
    every ancestor of the leaf [X_q1_h1_r1x_b], the root included, gives an
    empty keyword set; the test started from the leaf's parent does not
    answer false but ends in [AttributeError], and so does the whole
    contamination pass. *)
Theorem expected_neighborhood_past_root :
  let node := [Sample.leaf "X_q1_h1_r1x_b"; Sample.tree_bare] in
  node ∈ traverse Sample.tree_bare ∧
  Forall (λ p, keywords_of Sample.metadata "group" p = Ok ∅) (up node) ∧
  expected_neighborhood Sample.metadata (up node) ("Alpha", "group")
    = Raise AttributeError ∧
  check_contamination Sample.metadata node Sample.cont_alpha
    = Raise AttributeError ∧
  collect_contaminations Sample.metadata Sample.tree_bare Sample.cont_alpha
    = Raise AttributeError.
Proof.
  cbv zeta. split; [| split; [| split; [| split]]].
  - apply list_elem_of_In. simpl. tauto.
  - unfold up, tl. repeat constructor.
  - vm_compute. reflexivity.
  - vm_compute. reflexivity.
  - vm_compute. reflexivity.
Qed.

(** * The contamination pass *)

Section Contamination.
Variable metadata : gmap string TaxonRecord.
Variable cont_dict : gmap string (string * string).

Lemma check_contamination_Ok node b :
  check_contamination metadata node cont_dict = Ok b ↔
  ∃ n ckr, head node = Some n ∧
           cont_dict !! PyStr.item0 (PyStr.split "_" (name n)) = Some ckr ∧
           expected_neighborhood metadata (up node) ckr = Ok b.
Proof.
  unfold check_contamination. destruct node as [|n ups]; simpl.
  { split; [done | by intros (? & ? & [=] & _)]. }
  rewrite bind_Ok. setoid_rewrite bind_Ok. setoid_rewrite getitem_Ok. split.
  - intros (ckr & Hc & b' & Hb & Hr). exists n, ckr.
    by destruct b'; injection Hr as <-.
  - intros (n' & ckr & [= <-] & Hc & Hb). exists ckr. split; [done |].
    exists b. split; [done |]. by destruct b.
Qed.

(** What one step of the loop does to the set [contaminations]. *)
Lemma contamination_step_Ok st node st' :
  contamination_step metadata cont_dict st node = Ok st' →
  ∀ nm, nm ∈ st'.1 ↔
        nm ∈ st.1 ∨ candidate_with_verdict metadata cont_dict true node nm.
Proof.
  intros Hstep nm. unfold candidate_with_verdict.
  unfold contamination_step in Hstep. destruct node as [|n ups]; [done |].
  destruct (is_leaf n) eqn:Hleaf.
  2:{ injection Hstep as <-. split; [by left |].
      intros [?| (n' & ckr & [= <-] & Hl & _)]; [done | congruence]. }
  destruct (PyStr.count "_" (name n) =? 4) eqn:Hc;
    [apply Nat.eqb_eq in Hc | apply Nat.eqb_neq in Hc].
  2:{ injection Hstep as <-. split; [by left |].
      intros [?| (n' & ckr & [= <-] & _ & <- & Hc' & _)]; [done | congruence]. }
  inv_Ok Hstep. case_bool_decide as Hin.
  - inv_Ok Hstep. apply check_contamination_Ok in Ha3 as (n' & ckr & [= <-] & Hck & Hb).
    destruct a3; injection Hstep as <-; simpl.
    + rewrite elem_of_union, elem_of_singleton. split.
      * intros [?| ->]; [by left |]. right. by exists n, ckr.
      * intros [?| (n' & ckr' & [= <-] & _ & <- & _)]; [by left | by right].
    + split; [by left |]. intros [?| (n' & ckr' & [= <-] & _ & <- & _ & Hck' & Hb')]; [done |].
      simpl in Hb, Hb'. congruence.
  - injection Hstep as <-. split; [by left |].
    intros [?| (n' & ckr' & [= <-] & _ & <- & _ & Hck' & _)]; [done |].
    destruct Hin. by exists ckr'.
Qed.

Lemma contamination_loop_Ok l st st' :
  foldM (contamination_step metadata cont_dict) st l = Ok st' →
  ∀ nm, nm ∈ st'.1 ↔
        nm ∈ st.1 ∨ ∃ node, node ∈ l ∧
                            candidate_with_verdict metadata cont_dict true node nm.
Proof.
  revert st. induction l as [|node l IH]; intros st Hf nm.
  - injection Hf as <-. split; [by left |].
    intros [?| (? & ?%elem_of_nil & _)]; done.
  - rewrite foldM_cons in Hf. apply bind_Ok in Hf as (st1 & H1 & H2).
    rewrite (IH _ H2 nm), (contamination_step_Ok _ _ _ H1 nm).
    setoid_rewrite elem_of_cons. naive_solver.
Qed.

(** The lookup [cont_dict[org]] of line 128 is only reached under the
    guard of line 148. *)
Lemma contamination_step_no_cont_KeyError st node k :
  contamination_step metadata cont_dict st node ≠ Raise (KeyError Dcont_dict k).
Proof.
  unfold contamination_step. destruct node as [|n ups]; [done |].
  destruct (is_leaf n); [| done].
  destruct (PyStr.count "_" (name n) =? 4); [| done].
  intros H.
  do 3 (apply bind_Raise in H as [H%item_neg_Raise | (? & _ & H)]; [done |]).
  apply bind_Raise in H as [[_ [=]]%getitem_Raise | (rec & _ & H)].
  case_bool_decide as Hin; [| done].
  apply bind_Raise in H as [H | (b & _ & H)]; [| by destruct b].
  unfold check_contamination in H.
  apply bind_Raise in H as [[Hnone _]%getitem_Raise | (ckr & _ & H)].
  - rewrite Hnone in Hin. by destruct Hin.
  - apply bind_Raise in H as [H | (b & _ & H)]; [| by destruct b].
    by apply expected_neighborhood_no_cont_KeyError in H.
Qed.

Lemma contamination_loop_no_cont_KeyError l st k :
  foldM (contamination_step metadata cont_dict) st l ≠ Raise (KeyError Dcont_dict k).
Proof.
  revert st. induction l as [|node l IH]; intros st; [done |].
  rewrite foldM_cons. intros [H | (st1 & _ & H)]%bind_Raise.
  - by apply contamination_step_no_cont_KeyError in H.
  - by apply IH in H.
Qed.

End Contamination.

(** The characterisation of the contamination set that C1 and C10 share. *)
Lemma contaminant_iff_verdict_true_aux
    (metadata : gmap string TaxonRecord) (t : TreeNode)
    (cont_dict : gmap string (string * string)) contaminations cont_table_name :
  collect_contaminations metadata t cont_dict
    = Ok (contaminations, cont_table_name) →
  ∀ nm, nm ∈ contaminations ↔
        ∃ node, node ∈ traverse t ∧
                candidate_with_verdict metadata cont_dict true node nm.
Proof.
  intros Hrun nm. unfold collect_contaminations in Hrun.
  rewrite (contamination_loop_Ok _ _ _ _ _ Hrun nm). simpl.
  split; [intros [[]%not_elem_of_empty | ?]; done | by right].
Qed.

(** C1, as the code has it: a leaf name is in the contamination set of the
    pass exactly when a leaf of that name is a Ranked Candidate whose
    organism code is a key of the Contamination Directory and whose
    neighbourhood test, started from the leaf's parent, answers true. *)
Theorem contaminant_iff_test_true
    (metadata : gmap string TaxonRecord) (t : TreeNode)
    (cont_dict : gmap string (string * string)) :
  contaminant_iff_verdict metadata t cont_dict true.
Proof.
  intros contaminations cont_table_name Hrun.
  by apply contaminant_iff_verdict_true_aux with cont_table_name.
Qed.

Lemma contaminant_iff_test_true_witness :
  "X_hit_0_0_0" ∈ ({["X_hit_0_0_0"]} : gset string) ↔
  ∃ node, node ∈ traverse Sample.tree_beta ∧
          candidate_with_verdict Sample.metadata Sample.cont_beta
            true node "X_hit_0_0_0".
Proof.
  apply (contaminant_iff_test_true Sample.metadata Sample.tree_beta
           Sample.cont_beta {["X_hit_0_0_0"]} {["X x_0_0_0@X"]}).
  vm_compute. reflexivity.
Defined.

(** C1, as stated, fails: with [X] listed as (Alpha, group), the candidate
    [X_hit_0_0_0] sits among leaves of group Beta only, its test answers
    false, and the pass does not put it in the contamination set. *)
Lemma contaminant_iff_test_false_counterexample :
  ¬ contaminant_iff_verdict Sample.metadata Sample.tree_beta
      Sample.cont_alpha false.
Proof.
  intros Hclaim.
  assert (Hrun : collect_contaminations Sample.metadata Sample.tree_beta
                   Sample.cont_alpha = Ok (∅, ∅)) by (vm_compute; reflexivity).
  destruct (Hclaim _ _ Hrun "X_hit_0_0_0") as [_ Hin].
  apply (not_elem_of_empty (C := gset string) "X_hit_0_0_0"), Hin.
  exists [Sample.leaf "X_hit_0_0_0"; Sample.beta_clade; Sample.tree_beta].
  split.
  - apply list_elem_of_In. simpl. tauto.
  - exists (Sample.leaf "X_hit_0_0_0"), ("Alpha", "group").
    repeat split; vm_compute; reflexivity.
Qed.

(** C10: every name in the contamination set is the name of a leaf with
    exactly four underscores whose organism code is a key of the
    Contamination Directory; names with another number of underscores and
    candidates of unlisted organisms are never in it; and the pass never
    ends in a failed lookup in the Contamination Directory. *)
Theorem contaminations_are_listed_candidates
    (metadata : gmap string TaxonRecord) (t : TreeNode)
    (cont_dict : gmap string (string * string)) :
  (∀ k, collect_contaminations metadata t cont_dict
        ≠ Raise (KeyError Dcont_dict k)) ∧
  (∀ contaminations cont_table_name,
     collect_contaminations metadata t cont_dict
       = Ok (contaminations, cont_table_name) →
     (∀ nm, nm ∈ contaminations →
            PyStr.count "_" nm = 4 ∧
            is_Some (cont_dict !! PyStr.item0 (PyStr.split "_" nm)) ∧
            ∃ node n, node ∈ traverse t ∧ head node = Some n ∧
                      is_leaf n = true ∧ name n = nm) ∧
     (∀ nm, PyStr.count "_" nm ≠ 4 ∨
            cont_dict !! PyStr.item0 (PyStr.split "_" nm) = None →
            nm ∉ contaminations)).
Proof.
  split; [intros k; apply contamination_loop_no_cont_KeyError |].
  intros contaminations cont_table_name Hrun.
  assert (Hin : ∀ nm, nm ∈ contaminations →
            PyStr.count "_" nm = 4 ∧
            is_Some (cont_dict !! PyStr.item0 (PyStr.split "_" nm)) ∧
            ∃ node n, node ∈ traverse t ∧ head node = Some n ∧
                      is_leaf n = true ∧ name n = nm).
  { intros nm Hnm.
    apply (contaminant_iff_verdict_true_aux _ _ _ _ _ Hrun) in Hnm
      as (node & Hnode & n & ckr & Hhd & Hleaf & Hname & Hc & Hck & _).
    split; [done |]. split; [by exists ckr |]. by exists node, n. }
  split; [exact Hin |].
  intros nm Hbad Hnm. destruct (Hin nm Hnm) as (Hc & [ckr Hck] & _).
  destruct Hbad; congruence.
Qed.

Lemma contaminations_are_listed_candidates_witness :
  PyStr.count "_" "X_hit_0_0_0" = 4 ∧
  is_Some (Sample.cont_beta !! PyStr.item0 (PyStr.split "_" "X_hit_0_0_0")) ∧
  ∃ node n, node ∈ traverse Sample.tree_beta ∧ head node = Some n ∧
            is_leaf n = true ∧ name n = "X_hit_0_0_0".
Proof.
  refine (proj1 (proj2 (contaminations_are_listed_candidates Sample.metadata
                          Sample.tree_beta Sample.cont_beta)
                   {["X_hit_0_0_0"]} {["X x_0_0_0@X"]} _) "X_hit_0_0_0" _).
  - vm_compute. reflexivity.
  - by apply elem_of_singleton.
Defined.

(** * The suspicious clades *)

Section Suspicious.
Variable metadata : gmap string TaxonRecord.

Lemma supported_step_spec t acc node :
  supported_step t acc node =
    acc ++ (if is_supported t node then [clade_of node] else []).
Proof.
  unfold supported_step, is_supported. destruct node as [|n ups]; simpl.
  { by rewrite app_nil_r. }
  destruct (negb (is_root (n :: ups)) && negb (is_leaf n)); simpl;
    [| by rewrite app_nil_r].
  destruct (Qle_bool 70 (support n) && (len_node n <? len_node t - len_node n)%Z);
    simpl; [| by rewrite app_nil_r].
  destruct (1 <? length (get_leaf_names n)); [done | by rewrite app_nil_r].
Qed.

Lemma supported_loop_spec t nodes acc :
  fold_left (supported_step t) nodes acc =
    acc ++ (clade_of <$> List.filter (is_supported t) nodes).
Proof.
  revert acc. induction nodes as [|node nodes IH]; intros acc; simpl.
  { by rewrite app_nil_r. }
  rewrite IH, supported_step_spec.
  destruct (is_supported t node); simpl; by rewrite <- app_assoc.
Qed.

Lemma groups_loop_Some clade s gs :
  clade_groups metadata clade = Some gs →
  foldM (groups_step metadata) s clade = Ok (s ∪ gs).
Proof.
  revert s gs. induction clade as [|leaf rest IH]; intros s gs; simpl.
  { intros [= <-]. f_equal. by rewrite (right_id_L ∅ (∪)). }
  unfold groups_step at 1. unfold getitem.
  destruct (metadata !! org_code leaf) as [rec|]; [| done].
  destruct (clade_groups metadata rest) as [gs'|]; [| done].
  intros [= <-]. simpl. rewrite (IH _ gs' eq_refl). f_equal.
  by rewrite (assoc_L (∪)).
Qed.

Lemma groups_loop_None clade s :
  clade_groups metadata clade = None →
  ∃ e, foldM (groups_step metadata) s clade = Raise e.
Proof.
  revert s. induction clade as [|leaf rest IH]; intros s; simpl; [done |].
  unfold groups_step at 1. unfold getitem.
  destruct (metadata !! org_code leaf) as [rec|]; simpl; [| eauto].
  destruct (clade_groups metadata rest) as [gs'|]; [done |].
  intros _. by apply IH.
Qed.

Lemma groups_loop_Ok clade gs :
  foldM (groups_step metadata) ∅ clade = Ok gs ↔
  clade_groups metadata clade = Some gs.
Proof.
  destruct (clade_groups metadata clade) as [gs'|] eqn:Hg.
  - rewrite (groups_loop_Some _ ∅ _ Hg), (left_id_L ∅ (∪)).
    split; congruence.
  - destruct (groups_loop_None _ ∅ Hg) as [e ->]. split; congruence.
Qed.

Lemma suspicious_loop_Ok clades acc sus :
  foldM (suspicious_step metadata) acc clades = Ok sus →
  sus = acc ++ List.filter (is_mixed metadata) clades ∧
  Forall (λ clade, is_Some (clade_groups metadata clade)) clades.
Proof.
  revert acc. induction clades as [|clade clades IH]; intros acc Hf.
  { injection Hf as <-. by rewrite app_nil_r. }
  rewrite foldM_cons in Hf. apply bind_Ok in Hf as (acc1 & H1 & H2).
  unfold suspicious_step in H1. apply bind_Ok in H1 as (gs & Hgs & H1).
  apply groups_loop_Ok in Hgs. apply IH in H2 as [-> Hall].
  split; [| constructor; eauto].
  simpl. unfold is_mixed at 2. rewrite Hgs.
  destruct (1 <? size gs); injection H1 as <-; [| done].
  by rewrite <- app_assoc.
Qed.

Lemma filter_fmap_clade (P : list string → bool) (Q : noderef → bool) nodes :
  List.filter P (clade_of <$> List.filter Q nodes) =
    clade_of <$> List.filter (λ node, Q node && P (clade_of node)) nodes.
Proof.
  induction nodes as [|node nodes IH]; [done |]. simpl.
  destruct (Q node); simpl; [| exact IH].
  destruct (P (clade_of node)); simpl; [f_equal |]; exact IH.
Qed.

(** The four conditions, spelled out. *)
Lemma is_suspicious_spec t node n :
  head node = Some n →
  is_suspicious metadata t node = true ↔
    is_root node = false ∧ is_leaf n = false ∧
    (70 <= support n)%Q ∧
    (len_node n < len_node t - len_node n)%Z ∧
    1 < length (get_leaf_names n) ∧
    ∃ gs, clade_groups metadata (get_leaf_names n) = Some gs ∧ 1 < size gs.
Proof.
  destruct node as [|n' ups]; intros [= ->].
  unfold is_suspicious, is_supported, is_mixed, clade_of.
  rewrite !andb_true_iff, !negb_true_iff, Qle_bool_iff, Z.ltb_lt, Nat.ltb_lt.
  destruct (clade_groups metadata (get_leaf_names n)) as [gs|].
  - rewrite Nat.ltb_lt. naive_solver.
  - split; [intros [_ [=]] | intros (_ & _ & _ & _ & _ & gs & [=] & _)].
Qed.

(** The function returns whenever the organism of every leaf is in the
    Taxon Directory. *)
Lemma clade_groups_total clade :
  Forall (λ leaf, is_Some (metadata !! org_code leaf)) clade →
  is_Some (clade_groups metadata clade).
Proof.
  induction 1 as [|leaf rest [rec Hrec] _ [gs Hgs]]; simpl; [done |].
  by rewrite Hrec, Hgs.
Qed.

End Suspicious.

(** * Trees and their traversal *)

Lemma traverse_from_head ups n node :
  node ∈ traverse_from ups n →
  ∃ m, head node = Some m ∧ get_leaf_names m ⊆ get_leaf_names n.
Proof.
  revert ups node. induction n as [nm s ch IH] using TreeNode_induction.
  intros ups node. cbn [traverse_from].
  intros [-> | Hin]%elem_of_cons; [by exists (Node nm s ch) |].
  apply list_elem_of_In, in_flat_map in Hin as (c & Hc & Hin).
  apply list_elem_of_In in Hc, Hin.
  rewrite Forall_forall in IH.
  destruct (IH c Hc _ _ Hin) as (m & Hm & Hsub). exists m. split; [done |].
  intros leaf Hleaf%Hsub. destruct ch as [|c0 ch0]; [by apply elem_of_nil in Hc |].
  cbn [get_leaf_names]. apply list_elem_of_In, in_flat_map. exists c.
  split; by apply list_elem_of_In.
Qed.

(** A traversal never yields the empty reference. *)
Lemma traverse_nonempty t node : node ∈ traverse t → node ≠ [].
Proof. intros (m & Hm & _)%traverse_from_head ->. done. Qed.

(** The clade of a node of the tree holds leaves of the tree only. *)
Lemma clade_of_traverse t node leaf :
  node ∈ traverse t → leaf ∈ clade_of node → leaf ∈ get_leaf_names t.
Proof.
  intros (m & Hm & Hsub)%traverse_from_head Hleaf.
  destruct node as [|n ups]; [done |]. injection Hm as ->. by apply Hsub.
Qed.

Lemma suspicious_loop_returns metadata clades acc :
  Forall (λ clade, is_Some (clade_groups metadata clade)) clades →
  ∃ suspicious, foldM (suspicious_step metadata) acc clades = Ok suspicious.
Proof.
  intros Hall. revert acc.
  induction Hall as [|clade clades [gs Hgs] _ IH]; intros acc; [by exists acc |].
  rewrite foldM_cons. unfold suspicious_step at 1.
  apply groups_loop_Ok in Hgs. rewrite Hgs. simpl.
  destruct (1 <? size gs); apply IH.
Qed.

(** C3: the detector returns whenever the organism of every leaf is in
    the Taxon Directory, and the clades it returns for a rooted tree are,
    in pre-order, the clades of the nodes that are neither the root nor a
    leaf and satisfy all four conditions: support at least 70, fewer
    leaves than the rest of the tree, more than one member, and more than
    one group among the members (each stripped to its organism code and
    looked up in the Taxon Directory). *)
Theorem suspicious_clades_four_conditions
    (metadata : gmap string TaxonRecord) (t : TreeNode) :
  ((∀ leaf, leaf ∈ get_leaf_names t → is_Some (metadata !! org_code leaf)) →
   ∃ suspicious, suspicious_clades metadata t = Ok suspicious) ∧
  (∀ suspicious,
     suspicious_clades metadata t = Ok suspicious →
     suspicious =
       clade_of <$> List.filter (is_suspicious metadata t) (traverse t)) ∧
  (∀ node n, head node = Some n →
     (is_suspicious metadata t node = true ↔
        is_root node = false ∧ is_leaf n = false ∧
        (70 <= support n)%Q ∧
        (len_node n < len_node t - len_node n)%Z ∧
        1 < length (get_leaf_names n) ∧
        ∃ gs, clade_groups metadata (get_leaf_names n) = Some gs ∧ 1 < size gs)).
Proof.
  split; [| split].
  - intros Hmeta. unfold suspicious_clades. rewrite supported_loop_spec. simpl.
    apply suspicious_loop_returns, Forall_fmap, Forall_forall.
    intros node Hnode. apply list_elem_of_In, filter_In in Hnode as [Hnode _].
    apply list_elem_of_In in Hnode. simpl.
    apply clade_groups_total, Forall_forall. intros leaf Hleaf.
    by apply Hmeta, (clade_of_traverse t node).
  - intros suspicious Hrun.
    unfold suspicious_clades in Hrun. rewrite supported_loop_spec in Hrun.
    apply suspicious_loop_Ok in Hrun as [-> _]. simpl.
    apply filter_fmap_clade.
  - intros node n. apply is_suspicious_spec.
Qed.

Lemma suspicious_clades_four_conditions_witness :
  [["X_hit_0_0_0"; "B_1"; "C_1"]] =
    clade_of <$> List.filter (is_suspicious Sample.metadata Sample.tree_beta)
                             (traverse Sample.tree_beta).
Proof.
  refine (proj1 (proj2 (suspicious_clades_four_conditions Sample.metadata
                          Sample.tree_beta)) _ _).
  vm_compute. reflexivity.
Defined.

(** The end-to-end example of the specification: in
    [((A_1,X_1)100,(B_1,C_1)100);], with [A] and [X] of group Alpha and
    [B] and [C] of group Beta, no clade is suspicious. *)
Example suspicious_clades_single_group :
  suspicious_clades Sample.metadata
    (Node "" 1 [Node "" 100 [Sample.leaf "A_1"; Sample.leaf "X_1"];
                Node "" 100 [Sample.leaf "B_1"; Sample.leaf "C_1"]])
  = Ok [].
Proof. vm_compute. reflexivity. Qed.

(** * The candidate selector *)

Lemma best_step_spec top_rank n ups :
  best_step top_rank (n :: ups) =
    if is_leaf n && (PyStr.count "_" (name n) =? 4) then
      match candidate_rank (name n) with
      | Some r => Ok (update_best top_rank (name n) r)
      | None => Raise ValueError
      end
    else Ok top_rank.
Proof.
  unfold best_step. destruct (is_leaf n); simpl; [| done].
  destruct (PyStr.count "_" (name n) =? 4) eqn:Hc; [| done].
  apply Nat.eqb_eq in Hc.
  pose proof (PyStrFacts.length_split "_" (name n)) as Hlen. rewrite Hc in Hlen.
  unfold candidate_rank, update_best, candidate_org.
  destruct (PyStr.split "_" (name n)) as [|f0 [|f1 [|f2 [|f3 [|f4 [|f5 fs]]]]]];
    try discriminate Hlen.
  simpl. destruct (PyStr.int (PyStr.slice_1_m1 f3)) as [r|]; [| done].
  destruct (top_rank !! f0) as [[best c]|]; [| done].
  by destruct (r <? best)%Z.
Qed.

Lemma best_in_snoc_other cands org r nm m :
  candidate_org m ≠ org → best_in cands org r nm → best_in (cands ++ [m]) org r nm.
Proof.
  intros Hm (before & after & -> & Horg & Hr & Hb & Ha).
  exists before, (after ++ [m]). split; [by rewrite <- app_assoc |].
  split; [done |]. split; [done |]. split; [done |].
  intros m' [Hin | ->%list_elem_of_singleton]%elem_of_app Hm'; [eauto | done].
Qed.

Lemma best_in_snoc_worse cands org r nm m r' :
  candidate_rank m = Some r' → (r ≤ r')%Z →
  best_in cands org r nm → best_in (cands ++ [m]) org r nm.
Proof.
  intros Hm Hle (before & after & -> & Horg & Hr & Hb & Ha).
  exists before, (after ++ [m]). split; [by rewrite <- app_assoc |].
  split; [done |]. split; [done |]. split; [done |].
  intros m' [Hin | ->%list_elem_of_singleton]%elem_of_app Hm'; eauto.
Qed.

Lemma best_in_elem cands org r nm :
  best_in cands org r nm → nm ∈ cands ∧ candidate_org nm = org.
Proof.
  intros (before & after & -> & Horg & _). split; [| done].
  apply elem_of_app. right. by left.
Qed.

(** An organism has at most one best candidate. *)
Lemma best_in_unique cands org r1 nm1 r2 nm2 :
  best_in cands org r1 nm1 → best_in cands org r2 nm2 → r1 = r2 ∧ nm1 = nm2.
Proof.
  intros (b1 & a1 & -> & Ho1 & Hr1 & Hb1 & Ha1) (b2 & a2 & Heq & Ho2 & Hr2 & Hb2 & Ha2).
  destruct (Nat.lt_trichotomy (length b1) (length b2)) as [Hlt | [Hlen | Hlt]].
  - exfalso.
    assert (H1 : nm1 ∈ b2).
    { apply list_elem_of_lookup. exists (length b1).
      rewrite <- (lookup_app_l b2 (nm2 :: a2)) by done. rewrite <- Heq.
      by rewrite list_lookup_middle. }
    assert (H2 : nm2 ∈ a1).
    { apply list_elem_of_lookup. exists (length b2 - S (length b1)).
      assert (Hl : (b1 ++ nm1 :: a1) !! length b2 = Some nm2).
      { rewrite Heq. by rewrite list_lookup_middle. }
      rewrite lookup_app_r in Hl by lia.
      destruct (length b2 - length b1) as [|k] eqn:Hk; [lia |].
      simpl in Hl. by replace (length b2 - S (length b1)) with k by lia. }
    destruct (Hb2 _ H1 Ho1) as (r' & Hr' & ?).
    destruct (Ha1 _ H2 Ho2) as (r'' & Hr'' & ?).
    rewrite Hr1 in Hr'. rewrite Hr2 in Hr''. injection Hr' as <-. injection Hr'' as <-.
    lia.
  - apply app_inj_1 in Heq as [_ [= <- _]]; [| done].
    rewrite Hr1 in Hr2. by injection Hr2 as <-.
  - exfalso.
    assert (H1 : nm2 ∈ b1).
    { apply list_elem_of_lookup. exists (length b2).
      rewrite <- (lookup_app_l b1 (nm1 :: a1)) by done. rewrite Heq.
      by rewrite list_lookup_middle. }
    assert (H2 : nm1 ∈ a2).
    { apply list_elem_of_lookup. exists (length b1 - S (length b2)).
      assert (Hl : (b2 ++ nm2 :: a2) !! length b1 = Some nm1).
      { rewrite <- Heq. by rewrite list_lookup_middle. }
      rewrite lookup_app_r in Hl by lia.
      destruct (length b1 - length b2) as [|k] eqn:Hk; [lia |].
      simpl in Hl. by replace (length b1 - S (length b2)) with k by lia. }
    destruct (Hb1 _ H1 Ho2) as (r' & Hr' & ?).
    destruct (Ha2 _ H2 Ho1) as (r'' & Hr'' & ?).
    rewrite Hr2 in Hr'. rewrite Hr1 in Hr''. injection Hr' as <-. injection Hr'' as <-.
    lia.
Qed.

Lemma best_inv_empty : best_inv [] ∅.
Proof.
  split.
  - intros org _ m Hm. by apply elem_of_nil in Hm.
  - intros org r nm Hl. by rewrite lookup_empty in Hl.
Qed.

(** One more candidate keeps the invariant. *)
Lemma best_inv_update cands top_rank nm r :
  candidate_rank nm = Some r →
  best_inv cands top_rank →
  best_inv (cands ++ [nm]) (update_best top_rank nm r).
Proof.
  intros Hr [Hnone Hsome].
  assert (Hnew : (∀ m, m ∈ cands → candidate_org m = candidate_org nm →
                       ∃ r', candidate_rank m = Some r' ∧ (r < r')%Z) →
                 best_inv (cands ++ [nm]) (<[candidate_org nm := (r, nm)]> top_rank)).
  { intros Hbefore. split.
    - intros org Hl m Hm. apply lookup_insert_None in Hl as [Hl Hne].
      apply elem_of_app in Hm as [Hm | ->%list_elem_of_singleton]; [by apply Hnone | done].
    - intros org r0 nm0 Hl. apply lookup_insert_Some in Hl as [[<- [= <- <-]] | [Hne Hl]].
      + exists cands, []. split; [done |]. split; [done |]. split; [done |].
        split; [done |]. intros m Hm. by apply elem_of_nil in Hm.
      + by apply best_in_snoc_other; [| apply Hsome]. }
  unfold update_best.
  destruct (top_rank !! candidate_org nm) as [[best c]|] eqn:Htop.
  - pose proof (Hsome _ _ _ Htop) as Hbest.
    destruct (r <? best)%Z eqn:Hlt; [apply Z.ltb_lt in Hlt | apply Z.ltb_ge in Hlt].
    + apply Hnew. intros m Hm Horg.
      destruct Hbest as (before & after & -> & Ho & Hrc & Hb & Ha).
      apply elem_of_app in Hm as [Hm | [-> | Hm]%elem_of_cons].
      * destruct (Hb m Hm Horg) as (r' & ? & ?). exists r'. split; [done | lia].
      * exists best. split; [done | lia].
      * destruct (Ha m Hm Horg) as (r' & ? & ?). exists r'. split; [done | lia].
    + split.
      * intros org Hl m Hm.
        apply elem_of_app in Hm as [Hm | ->%list_elem_of_singleton]; [by apply Hnone |].
        intros <-. congruence.
      * intros org r0 nm0 Hl. destruct (decide (candidate_org nm = org)) as [<- | Hne].
        -- rewrite Htop in Hl. injection Hl as <- <-.
           by apply best_in_snoc_worse with r.
        -- by apply best_in_snoc_other; [| apply Hsome].
  - apply Hnew. intros m Hm Horg. by destruct (Hnone _ Htop m Hm).
Qed.

(** The loop returns, with the invariant, when the rank of every
    candidate is an integer. *)
Lemma best_loop nodes cands top_rank :
  Forall (λ node, node ≠ []) nodes →
  (∀ nm, nm ∈ node_candidates nodes → is_Some (candidate_rank nm)) →
  best_inv cands top_rank →
  ∃ top_rank', foldM best_step top_rank nodes = Ok top_rank' ∧
               best_inv (cands ++ node_candidates nodes) top_rank'.
Proof.
  intros Hne. revert cands top_rank.
  induction Hne as [|node nodes Hnode _ IH]; intros cands top_rank Hranks Hinv.
  { exists top_rank. by rewrite app_nil_r. }
  destruct node as [|n ups]; [done |].
  rewrite foldM_cons, best_step_spec.
  unfold node_candidates in *. cbn [flat_map] in *.
  destruct (is_leaf n && (PyStr.count "_" (name n) =? 4)).
  - destruct (Hranks (name n)) as [r Hr]; [apply elem_of_app; left; by left |].
    rewrite Hr. simpl.
    destruct (IH (cands ++ [name n]) (update_best top_rank (name n) r))
      as (top' & Hrun & Hinv').
    + intros nm Hnm. apply Hranks, elem_of_app. by right.
    + by apply best_inv_update.
    + exists top'. split; [done |]. by rewrite <- app_assoc in Hinv'.
  - simpl. apply IH; [| done]. intros nm Hnm. by apply Hranks.
Qed.

(** C4, as the code has it: when the rank field of every
    Ranked-Candidate leaf (a leaf whose name has four underscores, hence
    five fields) holds an integer between its first and last character,
    the selector returns a set of leaf names that holds, for every
    organism with a Ranked-Candidate leaf, exactly one name: that of the
    organism's candidate of least rank, the first one met in pre-order
    when several have that rank.  Organisms without Ranked-Candidate
    leaf have no name in the set. *)
Theorem get_best_candidates_one_per_organism (t : TreeNode) :
  (∀ nm, nm ∈ candidates t → is_Some (candidate_rank nm)) →
  ∃ top_seqs,
    get_best_candidates t = Ok top_seqs ∧
    (∀ nm, nm ∈ top_seqs ↔
           ∃ r, best_in (candidates t) (candidate_org nm) r nm) ∧
    (∀ nm1 nm2, nm1 ∈ top_seqs → nm2 ∈ top_seqs →
                candidate_org nm1 = candidate_org nm2 → nm1 = nm2) ∧
    (∀ org, (∃ nm, nm ∈ candidates t ∧ candidate_org nm = org) ↔
            (∃ nm, nm ∈ top_seqs ∧ candidate_org nm = org)).
Proof.
  intros Hranks.
  destruct (best_loop (traverse t) [] ∅) as (top_rank & Hrun & [Hnone Hsome]).
  { apply Forall_forall. intros node. apply traverse_nonempty. }
  { exact Hranks. }
  { exact best_inv_empty. }
  simpl in Hnone, Hsome. fold (candidates t) in Hnone, Hsome.
  assert (Hentry : ∀ org r nm, best_in (candidates t) org r nm →
                               top_rank !! org = Some (r, nm)).
  { intros org r nm Hbest. destruct (best_in_elem _ _ _ _ Hbest) as [Hin Horg].
    destruct (top_rank !! org) as [[r' nm']|] eqn:Htop.
    - destruct (best_in_unique _ _ _ _ _ _ Hbest (Hsome _ _ _ Htop)) as [-> ->]. done.
    - by destruct (Hnone _ Htop _ Hin). }
  assert (Hmem : ∀ nm, nm ∈ (map_img (snd <$> top_rank) : gset string) ↔
                       ∃ r, best_in (candidates t) (candidate_org nm) r nm).
  { intros nm. rewrite elem_of_map_img. split.
    - intros [org Hl]. rewrite lookup_fmap in Hl.
      destruct (top_rank !! org) as [[r nm']|] eqn:Htop; [| done].
      injection Hl as ->. pose proof (Hsome _ _ _ Htop) as Hbest.
      destruct (best_in_elem _ _ _ _ Hbest) as [_ <-]. by exists r.
    - intros [r Hbest]. exists (candidate_org nm).
      by rewrite lookup_fmap, (Hentry _ _ _ Hbest). }
  exists (map_img (snd <$> top_rank)). split; [| split; [| split]].
  - unfold get_best_candidates. by rewrite Hrun.
  - exact Hmem.
  - intros nm1 nm2 [r1 H1]%Hmem [r2 H2]%Hmem Heq. rewrite Heq in H1.
    by destruct (best_in_unique _ _ _ _ _ _ H1 H2).
  - intros org. split.
    + intros (m & Hm & Horg).
      destruct (top_rank !! org) as [[r nm]|] eqn:Htop;
        [| by destruct (Hnone _ Htop _ Hm)].
      pose proof (Hsome _ _ _ Htop) as Hbest.
      destruct (best_in_elem _ _ _ _ Hbest) as [_ Horg'].
      exists nm. split; [| done]. apply Hmem. exists r. by rewrite Horg'.
    + intros (nm & [r Hbest]%Hmem & Horg). exists nm. split; [| done].
      by destruct (best_in_elem _ _ _ _ Hbest).
Qed.

Lemma get_best_candidates_one_per_organism_witness :
  ∃ top_seqs,
    get_best_candidates Sample.tree_ranked = Ok top_seqs ∧
    (∀ nm, nm ∈ top_seqs ↔
           ∃ r, best_in (candidates Sample.tree_ranked) (candidate_org nm) r nm) ∧
    (∀ nm1 nm2, nm1 ∈ top_seqs → nm2 ∈ top_seqs →
                candidate_org nm1 = candidate_org nm2 → nm1 = nm2) ∧
    (∀ org, (∃ nm, nm ∈ candidates Sample.tree_ranked ∧ candidate_org nm = org) ↔
            (∃ nm, nm ∈ top_seqs ∧ candidate_org nm = org)).
Proof.
  apply (get_best_candidates_one_per_organism Sample.tree_ranked).
  apply Forall_forall. vm_compute candidates.
  repeat constructor; eexists; vm_compute; reflexivity.
Defined.

(** C4, as stated for every tree, fails: in
    [((X_hit_0_0_0,B_1,C_1)100,A_1,A_2,B_2,C_3);] the organism [X] has a
    Ranked-Candidate leaf, but its rank field [0] holds nothing between
    its first and last character, [int] raises [ValueError] on the empty
    string, and the selector returns no set at all. *)
Lemma get_best_candidates_every_tree_counterexample :
  "X_hit_0_0_0" ∈ candidates Sample.tree_beta ∧
  candidate_rank "X_hit_0_0_0" = None ∧
  get_best_candidates Sample.tree_beta = Raise ValueError.
Proof.
  split; [| split].
  - apply list_elem_of_In. vm_compute. left. reflexivity.
  - vm_compute. reflexivity.
  - vm_compute. reflexivity.
Qed.

(** On that tree the selector keeps, for [A], the first of the two
    candidates of rank 1, and the only candidate of [X]. *)
Example get_best_candidates_tree_ranked :
  get_best_candidates Sample.tree_ranked
    = Ok {["A_q1_h2_r1x_b"; "X_q1_h1_r5x_b"]}.
Proof. vm_compute. reflexivity. Qed.

(** * Sorting by a key *)

Section Sorted.
Context {A : Type} (key : A → nat).

Lemma insert_by_perm x l : insert_by key x l ≡ₚ x :: l.
Proof.
  induction l as [|y l IH]; simpl; [done |].
  destruct (key x <=? key y); [done |].
  rewrite IH. apply Permutation_swap.
Qed.

Lemma sorted_perm l : sorted key l ≡ₚ l.
Proof.
  induction l as [|x l IH]; simpl; [done |].
  by rewrite insert_by_perm, IH.
Qed.

Lemma insert_by_sorted x l :
  StronglySorted (λ a b, key a ≤ key b) l →
  StronglySorted (λ a b, key a ≤ key b) (insert_by key x l).
Proof.
  induction 1 as [|y l Hl IH Hy]; simpl; [repeat constructor |].
  destruct (key x <=? key y) eqn:Hxy.
  - apply Nat.leb_le in Hxy. constructor; [by constructor |].
    constructor; [done |]. eapply Forall_impl; [exact Hy |].
    simpl. intros; lia.
  - apply Nat.leb_gt in Hxy. constructor; [done |].
    rewrite insert_by_perm. constructor; [lia | done].
Qed.

(** The result is in ascending order of key ... *)
Lemma sorted_sorted l : StronglySorted (λ a b, key a ≤ key b) (sorted key l).
Proof.
  induction l as [|x l IH]; simpl; [constructor | by apply insert_by_sorted].
Qed.

Lemma insert_by_stable (k : nat) x l :
  List.filter (λ y, key y =? k) (insert_by key x l) =
  List.filter (λ y, key y =? k) (x :: l).
Proof.
  induction l as [|y l IH]; [done |]. cbn [insert_by].
  destruct (key x <=? key y) eqn:Hxy; [done |].
  apply Nat.leb_gt in Hxy. cbn [List.filter] in *. rewrite IH.
  destruct (key y =? k) eqn:Hy, (key x =? k) eqn:Hx; try done.
  apply Nat.eqb_eq in Hy, Hx. lia.
Qed.

(** ... and elements of equal key keep their order: the sort is stable. *)
Lemma sorted_stable (k : nat) l :
  List.filter (λ y, key y =? k) (sorted key l) = List.filter (λ y, key y =? k) l.
Proof.
  induction l as [|x l IH]; [done |]. cbn [sorted foldr].
  fold (sorted key l). rewrite insert_by_stable. cbn [List.filter].
  by rewrite IH.
Qed.

(** A list in ascending order is left as it is. *)
Lemma sorted_id l :
  StronglySorted (λ a b, key a ≤ key b) l → sorted key l = l.
Proof.
  induction 1 as [|x l Hl IH Hx]; [done |]. cbn [sorted foldr].
  fold (sorted key l). rewrite IH. destruct l as [|y l]; [done |].
  simpl. apply Forall_cons in Hx as [Hxy _].
  by apply Nat.leb_le in Hxy as ->.
Qed.

End Sorted.

(** * The redundancy reduction *)

Section Reduction.
Context {C : Type} `{Clade C}.

(** The flag after the inner loop says whether some later set includes
    the current one. *)
Lemma redundant_loop (set_ : gset string) others b :
  fold_left (λ redundant other,
               if bool_decide (set_ ⊆ other) then true else redundant) others b
  = b || existsb (λ o, bool_decide (set_ ⊆ o)) others.
Proof.
  revert b. induction others as [|o others IH]; intros b; simpl.
  { by rewrite orb_false_r. }
  rewrite IH. destruct (bool_decide (set_ ⊆ o)), b; done.
Qed.

Lemma redundant_flag_spec pre s rest :
  redundant_flag (pre ++ s :: rest) (length pre) s =
    existsb (λ o, bool_decide (s ⊆ o)) rest.
Proof.
  unfold redundant_flag.
  assert (Hlt : (length pre <? length (pre ++ s :: rest)) = true).
  { apply Nat.ltb_lt. rewrite length_app. simpl. lia. }
  rewrite Hlt, redundant_loop. simpl.
  replace (length pre + 1) with (length (pre ++ [s])) by (rewrite length_app; done).
  replace (pre ++ s :: rest) with ((pre ++ [s]) ++ rest) by by rewrite <- app_assoc.
  by rewrite drop_app_length.
Qed.

(** The outer loop over the sorted sets, started in the middle. *)
Lemma nonredundant_loop pre suf acc :
  fold_left (λ acc ix,
               if redundant_flag (pre ++ suf) ix.1 ix.2 then acc
               else acc ++ [ix.2])
            (enumerate_from (length pre) suf) acc
  = acc ++ drop_nested false suf.
Proof.
  revert pre acc. induction suf as [|s rest IH]; intros pre acc; simpl.
  { by rewrite app_nil_r. }
  rewrite redundant_flag_spec.
  replace (pre ++ s :: rest) with ((pre ++ [s]) ++ rest) by by rewrite <- app_assoc.
  replace (S (length pre)) with (length (pre ++ [s])) by (rewrite length_app; simpl; lia).
  rewrite IH.
  assert (Hex : existsb (λ o, bool_decide (s ⊆ o)) rest =
                existsb (λ o, bool_decide (s ⊆ o) && true) rest).
  { clear. induction rest as [|o rest IH]; [done |]. simpl.
    by rewrite IH, andb_true_r. }
  rewrite <- Hex. destruct (existsb _ rest); [done |].
  by rewrite <- app_assoc.
Qed.

Lemma drop_nested_fmap (clades : list C) :
  drop_nested false (py_set <$> clades) = drop_nested false clades.
Proof.
  induction clades as [|c rest IH]; [done |].
  rewrite fmap_cons. cbn [drop_nested]. rewrite IH.
  match goal with
  | |- (if ?a then _ else _) = (if ?b then _ else _) =>
      assert (Hex : a = b)
  end.
  { clear. induction rest as [|o rest IH]; [done |].
    rewrite fmap_cons. cbn [existsb]. by rewrite IH. }
  by rewrite Hex.
Qed.

Lemma nonredundant_step_spec acc (clades : list C) :
  nonredundant_step acc clades =
    acc ++ drop_nested false (sorted py_len clades).
Proof.
  unfold nonredundant_step. destruct clades as [|c clades].
  { simpl. by rewrite app_nil_r. }
  transitivity (acc ++ drop_nested false (py_set <$> sorted py_len (c :: clades))).
  - exact (nonredundant_loop [] _ acc).
  - by rewrite drop_nested_fmap.
Qed.

Lemma nonredundant_from acc (result_clades : list (list C)) :
  fold_left nonredundant_step result_clades acc =
    acc ++ nonredundant_spec false result_clades.
Proof.
  revert acc. induction result_clades as [|clades rest IH]; intros acc; simpl.
  { by rewrite app_nil_r. }
  rewrite IH, nonredundant_step_spec. by rewrite <- app_assoc.
Qed.

(** What is kept was there. *)
Lemma drop_nested_subset strict (clades : list C) s :
  s ∈ drop_nested strict clades → s ∈ (py_set <$> clades).
Proof.
  induction clades as [|c rest IH]; simpl; [done |].
  destruct (existsb _ rest).
  - intros Hs. right. by apply IH.
  - intros [-> | Hs]%elem_of_cons; [by left | right; by apply IH].
Qed.

End Reduction.

(** C5, as the code has it: the reduction treats each tree on its own;
    within a tree it sorts the clades by size (a stable ascending sort)
    and drops a clade exactly when it is a subset of some clade further
    on in that order, whatever its size, so an identical clade further
    on makes the earlier copy redundant too. *)
Theorem nonredundant_per_tree (result_clades : list (list (list string))) :
  nonredundant result_clades =
    flat_map (λ clades, drop_nested false (sorted length clades)) result_clades ∧
  ∀ clades : list (list string),
    sorted length clades ≡ₚ clades ∧
    StronglySorted (λ a b, length a ≤ length b) (sorted length clades).
Proof.
  split.
  - unfold nonredundant. by rewrite nonredundant_from.
  - intros clades. split; [apply sorted_perm | apply sorted_sorted].
Qed.

(** C5, as stated, fails: of two identical clades of one tree the first
    is dropped, although no larger clade follows it. *)
Lemma nonredundant_larger_counterexample :
  nonredundant [[["a_1"; "b_1"]; ["a_1"; "b_1"]]]
    ≠ nonredundant_spec true [[["a_1"; "b_1"]; ["a_1"; "b_1"]]].
Proof.
  intros Heq. apply (f_equal length) in Heq. vm_compute in Heq. discriminate.
Qed.

(** The two statements agree on the clades of a tree whose clades have no
    repeated leaf name and differ as sets: there, a clade further on that
    includes another one is larger. *)
Lemma drop_nested_strict (clades : list (list string)) :
  StronglySorted (λ a b, length a ≤ length b) clades →
  Forall NoDup clades →
  NoDup (list_to_set <$> clades : list (gset string)) →
  drop_nested true clades = drop_nested false clades.
Proof.
  induction 1 as [|c rest Hs IH Hc]; [done |].
  intros [Hnd Hnds]%Forall_cons. rewrite fmap_cons.
  intros [Hnotin Hdist]%NoDup_cons. cbn [drop_nested]. rewrite IH by done.
  match goal with
  | |- (if ?a then _ else _) = (if ?b then _ else _) => assert (Hex : a = b)
  end; [| by rewrite Hex].
  clear IH Hs Hdist. induction rest as [|o rest IH]; [done |].
  apply Forall_cons in Hc as [Hco Hc]. apply Forall_cons in Hnds as [Hno Hnds].
  rewrite fmap_cons in Hnotin. apply not_elem_of_cons in Hnotin as [Hne Hnotin].
  cbn [existsb]. rewrite IH by done. f_equal. cbn [py_set py_len list_clade].
  case_bool_decide as Hsub; [| done]. simpl.
  apply Nat.ltb_lt. destruct (decide (length c < length o)) as [|Hge]; [done |].
  destruct Hne. apply set_subseteq_size_eq; [done |].
  rewrite !size_list_to_set by done. lia.
Qed.

(** X2: when the clades of each tree repeat no leaf name and differ as
    sets, the reduction drops a clade exactly when it is a subset of a
    larger clade further on in the sorted order of its tree. *)
Lemma nonredundant_strict_on_distinct (result_clades : list (list (list string))) :
  Forall (λ clades, Forall NoDup clades ∧
                    NoDup (list_to_set <$> clades : list (gset string)))
         result_clades →
  nonredundant result_clades = nonredundant_spec true result_clades.
Proof.
  intros Hall. unfold nonredundant. rewrite nonredundant_from. cbn [app].
  unfold nonredundant_spec. cbn [py_len list_clade].
  induction Hall as [|clades rest [Hnd Hdist] _ IH]; [done |].
  cbn [flat_map]. rewrite IH. f_equal. symmetry. apply drop_nested_strict.
  - apply sorted_sorted.
  - by rewrite sorted_perm.
  - by rewrite sorted_perm.
Qed.

Lemma nonredundant_strict_on_distinct_witness :
  nonredundant [[["a_1"; "b_1"; "c_1"]; ["a_1"; "b_1"]]; [["a_1"; "b_1"]]]
    = nonredundant_spec true
        [[["a_1"; "b_1"; "c_1"]; ["a_1"; "b_1"]]; [["a_1"; "b_1"]]].
Proof.
  apply (nonredundant_strict_on_distinct
           [[["a_1"; "b_1"; "c_1"]; ["a_1"; "b_1"]]; [["a_1"; "b_1"]]]).
  apply (bool_decide_unpack _). vm_compute. exact I.
Defined.

(** * Running the reduction again *)

Lemma drop_nested_sorted (sets : list (gset string)) :
  StronglySorted (λ a b, size a ≤ size b) sets →
  StronglySorted (λ a b, size a ≤ size b) (drop_nested false sets).
Proof.
  induction 1 as [|s rest Hs IH Hall]; [constructor |]. cbn [drop_nested].
  destruct (existsb _ rest); [done |]. constructor; [done |].
  apply Forall_forall. intros o Ho%drop_nested_subset.
  rewrite list_fmap_id in Ho. rewrite Forall_forall in Hall. by apply Hall.
Qed.

(** Dropping the nested sets of a list that has none changes nothing. *)
Lemma drop_nested_idempotent (sets : list (gset string)) :
  drop_nested false (drop_nested false sets) = drop_nested false sets.
Proof.
  induction sets as [|s rest IH]; [done |]. cbn [drop_nested].
  destruct (existsb _ rest) eqn:Hex; [done |]. cbn [drop_nested].
  rewrite IH.
  match goal with
  | |- (if ?a then _ else _) = _ => assert (Hkept : a = false)
  end.
  { apply not_true_is_false. intros (o & Ho & Hso)%existsb_exists.
    apply not_true_iff_false in Hex. apply Hex, existsb_exists. exists o.
    split; [| done]. apply list_elem_of_In in Ho. apply drop_nested_subset in Ho.
    rewrite list_fmap_id in Ho. by apply list_elem_of_In. }
  by rewrite Hkept.
Qed.

Lemma sets_sorted (clades : list (list string)) :
  StronglySorted (λ a b, length a ≤ length b) clades →
  Forall NoDup clades →
  StronglySorted (λ a b : gset string, size a ≤ size b) (list_to_set <$> clades).
Proof.
  induction 1 as [|c rest Hs IH Hc]; [constructor |].
  intros [Hnd Hnds]%Forall_cons. rewrite fmap_cons. constructor; [by apply IH |].
  apply Forall_fmap, Forall_forall. intros o Ho. simpl.
  rewrite Forall_forall in Hc, Hnds.
  rewrite !size_list_to_set by auto. by apply Hc.
Qed.

(** The reduced clades of one tree are reduced: running the reduction on
    them returns them. *)
Lemma nonredundant_tree_again (clades : list (list string)) :
  Forall NoDup clades →
  nonredundant [nonredundant [clades]] = nonredundant [clades].
Proof.
  intros Hnd. unfold nonredundant at 1. rewrite nonredundant_from.
  unfold nonredundant_spec. cbn [flat_map app]. rewrite app_nil_r.
  unfold nonredundant. rewrite nonredundant_from.
  unfold nonredundant_spec. cbn [flat_map app]. rewrite app_nil_r.
  rewrite <- (drop_nested_fmap (sorted py_len clades)).
  cbn [py_len set_clade list_clade py_set].
  rewrite sorted_id.
  - apply drop_nested_idempotent.
  - apply drop_nested_sorted, sets_sorted; [apply sorted_sorted |].
    by rewrite sorted_perm.
Qed.

(** C6, as the code has it: run again tree by tree, on clades without
    repeated leaf name, the reduction returns the clades it returned the
    first time; in particular it does so on the output for one tree. *)
Theorem nonredundant_idempotent_per_tree (result_clades : list (list (list string))) :
  Forall (Forall NoDup) result_clades →
  reduce_again_per_tree result_clades = nonredundant result_clades ∧
  ∀ clades, clades ∈ result_clades →
            reduce_again_whole [clades] = nonredundant [clades].
Proof.
  intros Hnd. split.
  - unfold reduce_again_per_tree.
    unfold nonredundant at 1 3. rewrite !nonredundant_from. cbn [app].
    unfold nonredundant_spec.
    induction Hnd as [|clades rest Hc _ IH]; [done |].
    rewrite fmap_cons. cbn [flat_map]. rewrite IH. f_equal.
    pose proof (nonredundant_tree_again clades Hc) as Hagain.
    unfold nonredundant at 1 3 in Hagain. rewrite !nonredundant_from in Hagain.
    unfold nonredundant_spec in Hagain. cbn [flat_map app] in Hagain.
    by rewrite !app_nil_r in Hagain.
  - intros clades Hin. rewrite Forall_forall in Hnd.
    apply nonredundant_tree_again. by apply Hnd.
Qed.

Lemma nonredundant_idempotent_per_tree_witness :
  reduce_again_per_tree [[["a_1"; "b_1"]]; [["a_1"; "b_1"; "c_1"]; ["a_1"; "c_1"]]]
    = nonredundant [[["a_1"; "b_1"]]; [["a_1"; "b_1"; "c_1"]; ["a_1"; "c_1"]]].
Proof.
  refine (proj1 (nonredundant_idempotent_per_tree
                   [[["a_1"; "b_1"]]; [["a_1"; "b_1"; "c_1"]; ["a_1"; "c_1"]]] _)).
  apply (bool_decide_unpack _). vm_compute. exact I.
Defined.

(** C6, as stated, fails: the output for two trees, one with the clade
    [{a_1, b_1}] and one with the clade [{a_1, b_1, c_1}], holds both
    clades; reduced again as it is, it loses the smaller one. *)
Lemma nonredundant_idempotent_counterexample :
  reduce_again_whole [[["a_1"; "b_1"]]; [["a_1"; "b_1"; "c_1"]]]
    ≠ nonredundant [[["a_1"; "b_1"]]; [["a_1"; "b_1"; "c_1"]]].
Proof.
  intros Heq. apply (f_equal length) in Heq. vm_compute in Heq. discriminate.
Qed.

(** The reduction run again tree by tree can still differ when a clade
    repeats a leaf name: the sort is by the length of the list, the
    inclusion test is on the set. *)
Example nonredundant_again_repeated_name :
  reduce_again_per_tree [[["a_1"; "a_1"; "a_1"]; ["a_1"; "b_1"]]]
    ≠ nonredundant [[["a_1"; "a_1"; "a_1"]; ["a_1"; "b_1"]]].
Proof.
  intros Heq. apply (f_equal length) in Heq. vm_compute in Heq. discriminate.
Qed.

(** * The problematic organisms *)

(** A share is 50 exactly when the group has half of the members. *)
Lemma share_50 taxons g :
  taxons ≠ [] →
  Qeq_bool (share taxons g) 50 = true ↔ 2 * list_count g taxons = length taxons.
Proof.
  intros Hne. rewrite Qeq_bool_iff. unfold share.
  assert (Hlen : (0 < Z.of_nat (length taxons))%Z) by (destruct taxons; simpl; [done | lia]).
  set (c := Z.of_nat (list_count g taxons)).
  set (n := Z.of_nat (length taxons)) in *.
  assert (Hn : ¬ inject_Z n == 0).
  { unfold Qeq. simpl. lia. }
  split.
  - intros Heq.
    assert (H2 : inject_Z c * 100 == 50 * inject_Z n).
    { rewrite <- Heq. field. exact Hn. }
    unfold Qeq in H2. simpl in H2. subst c n. lia.
  - intros Heq.
    assert (H2 : inject_Z c * 100 == 50 * inject_Z n).
    { unfold Qeq. simpl. subst c n. lia. }
    transitivity (inject_Z c * 100 / inject_Z n)%Q; [field; exact Hn |].
    rewrite H2. field. exact Hn.
Qed.

Lemma max_from_spec best l :
  ∃ v, (max_from best l, v) ∈ best :: l ∧
       ∀ k' v', (k', v') ∈ best :: l → (v' <= v)%Q.
Proof.
  revert best. induction l as [|x l IH]; intros [bk bv]; simpl.
  - exists bv. split; [by left |].
    intros k' v' [= _ ->]%list_elem_of_singleton. apply Qle_refl.
  - destruct x as [xk xv]. simpl.
    destruct (Qle_bool xv bv) eqn:Hle; simpl.
    + apply Qle_bool_iff in Hle. destruct (IH (bk, bv)) as (v & Hin & Hmax).
      exists v. split.
      * apply elem_of_cons in Hin as [Heq | Hin]; [rewrite Heq; by left |].
        right. by right.
      * intros k' v' [Heq | [Heq | Hin']%elem_of_cons]%elem_of_cons.
        -- apply (Hmax k'). rewrite Heq. by left.
        -- injection Heq as _ ->. eapply Qle_trans; [exact Hle |].
           apply (Hmax bk). by left.
        -- apply (Hmax k'). by right.
    + assert (Hlt : (bv < xv)%Q).
      { apply Qnot_le_lt. intros Hq%Qle_bool_iff. congruence. }
      destruct (IH (xk, xv)) as (v & Hin & Hmax). exists v. split; [by right |].
      intros k' v' [Heq | Hin']%elem_of_cons; [| by apply (Hmax k')].
      injection Heq as _ ->. eapply Qle_trans; [apply Qlt_le_weak, Hlt |].
      apply (Hmax xk). by left.
Qed.

Lemma assoc_get_fmap (f : string → Q) keys k v :
  assoc_get ((λ k, (k, f k)) <$> keys) k = Ok v → v = f k.
Proof.
  induction keys as [|k' keys IH]; [done |]. rewrite fmap_cons. simpl.
  destruct (String.eqb k' k) eqn:Hk; [| exact IH].
  apply String.eqb_eq in Hk as ->. by intros [= <-].
Qed.

Lemma list_count_two g1 g2 taxons :
  g1 ≠ g2 → (∀ g, g ∈ taxons → g = g1 ∨ g = g2) →
  length taxons = list_count g1 taxons + list_count g2 taxons.
Proof.
  intros Hne. unfold list_count.
  induction taxons as [|g taxons IH]; intros Hall; [done |].
  rewrite !filter_cons. simpl.
  rewrite IH by (intros g' Hg'; apply Hall; by right).
  destruct (Hall g) as [-> | ->]; [by left | |];
    repeat case_decide; simpl; try done; lia.
Qed.

Section ProblematicFacts.
Variable iter : gset string → list string.
Hypothesis iter_elements : ∀ X, iter X ≡ₚ elements X.
Variable metadata : gmap string TaxonRecord.

Lemma taxons_loop members acc taxons :
  foldM (taxons_step metadata) acc members = Ok taxons →
  ∃ gs, taxons = acc ++ gs ∧
        Forall2 (λ seq g, group <$> metadata !! org_code seq = Some g) members gs.
Proof.
  revert acc. induction members as [|seq members IH]; intros acc Hf.
  { injection Hf as <-. exists []. by rewrite app_nil_r. }
  rewrite foldM_cons in Hf. apply bind_Ok in Hf as (acc1 & H1 & H2).
  unfold taxons_step in H1. apply bind_Ok in H1 as (rec & Hrec & [= <-]).
  apply getitem_Ok in Hrec. apply IH in H2 as (gs & -> & Hgs).
  exists (group rec :: gs). split; [by rewrite <- app_assoc |].
  constructor; [by rewrite Hrec | done].
Qed.

(** The dominant group is a group of the clade, and no group of the
    clade has a larger share. *)
Lemma max_key_dominant taxons dominant :
  max_key (group_perc_of iter taxons) = Ok dominant →
  dominant ∈ taxons ∧
  ∀ g, g ∈ taxons → (share taxons g <= share taxons dominant)%Q.
Proof.
  unfold max_key, group_perc_of.
  assert (Hkeys : ∀ g, g ∈ iter (list_to_set taxons) ↔ g ∈ taxons).
  { intros g. rewrite iter_elements. rewrite elem_of_elements.
    apply elem_of_list_to_set. }
  destruct (iter (list_to_set taxons)) as [|k keys] eqn:Hk; [done |].
  rewrite fmap_cons. intros [= <-].
  set (f := λ tax : string, (tax, share taxons tax)).
  destruct (max_from_spec (f k) (f <$> keys)) as (v & Hin & Hmax).
  change (f k :: (f <$> keys)) with (f <$> (k :: keys)) in Hin, Hmax.
  apply list_elem_of_fmap in Hin as (d & Hd & Hdin).
  unfold f in Hd at 1. injection Hd as Hd ->. rewrite Hd.
  split; [by apply Hkeys |].
  intros g Hg. apply (Hmax g). apply list_elem_of_fmap. exists g.
  split; [done | by apply Hkeys].
Qed.

Lemma member_loop taxons dominant members table table' :
  foldM (member_step metadata (group_perc_of iter taxons) dominant) table members
    = Ok table' →
  ∀ org, default [] (table' !! org) =
         default [] (table !! org) ++ appended metadata taxons dominant org members.
Proof.
  revert table. induction members as [|seq members IH]; intros table Hf org.
  { injection Hf as <-. unfold appended. simpl. by rewrite app_nil_r. }
  rewrite foldM_cons in Hf. apply bind_Ok in Hf as (table1 & H1 & H2).
  rewrite (IH _ H2 org). unfold appended. cbn [flat_map].
  rewrite app_assoc. f_equal.
  unfold member_step in H1. apply bind_Ok in H1 as (rec & Hrec & H1).
  apply bind_Ok in H1 as (p & Hp & H1). apply getitem_Ok in Hrec.
  apply assoc_get_fmap in Hp as ->. rewrite Hrec. unfold member_label.
  case_bool_decide as Horg.
  - subst org.
    destruct (Qeq_bool (share taxons (group rec)) 50); injection H1 as <-;
      by rewrite lookup_insert_eq.
  - rewrite app_nil_r.
    destruct (Qeq_bool (share taxons (group rec)) 50); injection H1 as <-;
      by rewrite lookup_insert_ne.
Qed.

(** In a clade split in two equal halves every label is the marker. *)
Lemma appended_half taxons dominant org members g1 g2 :
  Forall2 (λ seq g, group <$> metadata !! org_code seq = Some g) members taxons →
  g1 ≠ g2 → (∀ g, g ∈ taxons → g = g1 ∨ g = g2) →
  list_count g1 taxons = list_count g2 taxons →
  ∀ lbl, lbl ∈ appended metadata taxons dominant org members → lbl = "unspecified".
Proof.
  intros Hgroups Hne Htwo Hhalf lbl Hlbl.
  pose proof (list_count_two g1 g2 taxons Hne Htwo) as Hlen.
  unfold appended in Hlbl.
  apply list_elem_of_In, in_flat_map in Hlbl as (seq & Hseq & Hlbl).
  apply list_elem_of_In in Hseq.
  case_bool_decide; [| by destruct Hlbl].
  destruct (metadata !! org_code seq) as [rec|] eqn:Hrec; [| by destruct Hlbl].
  apply list_elem_of_In, list_elem_of_singleton in Hlbl as ->.
  assert (Hg : group rec ∈ taxons).
  { apply list_elem_of_lookup in Hseq as [i Hi].
    destruct (Forall2_lookup_l _ _ _ _ _ Hgroups Hi) as (g & Hg & Hsome).
    rewrite Hrec in Hsome. injection Hsome as ->.
    apply list_elem_of_lookup. eauto. }
  assert (Hnonempty : taxons ≠ []) by (intros ->; by apply elem_of_nil in Hg).
  unfold member_label.
  assert (H50 : Qeq_bool (share taxons (group rec)) 50 = true).
  { apply share_50; [done |]. destruct (Htwo _ Hg) as [-> | ->]; lia. }
  by rewrite H50.
Qed.

End ProblematicFacts.

(** C7: for each clade the aggregator is given, with [taxons] the groups
    of its members and [dominant] a group of largest share among them,
    the entry of every organism grows by one label for each member of
    that organism: the marker [unspecified] when the share of the
    member's own group is exactly 50, the dominant group otherwise.
    When the members are split in equal halves between two groups, every
    label the clade appends is the marker. *)
Theorem problematic_labels
    (iter : gset string → list string) (metadata : gmap string TaxonRecord)
    (pre : list (gset string)) (clade : gset string) (post : list (gset string))
    (final : gmap string (list string)) :
  (∀ X, iter X ≡ₚ elements X) →
  problematic iter metadata (pre ++ clade :: post) = Ok final →
  ∃ before after taxons dominant,
    problematic iter metadata pre = Ok before ∧
    clade_step iter metadata before clade = Ok after ∧
    foldM (clade_step iter metadata) after post = Ok final ∧
    Forall2 (λ seq g, group <$> metadata !! org_code seq = Some g)
            (iter clade) taxons ∧
    dominant ∈ taxons ∧
    (∀ g, g ∈ taxons → (share taxons g <= share taxons dominant)%Q) ∧
    (∀ org, default [] (after !! org) =
            default [] (before !! org)
              ++ appended metadata taxons dominant org (iter clade)) ∧
    (∀ g1 g2, g1 ≠ g2 → (∀ g, g ∈ taxons → g = g1 ∨ g = g2) →
              list_count g1 taxons = list_count g2 taxons →
              ∀ org lbl, lbl ∈ appended metadata taxons dominant org (iter clade) →
                         lbl = "unspecified").
Proof.
  intros Hiter Hrun. unfold problematic in *.
  rewrite foldM_app in Hrun. apply bind_Ok in Hrun as (before & Hpre & Hrun).
  rewrite foldM_cons in Hrun. apply bind_Ok in Hrun as (after & Hstep & Hpost).
  pose proof Hstep as Hclade. unfold clade_step in Hclade.
  apply bind_Ok in Hclade as (taxons & Htax & Hclade).
  apply bind_Ok in Hclade as (dominant & Hmax & Hloop).
  apply taxons_loop in Htax as (gs & -> & Hgs). simpl in *.
  destruct (max_key_dominant iter Hiter gs dominant Hmax) as [Hdom Hle].
  exists before, after, gs, dominant.
  split; [done |]. split; [done |]. split; [done |]. split; [done |].
  split; [done |]. split; [done |]. split.
  - intros org. by apply (member_loop iter metadata gs dominant).
  - intros g1 g2 Hne Htwo Hhalf org lbl.
    by apply (appended_half metadata gs dominant org (iter clade) g1 g2).
Qed.

(** On the clades [{A_1, B_1}], split in halves between Alpha and Beta,
    and [{A_1, B_1, C_1}], where Beta dominates. *)
Example problematic_two_clades :
  problematic elements Sample.metadata
    [{["A_1"; "B_1"]}; {["A_1"; "B_1"; "C_1"]}]
  = Ok (list_to_map [("A", ["unspecified"; "Beta"]);
                     ("B", ["unspecified"; "Beta"]);
                     ("C", ["Beta"])]).
Proof. vm_compute. reflexivity. Qed.

Lemma problematic_labels_witness :
  ∃ before after taxons dominant,
    problematic elements Sample.metadata [] = Ok before ∧
    clade_step elements Sample.metadata before {["A_1"; "B_1"]} = Ok after ∧
    foldM (clade_step elements Sample.metadata) after [{["A_1"; "B_1"; "C_1"]}]
      = Ok (list_to_map [("A", ["unspecified"; "Beta"]);
                         ("B", ["unspecified"; "Beta"]);
                         ("C", ["Beta"])]) ∧
    Forall2 (λ seq g, group <$> Sample.metadata !! org_code seq = Some g)
            (elements ({["A_1"; "B_1"]} : gset string)) taxons ∧
    dominant ∈ taxons ∧
    (∀ g, g ∈ taxons → (share taxons g <= share taxons dominant)%Q) ∧
    (∀ org, default [] (after !! org) =
            default [] (before !! org)
              ++ appended Sample.metadata taxons dominant org
                   (elements ({["A_1"; "B_1"]} : gset string))) ∧
    (∀ g1 g2, g1 ≠ g2 → (∀ g, g ∈ taxons → g = g1 ∨ g = g2) →
              list_count g1 taxons = list_count g2 taxons →
              ∀ org lbl,
                lbl ∈ appended Sample.metadata taxons dominant org
                        (elements ({["A_1"; "B_1"]} : gset string)) →
                lbl = "unspecified").
Proof.
  apply (problematic_labels elements Sample.metadata []
           {["A_1"; "B_1"]} [{["A_1"; "B_1"; "C_1"]}]).
  - intros X. reflexivity.
  - vm_compute. reflexivity.
Defined.

(** * The aggregator returns *)

Lemma assoc_get_returns (f : string → Q) keys k :
  k ∈ keys → ∃ v, assoc_get ((λ k, (k, f k)) <$> keys) k = Ok v.
Proof.
  induction keys as [|k' keys IH]; [by intros ?%elem_of_nil |].
  rewrite fmap_cons. simpl. destruct (String.eqb k' k) eqn:Hk; [eauto |].
  intros [-> | Hin]%elem_of_cons; [| by apply IH].
  by rewrite String.eqb_refl in Hk.
Qed.

Section ProblematicReturns.
Variable iter : gset string → list string.
Hypothesis iter_elements : ∀ X, iter X ≡ₚ elements X.
Variable metadata : gmap string TaxonRecord.

Lemma taxons_loop_returns members acc :
  Forall (λ seq, is_Some (metadata !! org_code seq)) members →
  ∃ taxons, foldM (taxons_step metadata) acc members = Ok taxons.
Proof.
  intros Hall. revert acc.
  induction Hall as [|seq members [rec Hrec] _ IH]; intros acc; [by exists acc |].
  rewrite foldM_cons. unfold taxons_step at 1, getitem. rewrite Hrec. simpl.
  apply IH.
Qed.

Lemma member_loop_returns taxons dominant members table :
  Forall (λ seq, ∃ rec, metadata !! org_code seq = Some rec ∧ group rec ∈ taxons)
         members →
  ∃ table', foldM (member_step metadata (group_perc_of iter taxons) dominant)
              table members = Ok table'.
Proof.
  intros Hall. revert table.
  induction Hall as [|seq members (rec & Hrec & Hg) _ IH]; intros table;
    [by exists table |].
  rewrite foldM_cons. unfold member_step at 1, getitem. rewrite Hrec. simpl.
  destruct (assoc_get_returns (share taxons) (iter (list_to_set taxons)) (group rec))
    as [p Hp].
  { rewrite iter_elements, elem_of_elements. by apply elem_of_list_to_set. }
  unfold group_perc_of at 1. rewrite Hp. simpl.
  destruct (Qeq_bool p 50); apply IH.
Qed.

(** One clade is aggregated without exception when it is not empty and
    the organism of every member is in the Taxon Directory. *)
Lemma clade_step_returns table (clade : gset string) :
  clade ≠ ∅ →
  (∀ seq, seq ∈ clade → is_Some (metadata !! org_code seq)) →
  ∃ table', clade_step iter metadata table clade = Ok table'.
Proof.
  intros Hne Hmeta. unfold clade_step.
  assert (Hmembers : Forall (λ seq, is_Some (metadata !! org_code seq)) (iter clade)).
  { apply Forall_forall. intros seq Hseq. apply Hmeta.
    rewrite iter_elements in Hseq. by apply elem_of_elements. }
  destruct (taxons_loop_returns (iter clade) [] Hmembers) as [taxons Htax].
  rewrite Htax. simpl.
  apply taxons_loop in Htax as (gs & -> & Hgs). simpl in *.
  assert (Hnonempty : iter (list_to_set gs) ≠ []).
  { intros Hnil. destruct Hne. apply leibniz_equiv, elements_empty_iff.
    apply Permutation_nil_r. rewrite <- iter_elements.
    destruct (iter clade) as [|seq members]; [done |].
    apply Forall2_cons_inv_l in Hgs as (g & gs' & _ & _ & ->).
    assert (Hin : g ∈ iter (list_to_set (g :: gs'))).
    { rewrite iter_elements, elem_of_elements. set_solver. }
    rewrite Hnil in Hin. by apply elem_of_nil in Hin. }
  unfold max_key, group_perc_of at 1.
  destruct (iter (list_to_set gs)) as [|k keys] eqn:Hkeys; [done |].
  rewrite fmap_cons. simpl.
  apply member_loop_returns.
  apply Forall_forall. intros seq Hseq.
  apply list_elem_of_lookup in Hseq as [i Hi].
  destruct (Forall2_lookup_l _ _ _ _ _ Hgs Hi) as (g & Hg & Hsome).
  destruct (metadata !! org_code seq) as [rec|]; [| done].
  exists rec. split; [done |]. injection Hsome as ->.
  apply list_elem_of_lookup. eauto.
Qed.

(** X3: the aggregator returns, whatever the iteration order of sets,
    when no clade is empty and the organism of every member is in the
    Taxon Directory. *)
Lemma problematic_returns clades :
  Forall (λ clade : gset string,
            clade ≠ ∅ ∧ ∀ seq, seq ∈ clade → is_Some (metadata !! org_code seq))
         clades →
  ∃ table, problematic iter metadata clades = Ok table.
Proof.
  unfold problematic. generalize (∅ : gmap string (list string)).
  intros table Hall. revert table.
  induction Hall as [|clade clades [Hne Hmeta] _ IH]; intros table;
    [by exists table |].
  rewrite foldM_cons.
  destruct (clade_step_returns table clade Hne Hmeta) as [table' ->].
  simpl. apply IH.
Qed.

End ProblematicReturns.

Lemma problematic_returns_witness :
  ∃ table, problematic elements Sample.metadata [{["A_1"; "B_1"]}] = Ok table.
Proof.
  apply (problematic_returns elements (λ X, reflexivity _) Sample.metadata
           [{["A_1"; "B_1"]}]).
  repeat constructor.
  - intros Hempty. apply (not_elem_of_empty (C := gset string) "A_1").
    rewrite <- Hempty. set_solver.
  - intros seq [->%elem_of_singleton | ->%elem_of_singleton]%elem_of_union.
    + vm_compute. eauto.
    + vm_compute. eauto.
Defined.

(** * Backpropagation *)

Lemma split_no_sep c s : PyStr.count c s = 0 → PyStr.split c s = [s].
Proof.
  induction s as [|a s IH]; simpl; [done |].
  destruct (Ascii.eqb a c); simpl; [done |]. intros Hc. by rewrite IH.
Qed.

Lemma split_sep c s rest :
  PyStr.count c s = 0 →
  PyStr.split c (s +:+ String c rest) = s :: PyStr.split c rest.
Proof.
  induction s as [|a s IH]; simpl.
  - by rewrite Ascii.eqb_refl.
  - destruct (Ascii.eqb a c); simpl; [done |]. intros Hc. by rewrite IH.
Qed.

Lemma backpropagate_line_written cont_names r :
  written_row r →
  backpropagate_line cont_names (write_row r) = Ok (write_row (revise cont_names r)).
Proof.
  intros ((Hname & _ & _) & (Hgroup & _ & _) & Hstatus).
  assert (Htab : ∀ x, tab +:+ x = String TAB x) by done.
  unfold backpropagate_line, write_row. rewrite !Htab.
  rewrite (split_sep TAB _ _ Hname), (split_sep TAB _ _ Hgroup).
  assert (Hfield : PyStr.split TAB (row_status r +:+ nl) = [row_status r +:+ nl] ∧
                   PyStr.strip (row_status r +:+ nl) = row_status r).
  { repeat (apply elem_of_cons in Hstatus as [-> | Hstatus]; [by vm_compute |]).
    by apply elem_of_nil in Hstatus. }
  destruct Hfield as [Hsplit Hstrip]. rewrite Hsplit.
  unfold item. cbn [lookup list_lookup bind]. rewrite Hstrip, !Htab.
  unfold revise. by case_bool_decide.
Qed.

Lemma write_rows_written cont_names rows file :
  Forall written_row rows →
  write_rows cont_names (write_row <$> rows) file =
    (file ++ (write_row <$> (revise cont_names <$> rows)), Ok ()).
Proof.
  intros Hrows. revert file.
  induction Hrows as [|r rows Hr _ IH]; intros file; simpl.
  { by rewrite app_nil_r. }
  rewrite (backpropagate_line_written _ _ Hr), IH.
  by rewrite <- app_assoc.
Qed.

(** C9: on a table of rows written by [tree_to_pdf], backpropagation
    ends normally and leaves a table with one row for each row read, in
    the same order: the row with status [d] when its display name is
    among the contaminant names, the row with its name, group and status
    as they were otherwise. *)
Theorem backpropagate_contamination_rows (rows : list Row) (cont_names : gset string) :
  Forall written_row rows →
  backpropagate_contamination (write_row <$> rows) cont_names =
    (write_row <$> (revise cont_names <$> rows), Ok ()) ∧
  length (revise cont_names <$> rows) = length rows ∧
  ∀ i r, rows !! i = Some r →
    ∃ r', (revise cont_names <$> rows) !! i = Some r' ∧
          row_name r' = row_name r ∧ row_group r' = row_group r ∧
          (row_name r ∈ cont_names → row_status r' = "d") ∧
          (row_name r ∉ cont_names → row_status r' = row_status r).
Proof.
  intros Hrows. split; [| split].
  - unfold backpropagate_contamination. by rewrite write_rows_written.
  - by rewrite length_fmap.
  - intros i r Hi. exists (revise cont_names r).
    rewrite list_lookup_fmap, Hi. split; [done |].
    unfold revise. case_bool_decide; simpl; naive_solver.
Qed.

Lemma backpropagate_contamination_rows_witness :
  backpropagate_contamination
    (write_row <$> [ {| row_name := "A a_100@A"; row_group := "Alpha"; row_status := "o" |};
                     {| row_name := "X x_0_0_0@X"; row_group := "Alpha"; row_status := "p" |} ])
    {["X x_0_0_0@X"]}
  = (write_row <$> [ {| row_name := "A a_100@A"; row_group := "Alpha"; row_status := "o" |};
                     {| row_name := "X x_0_0_0@X"; row_group := "Alpha"; row_status := "d" |} ],
     Ok ()).
Proof.
  refine (proj1 (backpropagate_contamination_rows
           [ {| row_name := "A a_100@A"; row_group := "Alpha"; row_status := "o" |};
             {| row_name := "X x_0_0_0@X"; row_group := "Alpha"; row_status := "p" |} ]
           {["X x_0_0_0@X"]} _)).
  repeat constructor; apply (bool_decide_unpack _); vm_compute; exact I.
Defined.

(** * Further properties of the candidate selector *)

Lemma best_loop_raises nodes top_rank :
  Forall (λ node, node ≠ []) nodes →
  (∃ nm, nm ∈ node_candidates nodes ∧ candidate_rank nm = None) →
  foldM best_step top_rank nodes = Raise ValueError.
Proof.
  intros Hne. revert top_rank.
  induction Hne as [|node nodes Hnode _ IH]; intros top_rank (nm & Hin & Hbad).
  { by apply elem_of_nil in Hin. }
  destruct node as [|n ups]; [done |].
  rewrite foldM_cons, best_step_spec.
  unfold node_candidates in Hin. cbn [flat_map] in Hin.
  destruct (is_leaf n && (PyStr.count "_" (name n) =? 4)).
  - destruct (candidate_rank (name n)) as [r|] eqn:Hr; [| done]. simpl.
    apply IH. exists nm. split; [| done].
    apply elem_of_app in Hin as [Hin | Hin]; [| done].
    apply list_elem_of_singleton in Hin as ->. congruence.
  - simpl. apply IH. by exists nm.
Qed.

(** X4: the selector raises [ValueError] as soon as the tree has a
    Ranked-Candidate leaf whose rank field holds no integer between its
    first and last character. *)
Theorem get_best_candidates_bad_rank_raises (t : TreeNode) :
  (∃ nm, nm ∈ candidates t ∧ candidate_rank nm = None) →
  get_best_candidates t = Raise ValueError.
Proof.
  intros Hbad. unfold get_best_candidates.
  rewrite (best_loop_raises (traverse t) ∅); [done | | exact Hbad].
  apply Forall_forall. intros node. apply traverse_nonempty.
Qed.

Lemma get_best_candidates_bad_rank_raises_witness :
  get_best_candidates Sample.tree_beta = Raise ValueError.
Proof.
  apply (get_best_candidates_bad_rank_raises Sample.tree_beta).
  exists "X_hit_0_0_0". split; [| reflexivity].
  apply list_elem_of_In. vm_compute. tauto.
Defined.

(** * Further properties of the suspicious clades *)

Lemma filter_none {A} (f : A → bool) l :
  (∀ x, x ∈ l → f x = false) → List.filter f l = [].
Proof.
  induction l as [|x l IH]; intros Hf; [done |]. simpl.
  rewrite (Hf x) by by left. apply IH. intros y Hy. apply Hf. by right.
Qed.

(** X5: once [ete3] has loaded and rooted the tree, a tree with fewer
    than five leaves has no suspicious clade: the detector returns the
    empty list for it whatever the Taxon Directory holds, without looking
    anything up. *)
Theorem suspicious_clades_small_tree
    (metadata : gmap string TaxonRecord) (rooted : result TreeNode)
    (t : TreeNode) :
  rooted = Ok t →
  length (get_leaf_names t) < 5 →
  suspicious_clades_call metadata rooted = Ok [].
Proof.
  intros -> Hsmall. unfold suspicious_clades_call. cbn [bind].
  unfold suspicious_clades. rewrite supported_loop_spec.
  rewrite filter_none; [done |].
  intros node _. unfold is_supported. destruct node as [|n ups]; [done |].
  apply not_true_is_false. rewrite !andb_true_iff, Z.ltb_lt, Nat.ltb_lt.
  unfold len_node. lia.
Qed.

Lemma suspicious_clades_small_tree_witness :
  suspicious_clades_call ∅
    (Ok (Node "" 1 [Node "" 100 [Sample.leaf "A_1"; Sample.leaf "X_1"];
                    Node "" 100 [Sample.leaf "B_1"; Sample.leaf "C_1"]]))
  = Ok [].
Proof.
  apply (suspicious_clades_small_tree ∅
           (Ok (Node "" 1 [Node "" 100 [Sample.leaf "A_1"; Sample.leaf "X_1"];
                           Node "" 100 [Sample.leaf "B_1"; Sample.leaf "C_1"]]))
           (Node "" 1 [Node "" 100 [Sample.leaf "A_1"; Sample.leaf "X_1"];
                       Node "" 100 [Sample.leaf "B_1"; Sample.leaf "C_1"]])).
  - reflexivity.
  - vm_compute. lia.
Defined.

(** * Further properties of the redundancy reduction *)

Lemma existsb_includes (x : list string) rest :
  existsb (λ o : list string,
             bool_decide (py_set x ⊆ py_set o) &&
             (negb false || (py_len x <? py_len o))) rest = true ↔
  ∃ o, o ∈ rest ∧ (list_to_set x : gset string) ⊆ list_to_set o.
Proof.
  rewrite existsb_exists. split.
  - intros (o & Ho & Hsub). exists o. apply list_elem_of_In in Ho.
    split; [done |]. simpl in Hsub. rewrite andb_true_r in Hsub.
    by apply bool_decide_eq_true in Hsub.
  - intros (o & Ho & Hsub). exists o. apply list_elem_of_In in Ho.
    split; [done |]. simpl. rewrite andb_true_r. by apply bool_decide_eq_true.
Qed.

Lemma drop_nested_covers (clades : list (list string)) c :
  c ∈ clades →
  ∃ s, s ∈ drop_nested false clades ∧ (list_to_set c : gset string) ⊆ s.
Proof.
  revert c. induction clades as [|x rest IH]; intros c Hc.
  { by apply elem_of_nil in Hc. }
  cbn [drop_nested].
  destruct (existsb _ rest) eqn:Hex.
  - apply elem_of_cons in Hc as [-> | Hc]; [| by apply IH].
    apply existsb_includes in Hex as (o & Ho & Hsub).
    destruct (IH o Ho) as (s & Hs & Hos). exists s. split; [done |].
    by transitivity (list_to_set o : gset string).
  - apply elem_of_cons in Hc as [-> | Hc].
    + exists (list_to_set x). split; [by left | done].
    + destruct (IH c Hc) as (s & Hs & Hcs). exists s. split; [by right | done].
Qed.

Lemma elem_of_nonredundant (result_clades : list (list (list string))) s :
  s ∈ nonredundant result_clades ↔
  ∃ clades, clades ∈ result_clades ∧
            s ∈ drop_nested false (sorted length clades).
Proof.
  unfold nonredundant. rewrite nonredundant_from. cbn [app].
  unfold nonredundant_spec. rewrite list_elem_of_In, in_flat_map.
  split; intros (clades & Hin & Hs); exists clades;
    (split; [by apply list_elem_of_In | by apply list_elem_of_In]).
Qed.

(** X6: the reduction loses no clade: every clade of a tree is included
    in a clade the reduction keeps for that tree, and every clade it
    keeps is the leaf set of a clade it was given. *)
Theorem nonredundant_covers (result_clades : list (list (list string))) :
  (∀ clades c, clades ∈ result_clades → c ∈ clades →
     ∃ s, s ∈ nonredundant [clades] ∧ s ∈ nonredundant result_clades ∧
          (list_to_set c : gset string) ⊆ s) ∧
  (∀ s, s ∈ nonredundant result_clades →
     ∃ clades c, clades ∈ result_clades ∧ c ∈ clades ∧ s = list_to_set c).
Proof.
  split.
  - intros clades c Hclades Hc.
    destruct (drop_nested_covers (sorted length clades) c) as (s & Hs & Hsub).
    { by rewrite sorted_perm. }
    exists s. split; [| split; [| done]].
    + apply elem_of_nonredundant. exists clades. split; [by left | done].
    + apply elem_of_nonredundant. by exists clades.
  - intros s (clades & Hclades & Hs)%elem_of_nonredundant.
    apply drop_nested_subset in Hs.
    apply list_elem_of_fmap in Hs as (c & -> & Hc).
    exists clades, c. split; [done |]. split; [| done].
    by rewrite sorted_perm in Hc.
Qed.

Lemma drop_nested_maximal (clades : list (list string)) s :
  StronglySorted (λ a b, length a ≤ length b) clades →
  Forall NoDup clades →
  s ∈ drop_nested false clades ↔ maximal_in clades s.
Proof.
  unfold maximal_in.
  induction 1 as [|x rest Hs IH Hx]; intros Hnd.
  { simpl. split; [by intros ?%elem_of_nil | by intros [?%elem_of_nil _]]. }
  apply Forall_cons in Hnd as [Hndx Hnd]. specialize (IH Hnd).
  cbn [drop_nested]. rewrite fmap_cons.
  assert (Hkept_rest : s ∈ drop_nested false rest →
            s ∈ list_to_set x :: (list_to_set <$> rest) ∧
            ∀ c, c ∈ x :: rest → s ⊆ list_to_set c → s = list_to_set c).
  { intros [Hin Hmax]%IH. split; [by right |].
    intros c [-> | Hc]%elem_of_cons Hsub; [| by apply Hmax].
    apply list_elem_of_fmap in Hin as (o & -> & Ho).
    apply set_subseteq_size_eq; [done |].
    rewrite Forall_forall in Hx, Hnd.
    rewrite !size_list_to_set by auto. by apply Hx. }
  assert (Hback_rest : s ∈ (list_to_set <$> rest : list (gset string)) →
            (∀ c, c ∈ x :: rest → s ⊆ list_to_set c → s = list_to_set c) →
            s ∈ drop_nested false rest).
  { intros Hin Hmax. apply IH. split; [done |].
    intros c Hc. apply Hmax. by right. }
  destruct (existsb _ rest) eqn:Hex.
  - split; [exact Hkept_rest |]. intros [Hin Hmax].
    apply elem_of_cons in Hin as [-> | Hin]; [| by apply Hback_rest].
    apply existsb_includes in Hex as (o & Ho & Hsub).
    apply Hback_rest; [| done].
    rewrite (Hmax o) by (by right || done).
    apply list_elem_of_fmap. by exists o.
  - split.
    + intros [-> | Hin]%elem_of_cons; [| by apply Hkept_rest].
      split; [by left |].
      intros c [-> | Hc]%elem_of_cons Hsub; [done |].
      apply not_true_iff_false in Hex. destruct Hex.
      apply existsb_includes. by exists c.
    + intros [Hin Hmax].
      apply elem_of_cons in Hin as [-> | Hin]; [by left |].
      right. by apply Hback_rest.
Qed.

(** X7: when no clade repeats a leaf name, the reduction keeps for each
    tree exactly its maximal clades: the leaf sets that no other clade of
    the tree properly includes.  The clades kept therefore do not depend
    on the order in which a tree's clades were given. *)
Theorem nonredundant_keeps_maximal (result_clades : list (list (list string))) :
  Forall (Forall NoDup) result_clades →
  ∀ s, s ∈ nonredundant result_clades ↔
       ∃ clades, clades ∈ result_clades ∧ maximal_in clades s.
Proof.
  intros Hnd s. rewrite elem_of_nonredundant.
  rewrite Forall_forall in Hnd.
  assert (Hiff : ∀ clades, clades ∈ result_clades →
            s ∈ drop_nested false (sorted length clades) ↔ maximal_in clades s).
  { intros clades Hclades.
    rewrite drop_nested_maximal;
      [| apply sorted_sorted | rewrite sorted_perm; by apply Hnd].
    unfold maximal_in. by setoid_rewrite (sorted_perm length clades). }
  split; intros (clades & Hclades & Hs); exists clades; (split; [done |]);
    by apply Hiff.
Qed.

Lemma nonredundant_keeps_maximal_witness :
  ({["a_1"; "b_1"; "c_1"]} : gset string)
    ∈ nonredundant [[["a_1"; "b_1"; "c_1"]; ["a_1"; "b_1"]]] ↔
  ∃ clades, clades ∈ [[["a_1"; "b_1"; "c_1"]; ["a_1"; "b_1"]]] ∧
            maximal_in clades {["a_1"; "b_1"; "c_1"]}.
Proof.
  apply (nonredundant_keeps_maximal [[["a_1"; "b_1"; "c_1"]; ["a_1"; "b_1"]]]).
  apply (bool_decide_unpack _). vm_compute. exact I.
Defined.

(** * The clade analysis of the main program (lines 405-418) *)

Lemma clade_groups_members metadata clade gs :
  clade_groups metadata clade = Some gs →
  Forall (λ leaf, is_Some (metadata !! org_code leaf)) clade ∧
  (clade = [] → gs = ∅).
Proof.
  revert gs. induction clade as [|leaf rest IH]; intros gs; simpl.
  { intros [= <-]. by split. }
  destruct (metadata !! org_code leaf) as [rec|] eqn:Hrec; [| done].
  destruct (clade_groups metadata rest) as [gs'|]; [| done].
  intros _. split; [| done]. constructor; [by exists rec |].
  by destruct (IH gs' eq_refl).
Qed.

Lemma suspicious_clades_mixed metadata t clades :
  suspicious_clades metadata t = Ok clades →
  Forall (λ c, is_mixed metadata c = true) clades.
Proof.
  unfold suspicious_clades. intros [-> _]%suspicious_loop_Ok. simpl.
  apply Forall_forall. intros c Hc.
  by apply list_elem_of_In, filter_In in Hc as [_ Hc].
Qed.

Lemma problematic_loop_returns iter metadata clades table :
  (∀ X, iter X ≡ₚ elements X) →
  Forall (λ clade : gset string,
            clade ≠ ∅ ∧ ∀ seq, seq ∈ clade → is_Some (metadata !! org_code seq))
         clades →
  ∃ table', foldM (clade_step iter metadata) table clades = Ok table'.
Proof.
  intros Hiter Hall. revert table.
  induction Hall as [|clade clades [Hne Hmeta] _ IH]; intros table;
    [by exists table |].
  rewrite foldM_cons.
  destruct (clade_step_returns iter Hiter metadata table clade Hne Hmeta)
    as [table' ->].
  simpl. apply IH.
Qed.

(** X8: the clade analysis of the main program runs through: when the
    detector has returned for every tree, the aggregator returns on the
    reduced clades, in whatever order the trees' results are taken and
    whatever the iteration order of sets.  Every clade it is given has a
    member, and the organism of every member is in the Taxon Directory,
    because the detector has already looked it up. *)
Theorem clade_analysis_returns
    (iter : gset string → list string) (metadata : gmap string TaxonRecord)
    (result_clades : list (list (list string))) :
  (∀ X, iter X ≡ₚ elements X) →
  Forall (λ clades, ∃ t, suspicious_clades metadata t = Ok clades) result_clades →
  ∃ table, problematic iter metadata (nonredundant result_clades) = Ok table.
Proof.
  intros Hiter Hruns. unfold problematic.
  apply problematic_loop_returns; [done |].
  apply Forall_forall. intros s (clades & Hclades & Hs)%elem_of_nonredundant.
  apply drop_nested_subset in Hs.
  apply list_elem_of_fmap in Hs as (c & -> & Hc). rewrite sorted_perm in Hc.
  rewrite Forall_forall in Hruns. destruct (Hruns _ Hclades) as [t Ht].
  apply suspicious_clades_mixed in Ht. rewrite Forall_forall in Ht.
  specialize (Ht c Hc). unfold is_mixed in Ht.
  destruct (clade_groups metadata c) as [gs|] eqn:Hgs; [| done].
  apply Nat.ltb_lt in Ht.
  destruct (clade_groups_members _ _ _ Hgs) as [Hmembers Hempty].
  cbn [py_set list_clade]. split.
  - destruct c as [|leaf c]; [| set_solver].
    rewrite (Hempty eq_refl), size_empty in Ht. lia.
  - intros seq Hseq%elem_of_list_to_set.
    rewrite Forall_forall in Hmembers. by apply Hmembers.
Qed.

Lemma clade_analysis_returns_witness :
  ∃ table, problematic elements Sample.metadata
             (nonredundant [[["X_hit_0_0_0"; "B_1"; "C_1"]]]) = Ok table.
Proof.
  apply (clade_analysis_returns elements Sample.metadata
           [[["X_hit_0_0_0"; "B_1"; "C_1"]]]).
  - intros X. reflexivity.
  - repeat constructor. exists Sample.tree_beta. vm_compute. reflexivity.
Defined.

(** * Further properties of the aggregator *)

Lemma filter_length_perm {A} (f : A → bool) l l' :
  l ≡ₚ l' → length (List.filter f l) = length (List.filter f l').
Proof.
  induction 1 as [|x l l' _ IH|x y l|l l' l'' _ IH1 _ IH2]; simpl.
  - done.
  - destruct (f x); simpl; by rewrite IH.
  - by destruct (f x), (f y).
  - by rewrite IH1.
Qed.

Lemma appended_length metadata taxons dominant org members gs :
  Forall2 (λ seq g, group <$> metadata !! org_code seq = Some g) members gs →
  length (appended metadata taxons dominant org members) =
    length (List.filter (λ seq, bool_decide (org_code seq = org)) members).
Proof.
  unfold appended.
  induction 1 as [|seq g members gs Hseq _ IH]; [done |].
  cbn [flat_map List.filter]. rewrite length_app, IH.
  destruct (bool_decide (org_code seq = org)); [| done].
  by destruct (metadata !! org_code seq).
Qed.

Lemma clade_step_memberships iter metadata before clade after :
  (∀ X, iter X ≡ₚ elements X) →
  clade_step iter metadata before clade = Ok after →
  ∀ org, length (default [] (after !! org)) =
         length (default [] (before !! org)) + memberships org clade.
Proof.
  intros Hiter Hstep org. unfold clade_step in Hstep.
  apply bind_Ok in Hstep as (taxons & Htax & Hstep).
  apply bind_Ok in Hstep as (dominant & _ & Hloop).
  apply taxons_loop in Htax as (gs & -> & Hgs). simpl in Hloop.
  rewrite (member_loop iter metadata gs dominant _ _ _ Hloop org).
  rewrite length_app, (appended_length _ _ _ _ _ _ Hgs).
  unfold memberships. f_equal. by apply filter_length_perm.
Qed.

(** X9: in the table the aggregator returns, the number of labels of an
    organism is the number of times the organism is a member of a clade,
    counted over all the clades given, whatever the iteration order of
    sets. *)
Theorem problematic_label_count
    (iter : gset string → list string) (metadata : gmap string TaxonRecord)
    (clades : list (gset string)) (table : gmap string (list string)) :
  (∀ X, iter X ≡ₚ elements X) →
  problematic iter metadata clades = Ok table →
  ∀ org, length (default [] (table !! org)) =
         sum_list (memberships org <$> clades).
Proof.
  intros Hiter Hrun org. unfold problematic in Hrun.
  assert (Hgen : ∀ start,
            foldM (clade_step iter metadata) start clades = Ok table →
            length (default [] (table !! org)) =
              length (default [] (start !! org))
                + sum_list (memberships org <$> clades)).
  { clear Hrun. induction clades as [|clade rest IH]; intros start Hf.
    - injection Hf as <-. simpl. lia.
    - rewrite foldM_cons in Hf. apply bind_Ok in Hf as (mid & Hstep & Hrest).
      rewrite (IH _ Hrest), (clade_step_memberships _ _ _ _ _ Hiter Hstep org).
      rewrite fmap_cons. simpl. lia. }
  rewrite (Hgen _ Hrun). by rewrite lookup_empty.
Qed.

Lemma problematic_label_count_witness :
  length (default [] ((list_to_map [("A", ["unspecified"; "Beta"]);
                                    ("B", ["unspecified"; "Beta"]);
                                    ("C", ["Beta"])]
                        : gmap string (list string)) !! "A")) =
  sum_list (memberships "A" <$> [{["A_1"; "B_1"]}; {["A_1"; "B_1"; "C_1"]}]).
Proof.
  apply (problematic_label_count elements Sample.metadata
           [{["A_1"; "B_1"]}; {["A_1"; "B_1"; "C_1"]}]).
  - intros X. reflexivity.
  - vm_compute. reflexivity.
Defined.

(** * Further properties of backpropagation *)

Lemma revise_written cont_names r : written_row r → written_row (revise cont_names r).
Proof.
  intros (Hname & Hgroup & Hstatus). unfold revise.
  case_bool_decide; [| done]. split; [done |]. split; [done |].
  simpl. set_solver.
Qed.

Lemma revise_revise names1 names2 r :
  revise names2 (revise names1 r) = revise (names1 ∪ names2) r.
Proof.
  unfold revise. destruct r as [nm g st]. simpl.
  destruct (decide (nm ∈ names1)) as [H1|H1], (decide (nm ∈ names2)) as [H2|H2];
    repeat (case_bool_decide; simpl in *); try done; set_solver.
Qed.

(** X10: backpropagation accumulates: on a table of rows written by
    [tree_to_pdf], a pass with the names [names1] followed by a pass with
    the names [names2] leaves the table that one pass with all the names
    leaves; in particular a second pass with the same names changes
    nothing. *)
Theorem backpropagate_twice (rows : list Row) (names1 names2 : gset string) :
  Forall written_row rows →
  backpropagate_contamination
    (backpropagate_contamination (write_row <$> rows) names1).1 names2
  = backpropagate_contamination (write_row <$> rows) (names1 ∪ names2) ∧
  backpropagate_contamination
    (backpropagate_contamination (write_row <$> rows) names1).1 names1
  = backpropagate_contamination (write_row <$> rows) names1.
Proof.
  intros Hrows. unfold backpropagate_contamination.
  assert (Hrows1 : Forall written_row (revise names1 <$> rows)).
  { apply Forall_fmap. eapply Forall_impl; [exact Hrows |].
    intros r. apply revise_written. }
  rewrite !write_rows_written by done. simpl.
  rewrite !write_rows_written by done. simpl.
  split; apply (f_equal (λ x, (x, Ok ()))), (f_equal (fmap write_row));
    rewrite <- list_fmap_compose; apply list_fmap_ext; intros i r _; simpl.
  - apply revise_revise.
  - rewrite revise_revise. f_equal. set_solver.
Qed.

Lemma backpropagate_twice_witness :
  backpropagate_contamination
    (backpropagate_contamination
       (write_row <$> [ {| row_name := "A a_100@A"; row_group := "Alpha";
                           row_status := "o" |};
                        {| row_name := "X x_0_0_0@X"; row_group := "Alpha";
                           row_status := "p" |} ])
       {["X x_0_0_0@X"]}).1 {["A a_100@A"]}
  = backpropagate_contamination
      (write_row <$> [ {| row_name := "A a_100@A"; row_group := "Alpha";
                          row_status := "o" |};
                       {| row_name := "X x_0_0_0@X"; row_group := "Alpha";
                          row_status := "p" |} ])
      ({["X x_0_0_0@X"]} ∪ {["A a_100@A"]}).
Proof.
  refine (proj1 (backpropagate_twice
           [ {| row_name := "A a_100@A"; row_group := "Alpha"; row_status := "o" |};
             {| row_name := "X x_0_0_0@X"; row_group := "Alpha"; row_status := "p" |} ]
           {["X x_0_0_0@X"]} {["A a_100@A"]} _)).
  repeat constructor; apply (bool_decide_unpack _); vm_compute; exact I.
Defined.

Lemma backpropagate_line_short cont_names line :
  length (PyStr.split TAB line) < 3 →
  backpropagate_line cont_names line = Raise IndexError.
Proof.
  unfold backpropagate_line, item.
  destruct (PyStr.split TAB line) as [|f0 [|f1 [|f2 fs]]]; simpl; (done || lia).
Qed.

Lemma write_rows_app cont_names rows rest file :
  Forall written_row rows →
  write_rows cont_names ((write_row <$> rows) ++ rest) file =
    write_rows cont_names rest (file ++ (write_row <$> (revise cont_names <$> rows))).
Proof.
  intros Hrows. revert file.
  induction Hrows as [|r rows Hr _ IH]; intros file; simpl.
  { by rewrite app_nil_r. }
  rewrite (backpropagate_line_written _ _ Hr), IH.
  by rewrite <- app_assoc.
Qed.

(** X11: a line of the table with fewer than three tab-separated fields
    (an empty line, for one) stops backpropagation with [IndexError], and
    the table file, which was opened for writing, is left with the rows
    that came before that line only: the line and all the rows after it
    are lost. *)
Theorem backpropagate_contamination_short_line
    (rows : list Row) (line : string) (rest : list string) (cont_names : gset string) :
  Forall written_row rows →
  length (PyStr.split TAB line) < 3 →
  backpropagate_contamination ((write_row <$> rows) ++ line :: rest) cont_names
  = (write_row <$> (revise cont_names <$> rows), Raise IndexError).
Proof.
  intros Hrows Hshort. unfold backpropagate_contamination.
  rewrite write_rows_app by done. simpl.
  by rewrite (backpropagate_line_short _ _ Hshort).
Qed.

Lemma backpropagate_contamination_short_line_witness :
  backpropagate_contamination
    ((write_row <$> [ {| row_name := "A a_100@A"; row_group := "Alpha";
                         row_status := "o" |} ])
       ++ nl :: [write_row {| row_name := "X x_0_0_0@X"; row_group := "Alpha";
                              row_status := "p" |}])
    {["X x_0_0_0@X"]}
  = (write_row <$> (revise {["X x_0_0_0@X"]} <$>
                      [ {| row_name := "A a_100@A"; row_group := "Alpha";
                           row_status := "o" |} ]),
     Raise IndexError).
Proof.
  apply (backpropagate_contamination_short_line
           [ {| row_name := "A a_100@A"; row_group := "Alpha"; row_status := "o" |} ]).
  - repeat constructor; apply (bool_decide_unpack _); vm_compute; exact I.
  - vm_compute. lia.
Defined.

(** * Further properties of the neighbourhood test *)





(** * When the contamination pass returns *)



Section PassReturns.
Variable metadata : gmap string TaxonRecord.




End PassReturns.



(** * The loader of the Contamination Directory *)

Lemma contamination_line_fields cont_dict line :
  PyStr.count TAB line ≠ 2 → contamination_line cont_dict line = Raise ValueError.
Proof.
  intros Hc. unfold contamination_line.
  pose proof (PyStrFacts.length_split TAB line) as Hlen.
  destruct (PyStr.split TAB line) as [|f0 [|f1 [|f2 [|f3 fs]]]]; try done.
  simpl in Hlen. lia.
Qed.

Lemma contamination_line_returns cont_dict line :
  PyStr.count TAB line = 2 → ∃ d, contamination_line cont_dict line = Ok d.
Proof.
  intros Hc. unfold contamination_line.
  pose proof (PyStrFacts.length_split TAB line) as Hlen. rewrite Hc in Hlen.
  destruct (PyStr.split TAB line) as [|f0 [|f1 [|f2 [|f3 fs]]]]; try done.
  eauto.
Qed.

(** X15: the loader of the Contamination Directory raises [ValueError]
    at the first line that does not have exactly three tab-separated
    fields, an empty line included, whatever comes after it. *)
Theorem parse_contaminations_bad_line (pre : list string) (bad : string)
    (post : list string) :
  Forall (λ line, PyStr.count TAB line = 2) pre →
  PyStr.count TAB bad ≠ 2 →
  parse_contaminations (pre ++ bad :: post) = Raise ValueError.
Proof.
  intros Hpre Hbad. unfold parse_contaminations.
  generalize (∅ : gmap string (string * string)).
  induction Hpre as [|line pre Hline _ IH]; intros d; simpl app.
  - rewrite foldM_cons. by rewrite contamination_line_fields.
  - rewrite foldM_cons.
    destruct (contamination_line_returns d line Hline) as [d' ->]. simpl.
    apply IH.
Qed.

Lemma parse_contaminations_bad_line_witness :
  parse_contaminations
    ([contamination_row ("X", ("Alpha", "group"))] ++ nl :: [])
  = Raise ValueError.
Proof.
  apply (parse_contaminations_bad_line
           [contamination_row ("X", ("Alpha", "group"))] nl []).
  - repeat constructor.
  - vm_compute. lia.
Defined.

Lemma contamination_line_row cont_dict e :
  contamination_entry_ok e →
  contamination_line cont_dict (contamination_row e) = Ok (<[e.1 := e.2]> cont_dict).
Proof.
  destruct e as [org [tax rank]]. intros (Horg & Htax & Hrank). simpl in *.
  assert (Htab : ∀ x, tab +:+ x = String TAB x) by done.
  unfold contamination_line, contamination_row. simpl fst. simpl snd.
  rewrite !Htab, (split_sep TAB _ _ Horg), (split_sep TAB _ _ Htax).
  assert (Hfield : PyStr.split TAB (rank +:+ nl) = [rank +:+ nl] ∧
                   PyStr.strip (rank +:+ nl) = rank).
  { repeat (apply elem_of_cons in Hrank as [-> | Hrank]; [by vm_compute |]).
    by apply elem_of_nil in Hrank. }
  destruct Hfield as [-> ->]. done.
Qed.

Lemma insert_all_list_to_map (rows : list (string * (string * string)))
    (d : gmap string (string * string)) :
  fold_left (λ d e, <[e.1 := e.2]> d) rows d = list_to_map (reverse rows) ∪ d.
Proof.
  revert d. induction rows as [|e rows IH]; intros d; simpl.
  { by rewrite (left_id_L ∅ (∪)). }
  rewrite IH, reverse_cons, list_to_map_app. simpl.
  rewrite insert_empty, <- (assoc_L (∪)). f_equal.
  by rewrite insert_union_singleton_l.
Qed.

(** X16: read back from a well-formed contamination file, the directory
    holds for each organism the keyword and the rank of the last row of
    that organism, and every rank in it passes the check of the
    neighbourhood test. *)
Theorem parse_contaminations_rows (rows : list (string * (string * string))) :
  Forall contamination_entry_ok rows →
  parse_contaminations (contamination_row <$> rows)
    = Ok (list_to_map (reverse rows)) ∧
  ∀ org ckr, (list_to_map (reverse rows) : gmap string (string * string)) !! org
               = Some ckr →
             valid_rank ckr.2 = true.
Proof.
  intros Hrows. split.
  - unfold parse_contaminations.
    assert (Hgen : ∀ d, foldM contamination_line d (contamination_row <$> rows)
                        = Ok (fold_left (λ d e, <[e.1 := e.2]> d) rows d)).
    { induction Hrows as [|e rows He _ IH]; intros d; [done |].
      rewrite fmap_cons, foldM_cons, (contamination_line_row _ _ He). simpl.
      apply IH. }
    rewrite Hgen, insert_all_list_to_map. by rewrite (right_id_L ∅ (∪)).
  - intros org ckr Hl. apply elem_of_list_to_map_2 in Hl.
    rewrite elem_of_reverse in Hl. rewrite Forall_forall in Hrows.
    destruct (Hrows _ Hl) as (_ & _ & Hrank). simpl in Hrank.
    unfold valid_rank. by apply bool_decide_eq_true.
Qed.

Lemma parse_contaminations_rows_witness :
  parse_contaminations
    (contamination_row <$> [("X", ("Alpha", "group")); ("X", ("Beta", "subtax"))])
  = Ok (list_to_map (reverse [("X", ("Alpha", "group")); ("X", ("Beta", "subtax"))])).
Proof.
  refine (proj1 (parse_contaminations_rows
                   [("X", ("Alpha", "group")); ("X", ("Beta", "subtax"))] _)).
  repeat constructor; simpl; set_solver.
Defined.

(** * The loader of the Taxon Directory *)

Lemma normal_colour_not_placeholder c : lower (normal_colour c) ∉ ["x"; "xx"].
Proof.
  unfold normal_colour. case_bool_decide as Hc; [| done].
  vm_compute lower. set_solver.
Qed.

Lemma metadata_line_Ok st line_ st' :
  metadata_line st line_ = Ok st' →
  st' = st ∨
  ∃ tax rec,
    st'.1 = <[tax := rec]> st.1 ∧
    match st.2 !! group rec with
    | Some c => st'.2 = st.2 ∧ col rec = c
    | None => st'.2 = <[group rec := col rec]> st.2 ∧
              lower (col rec) ∉ ["x"; "xx"]
    end.
Proof.
  unfold metadata_line. destruct (negb _); [| intros [= <-]; by left].
  intros H. inv_Ok H. right.
  destruct (st.2 !! PyStr.strip a0) as [c|] eqn:Hg; injection H as <-; simpl.
  - eexists _, _. split; [done |]. simpl. rewrite Hg. done.
  - eexists _, _. split; [done |]. simpl. rewrite Hg. split; [done |].
    apply normal_colour_not_placeholder.
Qed.

Lemma metadata_line_consistent st line_ st' :
  colours_consistent st → metadata_line st line_ = Ok st' →
  colours_consistent st' ∧ st.2 ⊆ st'.2.
Proof.
  intros [Hcol Hrec] [-> | (tax & rec & H1 & H2)]%metadata_line_Ok; [done |].
  destruct st as [md tc], st' as [md' tc']. simpl in *. subst md'.
  destruct (tc !! group rec) as [c|] eqn:Hg.
  - destruct H2 as [-> Hc]. split; [| done]. split; [done |]. simpl.
    intros tax' rec' [[<- <-] | [_ Hl]]%lookup_insert_Some; [congruence | eauto].
  - destruct H2 as [-> Hc]. split; [| by apply insert_subseteq]. split; simpl.
    + intros g c [[<- <-] | [_ Hl]]%lookup_insert_Some; [done | eauto].
    + intros tax' rec' [[<- <-] | [_ Hl]]%lookup_insert_Some.
      * by rewrite lookup_insert_eq.
      * rewrite lookup_insert_ne; [eauto |]. intros Heq.
        apply Hrec in Hl. rewrite <- Heq in Hl. congruence.
Qed.

Lemma metadata_loop_consistent lines st st' :
  colours_consistent st → foldM metadata_line st lines = Ok st' →
  colours_consistent st' ∧ st.2 ⊆ st'.2.
Proof.
  revert st. induction lines as [|line_ lines IH]; intros st Hst Hf.
  { by injection Hf as <-. }
  rewrite foldM_cons in Hf. apply bind_Ok in Hf as (st1 & H1 & H2).
  destruct (metadata_line_consistent _ _ _ Hst H1) as [Hst1 Hsub1].
  destruct (IH _ Hst1 H2) as [Hst' Hsub]. split; [done |].
  by transitivity st1.2.
Qed.

Lemma input_metadata_loop_white lines md md' :
  foldM input_metadata_line md lines = Ok md' →
  ∀ tax rec, md' !! tax = Some rec → md !! tax = Some rec ∨ col rec = "white".
Proof.
  revert md. induction lines as [|line lines IH]; intros md Hf tax rec Hl.
  { injection Hf as <-. by left. }
  rewrite foldM_cons in Hf. apply bind_Ok in Hf as (md1 & H1 & H2).
  destruct (IH _ H2 _ _ Hl) as [Hl1 | Hw]; [| by right].
  unfold input_metadata_line in H1.
  destruct (negb _); [| injection H1 as <-; by left].
  inv_Ok H1. injection H1 as <-.
  apply lookup_insert_Some in Hl1 as [[_ <-] | [_ Hl1]]; [by right | by left].
Qed.

(** X17: in what the metadata loader returns, every group has one
    colour: no colour of [tax_col] is one of the placeholders [x] and
    [xx] in any letter case, every record read from the metadata file
    has the colour [tax_col] gives its group, and the records read from
    the input metadata file are white. *)
Theorem parse_metadata_colours (metadata_file : list string)
    (input_metadata : option (list string))
    (metadata_comb : gmap string TaxonRecord) (tax_col : gmap string string) :
  parse_metadata metadata_file input_metadata = Ok (metadata_comb, tax_col) →
  (∀ g c, tax_col !! g = Some c → lower c ∉ ["x"; "xx"]) ∧
  (∀ tax rec, metadata_comb !! tax = Some rec →
     tax_col !! group rec = Some (col rec) ∨
     (is_Some input_metadata ∧ col rec = "white")).
Proof.
  unfold parse_metadata. intros (st & Hst & Hrun)%bind_Ok.
  destruct (metadata_loop_consistent metadata_file (∅, ∅) st) as [[Hcol Hrec] _];
    [| done |].
  { split; intros ? ? Hl; simpl in Hl; by rewrite lookup_empty in Hl. }
  destruct input_metadata as [file|].
  - apply bind_Ok in Hrun as (md & Hmd & [= <- <-]). split; [done |].
    intros tax rec Hl.
    destruct (input_metadata_loop_white _ _ _ Hmd _ _ Hl) as [Hl' | Hw].
    + left. by apply Hrec in Hl'.
    + right. split; [by eexists | done].
  - injection Hrun as ->. simpl in *. split; [done |]. intros tax rec Hl.
    left. exact (Hrec tax rec Hl).
Qed.

Lemma parse_metadata_colours_witness :
  (∀ g c, Files.tax_col !! g = Some c → lower c ∉ ["x"; "xx"]) ∧
  (∀ tax rec, Files.metadata_comb !! tax = Some rec →
     Files.tax_col !! group rec = Some (col rec) ∨
     (is_Some (None : option (list string)) ∧ col rec = "white")).
Proof.
  apply (parse_metadata_colours Files.metadata_file None).
  vm_compute. reflexivity.
Defined.

Lemma metadata_line_fields st line_ f0 f1 f2 f3 f4 fs :
  PyStr.contains "Full Name" line_ = false →
  PyStr.split TAB line_ = f0 :: f1 :: f2 :: f3 :: f4 :: fs →
  ∃ md, metadata_line st line_ =
          Ok (md, match st.2 !! PyStr.strip f2 with
                  | Some c => st.2
                  | None => <[PyStr.strip f2 := normal_colour (PyStr.strip f4)]> st.2
                  end).
Proof.
  intros Hhead Hsplit. unfold metadata_line. rewrite Hhead, Hsplit. simpl.
  destruct (st.2 !! PyStr.strip f2); eauto.
Qed.

(** X18: the first line of a group fixes its colour: when a line with at
    least five fields is read, its group keeps the colour it already has,
    or else takes the line's own colour with the placeholders turned to
    white, and that colour is the one the loader returns for the group,
    whatever lines follow. *)
Theorem parse_metadata_first_colour
    (before : list string) (line_ : string) (after : list string)
    (input_metadata : option (list string))
    (f0 f1 f2 f3 f4 : string) (fs : list string)
    (metadata1 metadata_comb : gmap string TaxonRecord)
    (tax_col1 tax_col : gmap string string) :
  parse_metadata before None = Ok (metadata1, tax_col1) →
  PyStr.contains "Full Name" line_ = false →
  PyStr.split TAB line_ = f0 :: f1 :: f2 :: f3 :: f4 :: fs →
  parse_metadata (before ++ line_ :: after) input_metadata
    = Ok (metadata_comb, tax_col) →
  tax_col !! PyStr.strip f2 =
    Some (match tax_col1 !! PyStr.strip f2 with
          | Some c => c
          | None => normal_colour (PyStr.strip f4)
          end).
Proof.
  unfold parse_metadata. intros (st1 & Hst1 & [= ->])%bind_Ok Hhead Hsplit.
  intros (st & Hst & Hrun)%bind_Ok.
  assert (Htc : st.2 = tax_col).
  { destruct input_metadata; [| by injection Hrun as ->].
    by apply bind_Ok in Hrun as (md & _ & [= _ <-]). }
  subst tax_col. clear Hrun.
  rewrite foldM_app, Hst1 in Hst. cbn [bind] in Hst. rewrite foldM_cons in Hst.
  apply bind_Ok in Hst as (st2 & Hline & Hafter).
  destruct (metadata_line_fields (metadata1, tax_col1) _ _ _ _ _ _ _ Hhead Hsplit)
    as [md Hline']. rewrite Hline' in Hline. injection Hline as <-.
  simpl in Hafter.
  assert (Hcons : ∀ lines s s', foldM metadata_line s lines = Ok s' → s.2 ⊆ s'.2).
  { induction lines as [|l lines IH]; intros s s' Hf; [by injection Hf as <- |].
    rewrite foldM_cons in Hf. apply bind_Ok in Hf as (s1 & H1 & H2).
    transitivity s1.2; [| by eapply IH].
    apply metadata_line_Ok in H1 as [-> | (tax & rec & _ & H1)]; [done |].
    destruct (s.2 !! group rec) eqn:Hg; destruct H1 as [-> _]; [done |].
    by apply insert_subseteq. }
  apply Hcons in Hafter. simpl in Hafter.
  eapply lookup_weaken; [| exact Hafter].
  destruct (tax_col1 !! PyStr.strip f2) eqn:Hg; [done |].
  by rewrite lookup_insert_eq.
Qed.

Lemma parse_metadata_first_colour_witness :
  Files.tax_col !! PyStr.strip "Alpha" =
    Some (match (∅ : gmap string string) !! PyStr.strip "Alpha" with
          | Some c => c
          | None => normal_colour (PyStr.strip "X")
          end).
Proof.
  apply (parse_metadata_first_colour
           [Files.tsv ["Unique ID"; "Full Name"; "Higher Taxonomy";
                       "Lower Taxonomy"; "Color"]]
           (Files.tsv ["A"; "A a"; "Alpha"; "sa"; "X"])
           [Files.tsv ["B"; "B b"; "Beta"; "sb"; "blue"];
            Files.tsv ["X"; "X x"; "Alpha"; "sx"; "red"]]
           None "A" "A a" "Alpha" "sa" (String "X" nl) [] ∅ Files.metadata_comb).
  - vm_compute. reflexivity.
  - vm_compute. reflexivity.
  - vm_compute. reflexivity.
  - vm_compute. reflexivity.
Defined.

Lemma metadata_line_short st line_ :
  PyStr.contains "Full Name" line_ = false →
  length (PyStr.split TAB line_) < 5 →
  metadata_line st line_ = Raise IndexError.
Proof.
  intros Hhead Hlen. unfold metadata_line, item. rewrite Hhead. simpl.
  destruct (PyStr.split TAB line_) as [|f0 [|f1 [|f2 [|f3 [|f4 fs]]]]];
    simpl in *; (done || lia).
Qed.

(** X19: the metadata loader raises [IndexError] at the first line that
    has fewer than five tab-separated fields and does not hold the words
    [Full Name], an empty line included. *)
Theorem parse_metadata_short_line
    (before : list string) (line_ : string) (after : list string)
    (input_metadata : option (list string))
    (st : gmap string TaxonRecord * gmap string string) :
  parse_metadata before None = Ok st →
  PyStr.contains "Full Name" line_ = false →
  length (PyStr.split TAB line_) < 5 →
  parse_metadata (before ++ line_ :: after) input_metadata = Raise IndexError.
Proof.
  unfold parse_metadata. intros (st1 & Hst1 & [= ->])%bind_Ok Hhead Hshort.
  rewrite foldM_app, Hst1. cbn [bind]. rewrite foldM_cons.
  by rewrite (metadata_line_short _ _ Hhead Hshort).
Qed.

Lemma parse_metadata_short_line_witness :
  parse_metadata (Files.metadata_file ++ nl :: []) None = Raise IndexError.
Proof.
  apply (parse_metadata_short_line Files.metadata_file nl [] None
           (Files.metadata_comb, Files.tax_col)).
  - vm_compute. reflexivity.
  - reflexivity.
  - vm_compute. lia.
Defined.

(** * The classification table of [tree_to_pdf] *)

Lemma inner_leaves_app l1 l2 :
  inner_leaves (l1 ++ l2) = inner_leaves l1 ++ inner_leaves l2.
Proof. apply flat_map_app. Qed.

Lemma inner_leaves_children ups ch :
  Forall (λ c, ∀ ups, ups ≠ [] →
               inner_leaves (traverse_from ups c) = get_leaf_names c) ch →
  ups ≠ [] →
  inner_leaves (flat_map (traverse_from ups) ch) = flat_map get_leaf_names ch.
Proof.
  intros Hch Hups. induction Hch as [|c ch Hc _ IH]; [done |].
  cbn [flat_map]. by rewrite inner_leaves_app, Hc, IH.
Qed.

(** Below the root, the leaves met by the traversal are the leaves of the
    node, in the order of [get_leaf_names]. *)
Lemma inner_leaves_below ups n :
  ups ≠ [] → inner_leaves (traverse_from ups n) = get_leaf_names n.
Proof.
  revert ups. induction n as [nm s ch IH] using TreeNode_induction.
  intros ups Hups. destruct ups as [|u ups]; [done |].
  destruct ch as [|c ch]; [done |].
  cbn [traverse_from]. change (inner_leaves (?x :: ?l)) with (inner_leaves [x] ++ inner_leaves l).
  rewrite (inner_leaves_children _ _ IH); done.
Qed.

Lemma inner_leaves_traverse t :
  is_leaf t = false → inner_leaves (traverse t) = get_leaf_names t.
Proof.
  destruct t as [nm s ch]. unfold is_leaf, traverse. simpl children.
  destruct ch as [|c ch]; [done |]. intros _.
  cbn [traverse_from]. change (inner_leaves (?x :: ?l)) with (inner_leaves [x] ++ inner_leaves l).
  rewrite inner_leaves_children; [done | | done].
  apply Forall_forall. intros c' _ ups. apply inner_leaves_below.
Qed.

Section PdfTable.
Variable metadata : gmap string TaxonRecord.
Variable t : TreeNode.
Variable top_ranked : gset string.

(** The row of a leaf depends on the contaminations only by its status. *)
Lemma leaf_row_status c top c1 top1 nm r :
  leaf_row metadata c top nm = Some r →
  leaf_row metadata c1 top1 nm =
    Some {| row_name := row_name r; row_group := row_group r;
            row_status := leaf_status c1 top1 nm |}.
Proof.
  unfold leaf_row. destruct (PyStr.count "_" nm =? 4).
  - destruct (PyStr.split "_" nm) as [|f0 [|f1 [|f2 [|f3 [|f4 [|f5 fs]]]]]]; try done.
    destruct (metadata !! f0) as [rec|]; [| done]. by intros [= <-].
  - destruct (PyStr.split "_" nm) as [|f0 [|f1 [|f2 fs]]]; try done.
    destruct (metadata !! _) as [rec|]; [| done]. by intros [= <-].
Qed.

(** Lines 209-266: a leaf other than the root gives one row, or raises. *)
Lemma pdf_step_leaf c b st n u ups :
  is_leaf n = true →
  (leaf_row metadata c top_ranked (name n) = None ∧
   ∃ e, pdf_step metadata t c top_ranked b st (n :: u :: ups) = Raise e) ∨
  (∃ r, leaf_row metadata c top_ranked (name n) = Some r ∧
        pdf_step metadata t c top_ranked b st (n :: u :: ups) =
          Ok (table_write b st (write_row r))).
Proof.
  intros Hleaf. unfold pdf_step, leaf_row, leaf_status.
  cbn [is_root up tl negb]. rewrite Hleaf. cbn [negb].
  destruct (PyStr.count "_" (name n) =? 4) eqn:Hc.
  - apply Nat.eqb_eq in Hc. pose proof (PyStrFacts.length_split "_" (name n)) as Hlen.
    rewrite Hc in Hlen.
    destruct (PyStr.split "_" (name n)) as [|f0 [|f1 [|f2 [|f3 [|f4 [|f5 fs]]]]]];
      try discriminate Hlen.
    unfold item_neg, item, getitem. cbn.
    destruct (metadata !! f0) as [rec|]; cbn; [| left; eauto].
    right. eexists. split; [done |].
    repeat case_bool_decide; reflexivity.
  - destruct (PyStr.contains ".." (name n)).
    + destruct (PyStr.split "_" (name n)) as [|f0 [|f1 [|f2 fs]]];
        try (left; by eauto).
      unfold getitem. destruct (metadata !! _) as [rec|]; cbn; [| left; eauto].
      right. eexists. split; [done |]. reflexivity.
    + destruct (PyStr.split "_" (name n)) as [|f0 [|f1 [|f2 fs]]];
        try (left; by eauto).
      unfold getitem. destruct (metadata !! _) as [rec|]; cbn; [| left; eauto].
      right. eexists. split; [done |]. reflexivity.
Qed.

Lemma pdf_step_Ok c b0 tbl k node tbl' k' :
  pdf_step metadata t c top_ranked b0 (tbl, k) node = Ok (tbl', k') →
  ∃ rows,
    tbl' = (if b0 then tbl else tbl ++ (write_row <$> rows)) ∧
    Forall2 (λ nm r, leaf_row metadata c top_ranked nm = Some r)
            (inner_leaves [node]) rows ∧
    k' = k + (if is_suspicious metadata t node then 1 else 0) ∧
    (is_supported t node = true →
     is_Some (clade_groups metadata (clade_of node))) ∧
    ∀ c1 b tbl1, ∃ rows1,
      Forall2 (λ nm r, leaf_row metadata c1 top_ranked nm = Some r)
              (inner_leaves [node]) rows1 ∧
      pdf_step metadata t c1 top_ranked b (tbl1, k) node =
        Ok (if b then tbl1 else tbl1 ++ (write_row <$> rows1), k').
Proof.
  intros Hstep. destruct node as [|n ups]; [done |].
  destruct ups as [|u ups].
  { injection Hstep as <- <-. exists []. simpl. rewrite app_nil_r.
    split; [by destruct b0 |]. split; [constructor |]. split; [| split].
    - unfold is_suspicious, is_supported. simpl. lia.
    - done.
    - intros c1 b tbl1. exists []. split; [constructor |].
      destruct b; simpl; by rewrite ?app_nil_r. }
  unfold pdf_step in Hstep |- *. unfold is_suspicious, is_supported, clade_of.
  cbn [is_root up tl negb] in Hstep |- *.
  unfold inner_leaves. cbn [flat_map]. rewrite app_nil_r.
  destruct (is_leaf n) eqn:Hleaf; cbn [negb andb] in Hstep |- *.
  2:{ exists [].
      assert (Hend : ∀ (b : bool) (tbl1 : list string),
                 (if b then tbl1 else tbl1 ++ (write_row <$> [])) = tbl1).
      { intros [] tbl1; [done | apply app_nil_r]. }
      destruct (Qle_bool 70 (support n)); cbn [andb].
      2:{ injection Hstep as <- <-.
          split; [by rewrite Hend |]. split; [constructor |]. split; [lia |].
          split; [done |]. intros c1 b tbl1. exists [].
          split; [constructor |]. by rewrite Hend. }
      apply bind_Ok in Hstep as (taxons & Htax & Hstep). rewrite Htax.
      cbn [bind fst snd] in Hstep |- *.
      unfold node_taxons in Htax. unfold is_mixed.
      destruct (1 <? length (get_leaf_names n)) eqn:Hlen.
      - apply groups_loop_Ok in Htax. rewrite Htax, andb_true_r.
        rewrite (andb_comm (1 <? size taxons)) in Hstep |- *.
        destruct ((len_node n <? len_node t - len_node n)%Z && (1 <? size taxons));
          injection Hstep as <- <-.
        + split; [by rewrite Hend |]. split; [constructor |]. split; [lia |].
          split; [by eauto |]. intros c1 b tbl1. exists [].
          split; [constructor |]. by rewrite Hend.
        + split; [by rewrite Hend |]. split; [constructor |]. split; [lia |].
          split; [by eauto |]. intros c1 b tbl1. exists [].
          split; [constructor |]. by rewrite Hend.
      - injection Htax as <-. rewrite size_empty in Hstep |- *.
        rewrite andb_false_r. cbn [Nat.ltb Nat.leb andb] in Hstep |- *.
        injection Hstep as <- <-.
        split; [by rewrite Hend |]. split; [constructor |]. split; [lia |].
        split; [done |]. intros c1 b tbl1. exists [].
        split; [constructor |]. by rewrite Hend. }
  destruct (pdf_step_leaf c b0 (tbl, k) n u ups Hleaf) as [[_ [e He]] | (r & Hr & Hrun)];
    unfold pdf_step in He || unfold pdf_step in Hrun;
    cbn [is_root up tl negb] in *; rewrite Hleaf in *; cbn [negb] in *.
  { congruence. }
  rewrite Hrun in Hstep. unfold table_write in Hstep.
  assert (tbl' = (if b0 then tbl else tbl ++ [write_row r]) ∧ k' = k) as [-> ->].
  { by destruct b0; injection Hstep as <- <-. }
  clear Hstep.
  exists [r]. split; [done |]. split; [by repeat constructor |].
  split; [cbn; lia |]. split; [done |]. intros c1 b tbl1.
  pose proof (leaf_row_status c top_ranked c1 top_ranked _ _ Hr) as Hr1.
  destruct (pdf_step_leaf c1 b (tbl1, k) n u ups Hleaf) as [[Hnone _] | (r1 & Hr1' & Hrun1)];
    [congruence |].
  unfold pdf_step in Hrun1.
  cbn [is_root up tl negb] in Hrun1; rewrite Hleaf in Hrun1; cbn [negb] in Hrun1.
  exists [r1]. split; [by repeat constructor |]. rewrite Hrun1. by destruct b.
Qed.

(** The loop of lines 176-267 in writing mode: the rows written, the
    counter, the lookups that went well, and the same loop with other
    contaminations, in either mode. *)
Lemma pdf_loop_Ok c b0 nodes tbl k tbl' k' :
  foldM (pdf_step metadata t c top_ranked b0) (tbl, k) nodes = Ok (tbl', k') →
  ∃ rows,
    tbl' = (if b0 then tbl else tbl ++ (write_row <$> rows)) ∧
    Forall2 (λ nm r, leaf_row metadata c top_ranked nm = Some r)
            (inner_leaves nodes) rows ∧
    k' = k + length (List.filter (is_suspicious metadata t) nodes) ∧
    Forall (λ node, is_supported t node = true →
                    is_Some (clade_groups metadata (clade_of node))) nodes ∧
    ∀ c1 b tbl1, ∃ rows1,
      Forall2 (λ nm r, leaf_row metadata c1 top_ranked nm = Some r)
              (inner_leaves nodes) rows1 ∧
      foldM (pdf_step metadata t c1 top_ranked b) (tbl1, k) nodes =
        Ok (if b then tbl1 else tbl1 ++ (write_row <$> rows1), k').
Proof.
  revert tbl k. induction nodes as [|node nodes IH]; intros tbl k Hrun.
  { injection Hrun as <- <-. exists []. cbn. rewrite app_nil_r.
    split; [by destruct b0 |]. split; [constructor |]. split; [lia |].
    split; [constructor |]. intros c1 b tbl1. exists [].
    split; [constructor |]. destruct b; by rewrite ?app_nil_r. }
  rewrite foldM_cons in Hrun. apply bind_Ok in Hrun as ([tbl1 k1] & Hstep & Hrun).
  apply pdf_step_Ok in Hstep as (rows1 & -> & Hrows1 & -> & Hsup1 & Hother1).
  apply IH in Hrun as (rows2 & -> & Hrows2 & -> & Hsup2 & Hother2).
  exists (rows1 ++ rows2).
  split; [destruct b0; [done | by rewrite fmap_app, app_assoc] |].
  split; [| split; [| split]].
  - change (node :: nodes) with ([node] ++ nodes). rewrite inner_leaves_app.
    by apply Forall2_app.
  - cbn [List.filter]. destruct (is_suspicious metadata t node); cbn; lia.
  - by constructor.
  - intros c1 b tbl0.
    destruct (Hother1 c1 b tbl0) as (r1 & Hr1 & Hrun1).
    destruct (Hother2 c1 b (if b then tbl0 else tbl0 ++ (write_row <$> r1)))
      as (r2 & Hr2 & Hrun2).
    exists (r1 ++ r2). split.
    + change (node :: nodes) with ([node] ++ nodes). rewrite inner_leaves_app.
      by apply Forall2_app.
    + rewrite foldM_cons, Hrun1. cbn [bind]. rewrite Hrun2.
      destruct b; [done |]. by rewrite fmap_app, app_assoc.
Qed.

End PdfTable.

(** What [tree_to_pdf] did when it returns: the candidates it chose, the
    loop and the title. *)
Lemma tree_to_pdf_Ok metadata tree_base t0 t c b st :
  tree_to_pdf metadata tree_base t0 t c b = Ok st ↔
  ∃ top_ranked,
    get_best_candidates t0 = Ok top_ranked ∧
    foldM (pdf_step metadata t c top_ranked b) ([], 0) (traverse t) = Ok st ∧
    length (PyStr.split "_" tree_base) = 2.
Proof.
  unfold tree_to_pdf. rewrite bind_Ok. setoid_rewrite bind_Ok.
  split.
  - intros (top & Htop & st1 & Hloop & Hbase). exists top.
    destruct (PyStr.split "_" tree_base) as [|f0 [|f1 [|f2 fs]]]; try done.
    by injection Hbase as <-.
  - intros (top & Htop & Hloop & Hbase). exists top. split; [done |].
    exists st. split; [done |].
    by destruct (PyStr.split "_" tree_base) as [|f0 [|f1 [|f2 fs]]].
Qed.

(** A leaf name that gives a row has one underscore, or four. *)
Lemma leaf_row_underscores metadata c top nm r :
  leaf_row metadata c top nm = Some r →
  PyStr.count "_" nm = 4 ∨ PyStr.count "_" nm = 1.
Proof.
  unfold leaf_row. destruct (PyStr.count "_" nm =? 4) eqn:Hc.
  { left. by apply Nat.eqb_eq. }
  pose proof (PyStrFacts.length_split "_" nm) as Hlen.
  destruct (PyStr.split "_" nm) as [|f0 [|f1 [|f2 fs]]]; try done.
  intros _. right. simpl in Hlen. lia.
Qed.

(** X20: when [tree_to_pdf] returns in writing mode on a tree whose root
    is not a leaf, the table holds one row for each leaf of the tree, in
    the order of the leaves: the row [leaf_row] makes of the leaf name with
    the best candidates of the tree; and every leaf name of the tree has
    exactly one underscore, or four. *)
Theorem tree_to_pdf_rows
    (metadata : gmap string TaxonRecord) (tree_base : string) (t0 t : TreeNode)
    (contaminations : gset string) (table : list string) (sus_clades : nat) :
  is_leaf t = false →
  tree_to_pdf metadata tree_base t0 t contaminations false
    = Ok (table, sus_clades) →
  ∃ top_ranked rows,
    get_best_candidates t0 = Ok top_ranked ∧
    table = write_row <$> rows ∧
    Forall2 (λ nm r, leaf_row metadata contaminations top_ranked nm = Some r)
            (get_leaf_names t) rows ∧
    ∀ nm, nm ∈ get_leaf_names t →
          PyStr.count "_" nm = 4 ∨ PyStr.count "_" nm = 1.
Proof.
  intros Hroot (top & Htop & Hloop & _)%tree_to_pdf_Ok.
  apply pdf_loop_Ok in Hloop as (rows & -> & Hrows & _).
  rewrite (inner_leaves_traverse _ Hroot) in Hrows.
  exists top, rows. split; [done |]. split; [done |]. split; [done |].
  intros nm Hnm.
  destruct (proj1 (list_elem_of_lookup _ _) Hnm) as [i Hi].
  destruct (Forall2_lookup_l _ _ _ _ _ Hrows Hi) as (r & _ & Hr).
  by apply leaf_row_underscores in Hr.
Qed.

Lemma tree_to_pdf_rows_witness :
  ∃ top_ranked rows,
    get_best_candidates Files.tree_mixed = Ok top_ranked ∧
    write_row <$> Files.rows_mixed "o" = write_row <$> rows ∧
    Forall2 (λ nm r, leaf_row Sample.metadata ∅ top_ranked nm = Some r)
            (get_leaf_names Files.tree_mixed) rows ∧
    ∀ nm, nm ∈ get_leaf_names Files.tree_mixed →
          PyStr.count "_" nm = 4 ∨ PyStr.count "_" nm = 1.
Proof.
  apply (tree_to_pdf_rows Sample.metadata "gene_100" Files.tree_mixed
           Files.tree_mixed ∅ (write_row <$> Files.rows_mixed "o") 1).
  - reflexivity.
  - vm_compute. reflexivity.
Defined.

(** X21: the number of suspicious clades [tree_to_pdf] puts in the title
    is the number of clades [suspicious_clades] returns for the same
    rooted tree, and [suspicious_clades] returns whenever [tree_to_pdf]
    does. *)
Theorem tree_to_pdf_counts_suspicious_clades
    (metadata : gmap string TaxonRecord) (tree_base : string) (t0 t : TreeNode)
    (contaminations : gset string) (backpropagion : bool)
    (table : list string) (sus_clades : nat) :
  tree_to_pdf metadata tree_base t0 t contaminations backpropagion
    = Ok (table, sus_clades) →
  ∃ suspicious,
    suspicious_clades metadata t = Ok suspicious ∧
    length suspicious = sus_clades.
Proof.
  intros (top & Htop & Hloop & _)%tree_to_pdf_Ok.
  apply pdf_loop_Ok in Hloop as (rows & _ & _ & -> & Hsup & _).
  unfold suspicious_clades. rewrite supported_loop_spec. cbn [app].
  destruct (suspicious_loop_returns metadata
              (clade_of <$> List.filter (is_supported t) (traverse t)) [])
    as [suspicious Hsus].
  { apply Forall_fmap, Forall_forall. intros node Hnode.
    apply list_elem_of_In, filter_In in Hnode as [Hnode Hs].
    apply list_elem_of_In in Hnode. rewrite Forall_forall in Hsup.
    by apply Hsup. }
  exists suspicious. split; [done |].
  apply suspicious_loop_Ok in Hsus as [-> _]. cbn [app].
  rewrite filter_fmap_clade, length_fmap. done.
Qed.

Lemma tree_to_pdf_counts_suspicious_clades_witness :
  ∃ suspicious,
    suspicious_clades Sample.metadata Files.tree_mixed = Ok suspicious ∧
    length suspicious = 1.
Proof.
  apply (tree_to_pdf_counts_suspicious_clades Sample.metadata "gene_100"
           Files.tree_mixed Files.tree_mixed ∅ false
           (write_row <$> Files.rows_mixed "o") 1).
  vm_compute. reflexivity.
Defined.

(** X22: whether [tree_to_pdf] returns, and the number of suspicious
    clades it counts, depend neither on the contaminations nor on the
    mode; in backpropagation mode it writes no row, in writing mode one
    row for each leaf met below the root. *)
Theorem tree_to_pdf_mode_independent
    (metadata : gmap string TaxonRecord) (tree_base : string) (t0 t : TreeNode)
    (contaminations : gset string) (backpropagion : bool)
    (table : list string) (sus_clades : nat)
    (contaminations1 : gset string) (backpropagion1 : bool) :
  tree_to_pdf metadata tree_base t0 t contaminations backpropagion
    = Ok (table, sus_clades) →
  ∃ table1,
    tree_to_pdf metadata tree_base t0 t contaminations1 backpropagion1
      = Ok (table1, sus_clades) ∧
    length table1 =
      if backpropagion1 then 0 else length (inner_leaves (traverse t)).
Proof.
  intros (top & Htop & Hloop & Hbase)%tree_to_pdf_Ok.
  apply pdf_loop_Ok in Hloop as (_ & _ & _ & _ & _ & Hother).
  destruct (Hother contaminations1 backpropagion1 []) as (rows1 & Hrows1 & Hrun1).
  eexists. split.
  - apply tree_to_pdf_Ok. exists top. by rewrite Hrun1.
  - destruct backpropagion1; [done |]. cbn [app].
    rewrite length_fmap. symmetry. by eapply Forall2_length.
Qed.

Lemma tree_to_pdf_mode_independent_witness :
  ∃ table1,
    tree_to_pdf Sample.metadata "gene_100" Files.tree_mixed Files.tree_mixed
      {["X_q1_h1_r1x_b"]} true = Ok (table1, 1) ∧
    length table1 = 0.
Proof.
  apply (tree_to_pdf_mode_independent Sample.metadata "gene_100"
           Files.tree_mixed Files.tree_mixed ∅ false
           (write_row <$> Files.rows_mixed "o") 1 {["X_q1_h1_r1x_b"]} true).
  vm_compute. reflexivity.
Defined.

(** ** Rows that are read back as they were written *)

Lemma count_append c s1 s2 :
  PyStr.count c (s1 +:+ s2) = PyStr.count c s1 + PyStr.count c s2.
Proof. induction s1 as [|a s1 IH]; simpl; [done |]. rewrite IH. lia. Qed.

Lemma count_split c sep s f :
  f ∈ PyStr.split sep s → PyStr.count c f ≤ PyStr.count c s.
Proof.
  revert f. induction s as [|a s IH]; intros f; simpl.
  { by intros ->%list_elem_of_singleton. }
  destruct (Ascii.eqb a sep).
  - intros [-> | Hf]%elem_of_cons; simpl; [lia |]. apply IH in Hf. lia.
  - destruct (PyStr.split sep s) as [|g gs].
    + intros ->%list_elem_of_singleton. simpl. lia.
    + intros [-> | Hf]%elem_of_cons; simpl.
      * pose proof (IH g ltac:(left)). lia.
      * pose proof (IH f ltac:(by right)). lia.
Qed.

Lemma count_split_head c sep s :
  PyStr.count c (PyStr.split_head sep s) ≤ PyStr.count c s.
Proof.
  induction s as [|a s IH]; simpl.
  { destruct (PyStr.startswith sep ""); simpl; lia. }
  destruct (PyStr.startswith sep (String a s)); simpl; lia.
Qed.

Lemma plain_append s1 s2 : plain s1 → plain s2 → plain (s1 +:+ s2).
Proof.
  intros (H1 & H2 & H3) (H1' & H2' & H3'). unfold plain.
  rewrite !count_append. lia.
Qed.

Lemma plain_field sep s f : plain s → f ∈ PyStr.split sep s → plain f.
Proof.
  intros (H1 & H2 & H3) Hf. unfold plain.
  pose proof (count_split TAB _ _ _ Hf). pose proof (count_split NL _ _ _ Hf).
  pose proof (count_split CR _ _ _ Hf). lia.
Qed.

Lemma leaf_status_written c top nm : leaf_status c top nm ∈ ["o"; "p"; "d"].
Proof.
  unfold leaf_status. destruct (PyStr.count "_" nm =? 4).
  - repeat case_bool_decide; set_solver.
  - destruct (PyStr.contains ".." nm); set_solver.
Qed.

(** The row of a leaf whose name holds no tab and no line break, as the
    fields of the Taxon Directory do, is read back as it was written. *)
Lemma leaf_row_written metadata c top nm r :
  plain nm →
  (∀ org rec, metadata !! org = Some rec → plain (full rec) ∧ plain (group rec)) →
  leaf_row metadata c top nm = Some r →
  written_row r.
Proof.
  intros Hnm Hmeta Hr.
  assert (Hfield : ∀ f, f ∈ PyStr.split "_" nm → plain f).
  { intros f. by apply plain_field. }
  assert (Hlit : plain "_" ∧ plain "@") by (by vm_compute).
  destruct Hlit as [Hu Hat].
  unfold leaf_row in Hr. destruct (PyStr.count "_" nm =? 4).
  - destruct (PyStr.split "_" nm) as [|f0 [|f1 [|f2 [|f3 [|f4 [|f5 fs]]]]]]; try done.
    destruct (metadata !! f0) as [rec|] eqn:Hrec; [| done].
    injection Hr as <-. destruct (Hmeta _ _ Hrec) as [Hfull Hgroup].
    split; [| split; [done | apply leaf_status_written]]. cbn [row_name].
    repeat apply plain_append; try done; apply Hfield; set_solver.
  - destruct (PyStr.split "_" nm) as [|f0 [|f1 [|f2 fs]]]; try done.
    destruct (metadata !! _) as [rec|] eqn:Hrec; [| done].
    injection Hr as <-. destruct (Hmeta _ _ Hrec) as [Hfull Hgroup].
    split; [| split; [done | apply leaf_status_written]]. cbn [row_name].
    repeat apply plain_append; try done; apply Hfield; set_solver.
Qed.

(** ** The display names of the contamination pass *)

Section ContaminationNames.
Variable metadata : gmap string TaxonRecord.
Variable cont_dict : gmap string (string * string).

Lemma contamination_step_names st node st' :
  contamination_step metadata cont_dict st node = Ok st' →
  names_of metadata st → names_of metadata st'.
Proof.
  unfold contamination_step. destruct node as [|n ups]; [done |].
  destruct (is_leaf n); [| by intros [= <-]].
  destruct (PyStr.count "_" (name n) =? 4) eqn:Hc; [| by intros [= <-]].
  pose proof (PyStrFacts.length_split "_" (name n)) as Hlen.
  apply Nat.eqb_eq in Hc as Hc'. rewrite Hc' in Hlen.
  assert (Hd : ∀ rec,
             metadata !! PyStr.item0 (PyStr.split "_" (name n)) = Some rec →
             ∀ q3 q2 q1,
               item_neg (PyStr.split "_" (name n)) 3 = Ok q3 →
               item_neg (PyStr.split "_" (name n)) 2 = Ok q2 →
               item_neg (PyStr.split "_" (name n)) 1 = Ok q1 →
               display_name metadata (name n) =
                 Some (full rec +:+ "_" +:+ (q3 +:+ "_" +:+ q2 +:+ "_" +:+ q1)
                         +:+ "@" +:+ PyStr.item0 (PyStr.split "_" (name n)))).
  { unfold display_name, leaf_row. rewrite Hc.
    destruct (PyStr.split "_" (name n)) as [|f0 [|f1 [|f2 [|f3 [|f4 [|f5 fs]]]]]];
      try discriminate Hlen.
    cbn. intros rec -> q3 q2 q1 [= <-] [= <-] [= <-]. done. }
  intros Hstep Hst. inv_Ok Hstep. apply getitem_Ok in Ha2.
  specialize (Hd _ Ha2 _ _ _ Ha Ha0 Ha1).
  case_bool_decide; [| by injection Hstep as <-].
  inv_Ok Hstep. destruct a3; injection Hstep as <-; [| done].
  intros d. cbn [fst snd]. rewrite elem_of_union, elem_of_singleton, (Hst d).
  split.
  - intros [(nm & Hnm & Hdn) | ->].
    + exists nm. split; [set_solver | done].
    + exists (name n). split; [set_solver | done].
  - intros (nm & [Hnm | ->%elem_of_singleton]%elem_of_union & Hdn).
    + left. eauto.
    + right. congruence.
Qed.

Lemma contamination_loop_names l st st' :
  foldM (contamination_step metadata cont_dict) st l = Ok st' →
  names_of metadata st → names_of metadata st'.
Proof.
  revert st. induction l as [|node l IH]; intros st Hf Hst.
  { by injection Hf as <-. }
  rewrite foldM_cons in Hf. apply bind_Ok in Hf as (st1 & H1 & H2).
  eapply IH; [exact H2 |]. by eapply contamination_step_names.
Qed.

End ContaminationNames.

Lemma Forall2_fmap_eq {A B} (P Q : A → B → Prop) (f : B → B) l rs rs' :
  Forall2 P l rs → Forall2 Q l rs' →
  (∀ x r r', x ∈ l → P x r → Q x r' → r' = f r) →
  rs' = f <$> rs.
Proof.
  intros HP. revert rs'. induction HP as [|x r l rs Hx _ IH]; intros rs' HQ Hf.
  { by apply Forall2_nil_inv_l in HQ as ->. }
  apply Forall2_cons_inv_l in HQ as (r' & rs'' & Hr' & HQ & ->).
  cbn. f_equal.
  - apply (Hf x); [left | done | done].
  - apply IH; [done |]. intros y s s' Hy. apply Hf. by right.
Qed.

(** X23: backpropagation after a first run gives the table of one run
    with all the contaminations.  When a table was written by
    [tree_to_pdf] with the contaminations [contaminations0], the
    contamination pass on the same rooted tree returns, the leaf names and
    the names and groups of the Taxon Directory hold no tab and no line
    break, and no leaf outside the new contaminations shares its display
    name with one of them, then [backpropagate_contamination] ends
    normally and leaves the table [tree_to_pdf] writes for the union of
    the two sets of contaminations. *)
Theorem backpropagate_after_tree_to_pdf
    (metadata : gmap string TaxonRecord) (tree_base : string) (t0 t : TreeNode)
    (cont_dict : gmap string (string * string))
    (contaminations0 : gset string) (table : list string) (sus_clades : nat)
    (contaminations cont_table_name : gset string) :
  (∀ nm, nm ∈ get_leaf_names t → plain nm) →
  (∀ org rec, metadata !! org = Some rec → plain (full rec) ∧ plain (group rec)) →
  tree_to_pdf metadata tree_base t0 t contaminations0 false
    = Ok (table, sus_clades) →
  collect_contaminations metadata t cont_dict
    = Ok (contaminations, cont_table_name) →
  (∀ nm d, nm ∈ get_leaf_names t → display_name metadata nm = Some d →
           d ∈ cont_table_name → nm ∈ contaminations) →
  ∃ table',
    tree_to_pdf metadata tree_base t0 t (contaminations0 ∪ contaminations) false
      = Ok (table', sus_clades) ∧
    backpropagate_contamination table cont_table_name = (table', Ok ()).
Proof.
  intros Hplain Hmeta (top & Htop & Hloop & Hbase)%tree_to_pdf_Ok Hpass Hone.
  assert (Hleaves : ∀ nm, nm ∈ inner_leaves (traverse t) → nm ∈ get_leaf_names t).
  { intros nm Hnm. apply list_elem_of_In, in_flat_map in Hnm as (node & Hnode & Hnm).
    apply list_elem_of_In in Hnode.
    apply (clade_of_traverse t node); [done |].
    destruct node as [|n [|u ups]]; try done. unfold clade_of.
    destruct n as [x s ch]. unfold is_leaf in Hnm. cbn in Hnm.
    destruct ch; [| done]. apply list_elem_of_In in Hnm. exact Hnm. }
  apply pdf_loop_Ok in Hloop as (rows & -> & Hrows & _ & _ & Hother).
  destruct (Hother (contaminations0 ∪ contaminations) false [])
    as (rows1 & Hrows1 & Hrun1).
  exists (write_row <$> rows1). split.
  { apply tree_to_pdf_Ok. exists top. by rewrite Hrun1. }
  cbn [app]. unfold backpropagate_contamination.
  rewrite write_rows_written.
  2:{ apply Forall_forall. intros r Hr.
      destruct (proj1 (list_elem_of_lookup _ _) Hr) as [i Hi].
      destruct (Forall2_lookup_r _ _ _ _ _ Hrows Hi) as (nm & Hnm & Hrow).
      apply (leaf_row_written metadata contaminations0 top nm); [| done | done].
      apply Hplain, Hleaves. by eapply list_elem_of_lookup_2. }
  cbn [app]. do 2 f_equal. symmetry.
  apply (Forall2_fmap_eq _ _ _ _ _ _ Hrows Hrows1).
  intros nm r r' Hnm Hr Hr'.
  pose proof (contaminant_iff_verdict_true_aux _ _ _ _ _ Hpass) as Hconts.
  pose proof (contamination_loop_names _ _ _ _ _ Hpass) as Hnames.
  rewrite (leaf_row_status _ _ _ (contaminations0 ∪ contaminations) top _ _ Hr) in Hr'.
  injection Hr' as <-.
  pose proof (leaf_row_status _ _ _ ∅ ∅ _ _ Hr) as Hd.
  pose proof (leaf_row_status _ _ _ contaminations0 top _ _ Hr) as Hr0.
  rewrite Hr in Hr0. injection Hr0 as Hr0.
  unfold revise. case_bool_decide as Hin.
  - f_equal.
    assert (Hnmc : nm ∈ contaminations).
    { apply (Hone nm (row_name r)); [by apply Hleaves | | done].
      unfold display_name. by rewrite Hd. }
    apply Hconts in Hnmc as Hcand.
    destruct Hcand as (node & _ & n & ckr & _ & _ & _ & Hc & _).
    unfold leaf_status. rewrite Hc. cbn. rewrite bool_decide_eq_true_2; [done |].
    set_solver.
  - assert (Hout : nm ∉ contaminations).
    { intros Hnmc. apply Hin, Hnames; [| exists nm; split; [exact Hnmc |]].
      - intros d. cbn. set_solver.
      - unfold display_name. by rewrite Hd. }
    rewrite Hr0 at 3. f_equal. unfold leaf_status.
    destruct (PyStr.count "_" nm =? 4); [| done].
    destruct (decide (nm ∈ contaminations0)) as [Hc0 | Hc0].
    + rewrite !bool_decide_eq_true_2; [done | done | set_solver].
    + rewrite !(bool_decide_eq_false_2 (nm ∈ contaminations0)) by done.
      rewrite bool_decide_eq_false_2; [done | set_solver].
Qed.

Lemma backpropagate_after_tree_to_pdf_witness :
  ∃ table',
    tree_to_pdf Sample.metadata "gene_100" Files.tree_mixed Files.tree_mixed
      (∅ ∪ {["X_q1_h1_r1x_b"]}) false = Ok (table', 1) ∧
    backpropagate_contamination (write_row <$> Files.rows_mixed "o")
      {["X x_h1_r1x_b@X"]} = (table', Ok ()).
Proof.
  apply (backpropagate_after_tree_to_pdf Sample.metadata "gene_100"
           Files.tree_mixed Files.tree_mixed Sample.cont_beta ∅
           (write_row <$> Files.rows_mixed "o") 1
           {["X_q1_h1_r1x_b"]} {["X x_h1_r1x_b@X"]}).
  - intros nm Hnm%list_elem_of_In. vm_compute in Hnm.
    repeat (destruct Hnm as [<- | Hnm]; [by vm_compute |]). done.
  - intros org rec Hl. unfold Sample.metadata in Hl.
    apply elem_of_list_to_map_2, list_elem_of_In in Hl. cbn in Hl.
    repeat (destruct Hl as [[= <- <-] | Hl]; [by vm_compute |]). done.
  - vm_compute. reflexivity.
  - vm_compute. reflexivity.
  - intros nm d Hnm%list_elem_of_In Hd Hin%elem_of_singleton. subst d.
    vm_compute in Hnm.
    repeat (destruct Hnm as [<- | Hnm];
            [first [apply elem_of_singleton; reflexivity
                   | vm_compute in Hd; discriminate Hd] |]).
    done.
Defined.

(** * The bar charts of [plot_problematic] *)

Lemma count_up_total counted g :
  sum_list (count_up counted g).*2 = S (sum_list counted.*2).
Proof.
  induction counted as [|[k v] rest IH]; [done |]. cbn [count_up].
  destruct (String.eqb k g); cbn; [done |].
  cbn in IH. rewrite IH. lia.
Qed.

Lemma Counter_total groups : sum_list (Counter groups).*2 = length groups.
Proof.
  unfold Counter.
  assert (H : ∀ acc, sum_list (fold_left count_up groups acc).*2
                     = sum_list acc.*2 + length groups).
  { induction groups as [|g groups IH]; intros acc; cbn; [lia |].
    rewrite IH, count_up_total. lia. }
  by rewrite H.
Qed.

Lemma group_total_of_sum counted : group_total_of counted = sum_list counted.*2.
Proof.
  unfold group_total_of.
  assert (H : ∀ n, fold_left (λ total (kv : string * nat), total + kv.2) counted n
                   = n + sum_list counted.*2).
  { induction counted as [|kv rest IH]; intros n; cbn; [lia |].
    rewrite IH. lia. }
  by rewrite H.
Qed.

Lemma max_step_length max_ item_ :
  max_step max_ item_ = max_ `max` length item_.2.
Proof.
  unfold max_step. rewrite group_total_of_sum, Counter_total.
  destruct (Nat.ltb_spec max_ (length item_.2)) as [Hlt | Hge].
  - by rewrite Nat.max_r by (by apply Nat.lt_le_incl).
  - by rewrite Nat.max_l.
Qed.

Lemma max_loop items max_ :
  max_ ≤ fold_left max_step items max_ ∧
  Forall (λ item_ : string * list string,
            length item_.2 ≤ fold_left max_step items max_) items.
Proof.
  revert max_. induction items as [|item_ items IH]; intros max_; cbn.
  { split; [lia | constructor]. }
  destruct (IH (max_step max_ item_)) as [Hle Hall].
  pose proof (max_step_length max_ item_) as Hm. split; [lia |].
  constructor; [lia | done].
Qed.

Section ProblematicKeys.
Variable iter : gset string → list string.
Variable metadata : gmap string TaxonRecord.

Lemma member_loop_keys group_perc max_perc members table table' :
  foldM (member_step metadata group_perc max_perc) table members = Ok table' →
  keys_known metadata table → keys_known metadata table'.
Proof.
  revert table. induction members as [|seq members IH]; intros table Hf Hk.
  { by injection Hf as <-. }
  rewrite foldM_cons in Hf. apply bind_Ok in Hf as (table1 & H1 & H2).
  apply (IH _ H2). unfold member_step in H1.
  apply bind_Ok in H1 as (rec & Hrec & H1). apply getitem_Ok in Hrec.
  apply bind_Ok in H1 as (p & _ & H1).
  intros org Horg.
  destruct (decide (org = org_code seq)) as [-> | Hne]; [by eauto |].
  apply Hk. destruct (Qeq_bool p 50); injection H1 as <-;
    by rewrite lookup_insert_ne in Horg.
Qed.

Lemma problematic_loop_keys clades table table' :
  foldM (clade_step iter metadata) table clades = Ok table' →
  keys_known metadata table → keys_known metadata table'.
Proof.
  revert table. induction clades as [|clade clades IH]; intros table Hf Hk.
  { by injection Hf as <-. }
  rewrite foldM_cons in Hf. apply bind_Ok in Hf as (table1 & H1 & H2).
  apply (IH _ H2). unfold clade_step in H1.
  apply bind_Ok in H1 as (taxons & _ & H1).
  apply bind_Ok in H1 as (max_perc & _ & H1).
  by eapply member_loop_keys.
Qed.

End ProblematicKeys.

(** The pages of a loop that returns: one for each entry, in order. *)
Lemma page_loop_Ok is_color metadata tax_col max_ items pdf pdf' :
  foldM (page_step is_color metadata tax_col max_) pdf items = Ok pdf' →
  ∃ pages,
    pdf' = pdf ++ pages ∧
    Forall2 (λ (item_ : string * list string) page,
               (∃ rec, metadata !! item_.1 = Some rec ∧
                       page_title page = item_.1 +:+ "(" +:+ group rec +:+ ")") ∧
               page_bars page = Counter item_.2 ∧
               page_colors page = bar_colour tax_col <$> (Counter item_.2).*1 ∧
               forallb is_color (page_colors page) = true ∧
               page_ylim page = max_)
            items pages.
Proof.
  revert pdf. induction items as [|item_ items IH]; intros pdf Hrun.
  { injection Hrun as <-. exists []. by rewrite app_nil_r. }
  rewrite foldM_cons in Hrun. apply bind_Ok in Hrun as (pdf1 & Hstep & Hrun).
  unfold page_step in Hstep.
  destruct (forallb is_color (bar_colour tax_col <$> (Counter item_.2).*1))
    eqn:Hcolors; [| done].
  apply bind_Ok in Hstep as (rec & Hrec & [= <-]). apply getitem_Ok in Hrec.
  apply IH in Hrun as (pages & -> & Hpages).
  eexists (_ :: pages). rewrite <- app_assoc. split; [done |].
  constructor; [| done]. cbn. split; [by exists rec | done].
Qed.

(** The loop ends in the [KeyError] of the title only at an entry whose
    organism is not in the Taxon Directory. *)
Lemma page_loop_KeyError is_color metadata tax_col max_ items pdf d k :
  foldM (page_step is_color metadata tax_col max_) pdf items
    = Raise (KeyError d k) →
  ∃ item_, item_ ∈ items ∧ metadata !! item_.1 = None.
Proof.
  revert pdf. induction items as [|item_ items IH]; intros pdf Hrun; [done |].
  rewrite foldM_cons in Hrun.
  apply bind_Raise in Hrun as [Hstep | (pdf1 & _ & Hrun)].
  - exists item_. split; [by left |]. unfold page_step in Hstep.
    destruct (forallb is_color _); [| done].
    apply bind_Raise in Hstep as [[Hnone _]%getitem_Raise | (rec & _ & [=])].
    done.
  - destruct (IH _ Hrun) as (item' & Hin & Hnone). exists item'.
    split; [by right | done].
Qed.

(** X24: on a table [problematic] has returned, the title lookup of
    [plot_problematic] cannot fail, since the organism of each entry is
    in the Taxon Directory: the call never ends in the [KeyError] of
    [metadata[org]].  When it returns there is one page for each entry,
    in the order of the entries; the heights of its bars add up to the
    number of labels of the organism, and neither that number nor any
    bar exceeds the upper limit of the axis. *)
Theorem plot_problematic_after_problematic
    (is_color : string → bool)
    (iter : gset string → list string) (metadata : gmap string TaxonRecord)
    (tax_col : gmap string string) (nonredundant_clades : list (gset string))
    (problematic_orgs : gmap string (list string))
    (items : list (string * list string)) :
  problematic iter metadata nonredundant_clades = Ok problematic_orgs →
  items ≡ₚ map_to_list problematic_orgs →
  (∀ k, plot_problematic is_color metadata tax_col items
          ≠ Raise (KeyError Dmetadata k)) ∧
  (∀ pages,
     plot_problematic is_color metadata tax_col items = Ok pages →
     Forall2 (λ (item_ : string * list string) page,
                (∃ rec, metadata !! item_.1 = Some rec ∧
                        page_title page = item_.1 +:+ "(" +:+ group rec +:+ ")") ∧
                sum_list (page_bars page).*2 = length item_.2 ∧
                length item_.2 ≤ page_ylim page ∧
                Forall (λ bar : string * nat, bar.2 ≤ page_ylim page)
                       (page_bars page))
             items pages).
Proof.
  intros Hrun Hitems.
  assert (Hknown : ∀ item_ : string * list string,
             item_ ∈ items → is_Some (metadata !! item_.1)).
  { intros [org groups] Hin. rewrite Hitems in Hin.
    apply elem_of_map_to_list in Hin.
    apply (problematic_loop_keys iter metadata _ _ _ Hrun); [| by eauto].
    intros org' [? Hl]. by rewrite lookup_empty in Hl. }
  unfold plot_problematic. split.
  - intros k (item_ & Hin & Hnone)%page_loop_KeyError.
    destruct (Hknown _ Hin) as [rec Hrec]. congruence.
  - intros pages Hpages.
    apply page_loop_Ok in Hpages as (pages' & -> & Hall). cbn [app].
    destruct (max_loop items 0) as [_ Hmax].
    revert Hmax Hall. clear.
    generalize (fold_left max_step items 0). intros m Hmax Hall.
    induction Hall as [|item_ page items pages Hpage _ IH]; [constructor |].
    apply Forall_cons in Hmax as [Hle Hmax].
    constructor; [| by apply IH].
    destruct Hpage as (Htitle & Hbars & _ & _ & Hylim).
    rewrite Hbars, Hylim, Counter_total. split; [done |]. split; [done |].
    split; [done |]. apply Forall_forall. intros bar Hbar.
    assert (bar.2 ≤ sum_list (Counter item_.2).*2);
      [| rewrite Counter_total in *; lia].
    apply list_elem_of_fmap_2 with (f := snd) in Hbar.
    clear -Hbar. induction Hbar; cbn; lia.
Qed.

Lemma plot_problematic_after_problematic_witness :
  (∀ k, plot_problematic Files.is_color Sample.metadata Files.tax_col
          Files.items_two_clades ≠ Raise (KeyError Dmetadata k)) ∧
  (∀ pages,
     plot_problematic Files.is_color Sample.metadata Files.tax_col
       Files.items_two_clades = Ok pages →
     Forall2 (λ (item_ : string * list string) page,
                (∃ rec, Sample.metadata !! item_.1 = Some rec ∧
                        page_title page = item_.1 +:+ "(" +:+ group rec +:+ ")") ∧
                sum_list (page_bars page).*2 = length item_.2 ∧
                length item_.2 ≤ page_ylim page ∧
                Forall (λ bar : string * nat, bar.2 ≤ page_ylim page)
                       (page_bars page))
             Files.items_two_clades pages).
Proof.
  apply (plot_problematic_after_problematic Files.is_color elements
           Sample.metadata Files.tax_col
           [{["A_1"; "B_1"]}; {["A_1"; "B_1"; "C_1"]}]
           (list_to_map Files.items_two_clades) Files.items_two_clades).
  - vm_compute. reflexivity.
  - symmetry. apply map_to_list_to_map.
    apply (bool_decide_unpack _). vm_compute. exact I.
Defined.

(** The pages of that table: the bars of [A] and [B] are black for the
    marker and blue for Beta, under an axis that ends at 2. *)
Example plot_problematic_two_clades :
  plot_problematic Files.is_color Sample.metadata Files.tax_col
    Files.items_two_clades
  = Ok [ {| page_bars := [("unspecified", 1); ("Beta", 1)];
            page_colors := ["black"; "blue"];
            page_ylim := 2; page_title := "A(Alpha)" |};
         {| page_bars := [("unspecified", 1); ("Beta", 1)];
            page_colors := ["black"; "blue"];
            page_ylim := 2; page_title := "B(Beta)" |};
         {| page_bars := [("Beta", 1)];
            page_colors := ["blue"];
            page_ylim := 2; page_title := "C(Beta)" |} ].
Proof. vm_compute. reflexivity. Qed.

(** A colour [matplotlib] does not know, as a metadata file may give it
    to a group, stops the call with the [ValueError] of [plt.bar]. *)
Example plot_problematic_unknown_colour :
  plot_problematic Files.is_color Sample.metadata {["Beta" := "NA"]}
    Files.items_two_clades
  = Raise ValueError.
Proof. vm_compute. reflexivity. Qed.
